(** * ts-caldav: protocol mapping and synchronisation engine

    A shallow embedding of the CalDAV client (client.js), of its multistatus
    parser (utils/parser.js) and of its date helpers (utils/encode.js),
    together with the properties the specification states about them.

    JavaScript strings are modelled as [string] (one [ascii] per code unit,
    code units 0..255), JavaScript [Map] objects as [gmap], arrays as lists,
    [undefined] as [None] or [JUndef]. *)

From Stdlib Require Import ZArith List Ascii String Bool Lia.
From stdpp Require Import base option list gmap strings pretty.

Local Open Scope string_scope.
Local Open Scope list_scope.

Set Warnings "-register-all".

#[local] Arguments String.append _ _ : simpl nomatch.

(** ** JavaScript string methods used by the sources *)

Module JsString.

(** [s.startsWith(p)] *)
Fixpoint startsWith (s p : string) {struct p} : bool :=
  match p with
  | EmptyString => true
  | String c p' =>
      match s with
      | EmptyString => false
      | String d s' => Ascii.eqb c d && startsWith s' p'
      end
  end.

(** [s.substring(n)] for [0 <= n]: the code units from index [n] on. *)
Fixpoint substring_from (n : nat) (s : string) : string :=
  match n, s with
  | O, _ => s
  | S n', String _ s' => substring_from n' s'
  | S _, EmptyString => EmptyString
  end.

Fixpoint rev_append (s acc : string) : string :=
  match s with
  | EmptyString => acc
  | String c s' => rev_append s' (String c acc)
  end.

Definition rev (s : string) : string := rev_append s EmptyString.

(** [s.endsWith(p)] *)
Definition endsWith (s p : string) : bool := startsWith (rev s) (rev p).

(** [s.slice(0, -1)]: all code units but the last. *)
Fixpoint slice_0_m1 (s : string) : string :=
  match s with
  | EmptyString => EmptyString
  | String c EmptyString => EmptyString
  | String c s' => String c (slice_0_m1 s')
  end.

(** [s.includes(p)] *)
Fixpoint includes (s p : string) : bool :=
  startsWith s p ||
  match s with
  | EmptyString => false
  | String _ s' => includes s' p
  end.

Definition lower_ascii (c : ascii) : ascii :=
  let n := nat_of_ascii c in
  if ((Nat.leb 65 n && Nat.leb n 90)
      || (Nat.leb 192 n && Nat.leb n 222 && negb (Nat.eqb n 215)))%bool
  then ascii_of_nat (n + 32)%nat else c.

Definition upper_ascii (c : ascii) : ascii :=
  let n := nat_of_ascii c in
  if (Nat.leb 97 n && Nat.leb n 122)%bool then ascii_of_nat (n - 32)%nat else c.

(** [s.toLowerCase()] on code units 0..255 (the letters A-Z and the
    capital letters of Latin-1). *)
Fixpoint toLowerCase (s : string) : string :=
  match s with
  | EmptyString => EmptyString
  | String c s' => String (lower_ascii c) (toLowerCase s')
  end.

(** [s.toUpperCase()] on code units 0..127 (the letters a-z); the sources
    apply it to the names of item kinds, rule keys and components. *)
Fixpoint toUpperCase (s : string) : string :=
  match s with
  | EmptyString => EmptyString
  | String c s' => String (upper_ascii c) (toUpperCase s')
  end.

(** White space and line terminators among the code units 0..255. *)
Definition is_space (c : ascii) : bool :=
  let n := nat_of_ascii c in
  ((Nat.leb 9 n && Nat.leb n 13) || Nat.eqb n 32 || Nat.eqb n 160)%bool.

Fixpoint trimStart (s : string) : string :=
  match s with
  | EmptyString => EmptyString
  | String c s' => if is_space c then trimStart s' else s
  end.

(** [s.trim()] *)
Definition trim (s : string) : string := rev (trimStart (rev (trimStart s))).

(** [s.replace(/^W\//, "")] *)
Definition strip_weak_prefix (s : string) : string :=
  if startsWith s "W/" then substring_from 2 s else s.

(** [s.replace(/pat/g, by)] for a literal, non-empty pattern; [fuel] bounds
    the scan and [String.length s] is always enough. *)
Fixpoint replaceAll_fuel (fuel : nat) (pat by_ s : string) : string :=
  match fuel with
  | O => s
  | S fuel' =>
      match s with
      | EmptyString => EmptyString
      | String c s' =>
          if startsWith s pat
          then by_ +:+ replaceAll_fuel fuel' pat by_ (substring_from (String.length pat) s)
          else String c (replaceAll_fuel fuel' pat by_ s')
      end
  end.

Definition replaceAll (pat by_ s : string) : string :=
  replaceAll_fuel (String.length s) pat by_ s.

(** [s.split(sep)[0]] for a one-character separator. *)
Fixpoint split_head (sep : ascii) (s : string) : string :=
  match s with
  | EmptyString => EmptyString
  | String c s' => if Ascii.eqb c sep then EmptyString else String c (split_head sep s')
  end.

End JsString.

Import JsString.

(** ** Item references and the JavaScript [Map] built from them *)

Record ItemRef := mkRef { href : string; etag : string }.

Global Instance ItemRef_eq_dec : EqDecision ItemRef.
Proof. solve_decision. Defined.

(** [new Map(entries)]: entries are set in order, a later entry for a key
    replaces an earlier one. *)
Definition Map_new (entries : list (string * string)) : gmap string string :=
  fold_left (fun m kv => <[kv.1 := kv.2]> m) entries ∅.

(** [m.has(k)] *)
Definition Map_has (m : gmap string string) (k : string) : bool :=
  bool_decide (is_Some (m !! k)).

(** [m.get(k) !== v] for a string [v] ([undefined] differs from every string). *)
Definition Map_get_differs (m : gmap string string) (k v : string) : bool :=
  negb (bool_decide (m !! k = Some v)).

Record DiffResult := mkDiff {
  newItems : list string;
  updatedItems : list string;
  deletedItems : list string
}.

(** client.js, [diffRefs(remoteRefs, localRefs)] *)
Definition diffRefs (remoteRefs localRefs : list ItemRef) : DiffResult :=
  let localMap := Map_new (map (fun i => (href i, etag i)) localRefs) in
  let remoteMap := Map_new (map (fun i => (href i, etag i)) remoteRefs) in
  let '(newItems, updatedItems) :=
    fold_left
      (fun '(newItems, updatedItems) r =>
         if negb (Map_has localMap (href r)) then (newItems ++ [href r], updatedItems)
         else if Map_get_differs localMap (href r) (etag r)
              then (newItems, updatedItems ++ [href r])
              else (newItems, updatedItems))
      remoteRefs ([], []) in
  let deletedItems :=
    fold_left
      (fun deletedItems l =>
         if negb (Map_has remoteMap (href l)) then deletedItems ++ [href l]
         else deletedItems)
      localRefs [] in
  mkDiff newItems updatedItems deletedItems.


(** ** Values produced by the XML decoder

    The XML decoder (fast-xml-parser) is an external collaborator: it turns a
    response body into nested objects, arrays, text, numbers and booleans. *)

Inductive JVal :=
| JUndef
| JBool (b : bool)
| JNum (n : Z)
| JStr (s : string)
| JArr (items : list JVal)
| JObj (fields : list (string * JVal)).

(** JavaScript truthiness: [!!v] *)
Definition truthy (v : JVal) : bool :=
  match v with
  | JUndef => false
  | JBool b => b
  | JNum n => negb (Z.eqb n 0)
  | JStr s => negb (String.eqb s "")
  | JArr _ | JObj _ => true
  end.

(** The first field named [k] of an object's field list. *)
Fixpoint field (k : string) (fields : list (string * JVal)) : JVal :=
  match fields with
  | [] => JUndef
  | (k', v) :: rest => if String.eqb k k' then v else field k rest
  end.

(** [v?.k]: [undefined] on [undefined] and on every value without that
    property (the property names read by the sources are no built-in ones). *)
Definition prop_opt (v : JVal) (k : string) : JVal :=
  match v with
  | JObj fields => field k fields
  | _ => JUndef
  end.

(** [Array.isArray(value) ? value : value ? [value] : []] *)
Definition toArray (value : JVal) : list JVal :=
  match value with
  | JArr items => items
  | _ => if truthy value then [value] else []
  end.

(** ** Errors, requests and the client monad *)

Inductive JsError :=
| AxiosError (status : option Z) (message : string)
| TypeError (message : string)
| Error (message : string).

(** [`${error}`] *)
Definition error_toString (e : JsError) : string :=
  match e with
  | AxiosError _ m => "AxiosError: " +:+ m
  | TypeError m => "TypeError: " +:+ m
  | Error m => "Error: " +:+ m
  end.

(** A computation that returns or throws: [inr] a value, [inl] an error. *)
Definition map_ok {A B} (f : A -> B) (r : JsError + A) : JsError + B :=
  match r with
  | inl e => inl e
  | inr a => inr (f a)
  end.

Definition and_then {A B} (r : JsError + A) (k : A -> JsError + B) : JsError + B :=
  match r with
  | inl e => inl e
  | inr a => k a
  end.

(** [v[k]]: reading a property of [undefined] throws. *)
Definition prop (v : JVal) (k : string) : JsError + JVal :=
  match v with
  | JUndef => inl (TypeError ("Cannot read properties of undefined (reading '" +:+ k +:+ "')"))
  | _ => inr (prop_opt v k)
  end.

Inductive Method := PROPFIND | REPORT | PUT | DELETE.

(** The request bodies the client sends, by template and parameters. *)
Inductive Body :=
| PropfindGetctag
| CalendarQueryGetetag (component : string)
| CalendarObject (ics : string)
| NoBody.

Record Request := mkRequest {
  req_method : Method;
  req_url : string;
  req_headers : list (string * string);
  req_body : Body
}.

Record Response := mkResponse {
  status : Z;
  headers : list (string * string);
  data : string
}.

(** What the transport reports for a request: a response, or no response. *)
Inductive Outcome :=
| Replied (r : Response)
| Failed (message : string).

(** What surrounds a client call: the server (its answer may depend on the
    requests made before), the XML decoder, the identifier [uuid.v4()] draws. *)
Record Env := mkEnv {
  server : list Request -> Request -> Outcome;
  xml_parse : string -> JVal;
  uuid_v4 : string
}.

(** A client operation runs against an environment, from the list of the
    requests issued so far; it returns or throws, and extends the list. *)
Definition Client (A : Type) : Type :=
  Env -> list Request -> (JsError + A) * list Request.

Global Instance Client_ret : MRet Client :=
  fun A a _ trace => (inr a, trace).

Global Instance Client_bind : MBind Client :=
  fun A B k m env trace =>
    match m env trace with
    | (inl e, trace') => (inl e, trace')
    | (inr a, trace') => k a env trace'
    end.

Definition throw {A} (e : JsError) : Client A :=
  fun _ trace => (inl e, trace).

Definition lift {A} (r : JsError + A) : Client A :=
  fun _ trace => (r, trace).

(** [try { body } catch (error) { handler }] *)
Definition try_catch {A} (body : Client A) (handler : JsError -> Client A) : Client A :=
  fun env trace =>
    match body env trace with
    | (inl e, trace') => handler e env trace'
    | (inr a, trace') => (inr a, trace')
    end.

Definition decode (text : string) : Client JVal :=
  fun env trace => (inr (xml_parse env text), trace).

Definition uuid : Client string :=
  fun env trace => (inr (uuid_v4 env), trace).

Definition status_message (s : Z) : string :=
  "Request failed with status code " +:+ pretty s.

(** [httpClient.request(config)]: the request is issued; a response whose
    status [validateStatus] refuses, and no response at all, are thrown. *)
Definition request (validateStatus : Z -> bool) (req : Request) : Client Response :=
  fun env trace =>
    match server env trace req with
    | Replied r =>
        if validateStatus (status r)
        then (inr r, trace ++ [req])
        else (inl (AxiosError (Some (status r)) (status_message (status r))), trace ++ [req])
    | Failed m => (inl (AxiosError None m), trace ++ [req])
    end.

(** [axios.isAxiosError(error) && error.response?.status === 412] *)
Definition is_precondition_failed (e : JsError) : bool :=
  match e with
  | AxiosError (Some s) _ => Z.eqb s 412
  | _ => false
  end.

(** [response.headers["etag"] || ""] *)
Fixpoint header (name : string) (hs : list (string * string)) : string :=
  match hs with
  | [] => ""
  | (n, v) :: rest => if String.eqb n name then v else header name rest
  end.

Definition ok_2xx (s : Z) : bool := Z.leb 200 s && Z.ltb s 300.


(** ** The client (client.js) *)

(** [resolveUrl(path)], with [basePath] standing for
    [new URL(this.baseUrl).pathname]. *)
Definition resolveUrl (basePath path : string) : string :=
  if startsWith path basePath && negb (String.eqb basePath "/") then
    let stripped := substring_from (String.length basePath) path in
    if startsWith stripped "/" then stripped else "/" +:+ stripped
  else path.

(** [v[k1][k2]...]: every step throws on [undefined]. *)
Fixpoint prop_path (v : JVal) (path : list string) : JsError + JVal :=
  match path with
  | [] => inr v
  | k :: rest =>
      match prop v k with
      | inl e => inl e
      | inr v' => prop_path v' rest
      end
  end.

Definition getCtag_request (calendarUrl : string) : Request :=
  mkRequest PROPFIND calendarUrl [("Depth", "0")] PropfindGetctag.

(** [getCtag(calendarUrl)] *)
Definition getCtag (calendarUrl : string) : Client JVal :=
  response ← request (Z.eqb 207) (getCtag_request calendarUrl);
  jsonData ← decode (data response);
  lift (prop_path jsonData ["multistatus"; "response"; "propstat"; "prop"; "getctag"]).

Definition getItemRefs_request (calendarUrl component : string) : Request :=
  mkRequest REPORT calendarUrl [("Depth", "1")] (CalendarQueryGetetag component).

(** A reference as [getItemRefs] pushes it: its href and its etag are what
    the XML decoder gave for them, truthy and of any kind (a text, a number
    for a value written in digits, an object for a nested element). *)
Record RemoteRef := mkRemoteRef { remote_href : JVal; remote_etag : JVal }.

(** The loop body of [getItemRefs]: one response entry. *)
Definition ref_of_entry (obj : JVal) : list RemoteRef :=
  match obj with
  | JObj _ | JArr _ =>
      let resultHref := prop_opt obj "href" in
      let resultEtag := prop_opt (prop_opt (prop_opt obj "propstat") "prop") "getetag" in
      if truthy resultHref && truthy resultEtag
      then [mkRemoteRef resultHref resultEtag]
      else []
  | _ => []
  end.

(** The references [getItemRefs] reads off the decoded reply. *)
Definition refs_of_reply (jsonData : JVal) : list RemoteRef :=
  let rawResponses := prop_opt (prop_opt jsonData "multistatus") "response" in
  if negb (truthy rawResponses) then []
  else
    let responses :=
      match rawResponses with JArr items => items | _ => [rawResponses] end in
    fold_left (fun refs obj => refs ++ ref_of_entry obj) responses [].

(** [getItemRefs(calendarUrl, component)] *)
Definition getItemRefs (calendarUrl component : string) : Client (list RemoteRef) :=
  response ← request ok_2xx (getItemRefs_request calendarUrl component);
  jsonData ← decode (data response);
  mret (refs_of_reply jsonData).

(** [diffRefs] as the sync operations call it: the remote references are
    those of [getItemRefs], of any kind; the local ones are the caller's, of
    the declared type. [diffRefs] above is this function on remote
    references that are text (see [diffRefs_received_text]). *)

(** [localMap.has(href)] for a remote href: the keys of [localMap] are text,
    and a value that is no text is the same as none of them. *)
Definition local_has (localMap : gmap string string) (href : JVal) : bool :=
  match href with
  | JStr h => Map_has localMap h
  | _ => false
  end.

(** [localMap.get(href) !== etag] for a remote href and etag: what the map
    gives is a text or [undefined]. *)
Definition local_get_differs (localMap : gmap string string) (href etag : JVal) : bool :=
  match href, etag with
  | JStr h, JStr e => Map_get_differs localMap h e
  | JStr h, JUndef => Map_has localMap h
  | _, JUndef => false
  | _, _ => true
  end.

(** [new Map(entries).has(href)] for a local href, a text: some entry has
    that text as its key. *)
Definition entries_have (entries : list (JVal * JVal)) (href : string) : bool :=
  existsb (fun kv => match kv.1 with JStr h => String.eqb h href | _ => false end)
          entries.

Record ReceivedDiff := mkReceivedDiff {
  received_new : list JVal;
  received_updated : list JVal;
  received_deleted : list string
}.

Definition diffRefs_received (remoteRefs : list RemoteRef) (localRefs : list ItemRef)
  : ReceivedDiff :=
  let localMap := Map_new (map (fun i => (href i, etag i)) localRefs) in
  let remoteMap := map (fun i => (remote_href i, remote_etag i)) remoteRefs in
  let '(newItems, updatedItems) :=
    fold_left
      (fun '(newItems, updatedItems) r =>
         if negb (local_has localMap (remote_href r))
         then (newItems ++ [remote_href r], updatedItems)
         else if local_get_differs localMap (remote_href r) (remote_etag r)
              then (newItems, updatedItems ++ [remote_href r])
              else (newItems, updatedItems))
      remoteRefs ([], []) in
  let deletedItems :=
    fold_left
      (fun deletedItems l =>
         if negb (entries_have remoteMap (href l)) then deletedItems ++ [href l]
         else deletedItems)
      localRefs [] in
  mkReceivedDiff newItems updatedItems deletedItems.

Record SyncChangesResult := mkSyncChanges {
  changed : bool;
  newCtag : JVal;
  newEvents : list JVal;
  updatedEvents : list JVal;
  deletedEvents : list string
}.

Record SyncTodosResult := mkSyncTodos {
  todos_changed : bool;
  todos_newCtag : JVal;
  newTodos : list JVal;
  updatedTodos : list JVal;
  deletedTodos : list string
}.

(** [!ctag || ctag === remoteCtag], for a token that is a string or absent. *)
Definition token_unchanged (ctag : option string) (remoteCtag : JVal) : bool :=
  match ctag with
  | None => true
  | Some c =>
      String.eqb c "" ||
      match remoteCtag with JStr r => String.eqb c r | _ => false end
  end.

(** [syncChanges(calendarUrl, ctag, localEvents)] *)
Definition syncChanges (calendarUrl : string) (ctag : option string)
    (localEvents : list ItemRef) : Client SyncChangesResult :=
  remoteCtag ← getCtag calendarUrl;
  if token_unchanged ctag remoteCtag then
    mret (mkSyncChanges false remoteCtag [] [] [])
  else
    remoteRefs ← getItemRefs calendarUrl "VEVENT";
    let d := diffRefs_received remoteRefs localEvents in
    mret (mkSyncChanges true remoteCtag
            (received_new d) (received_updated d) (received_deleted d)).

(** [syncTodoChanges(calendarUrl, ctag, localTodos)] *)
Definition syncTodoChanges (calendarUrl : string) (ctag : option string)
    (localTodos : list ItemRef) : Client SyncTodosResult :=
  remoteCtag ← getCtag calendarUrl;
  if token_unchanged ctag remoteCtag then
    mret (mkSyncTodos false remoteCtag [] [] [])
  else
    remoteRefs ← getItemRefs calendarUrl "VTODO";
    let d := diffRefs_received remoteRefs localTodos in
    mret (mkSyncTodos true remoteCtag
            (received_new d) (received_updated d) (received_deleted d)).


(** *** Creating and updating items *)

(** The double quote, as a one-character string. *)
Definition dquote : string := String (ascii_of_nat 34) EmptyString.

(** [isWeak(etag)]: [undefined] for an absent etag, which is falsy. *)
Definition isWeak (etag : option string) : bool :=
  match etag with
  | None => false
  | Some s => startsWith s ("W/" +:+ dquote) || startsWith s "W/"
  end.

(** The item kinds [createItem], [updateItem] and [deleteItem] are called
    with. *)
Inductive ItemType := event | todo.

Definition itemType_name (t : ItemType) : string :=
  match t with event => "event" | todo => "todo" end.

(** [itemType[0].toUpperCase() + itemType.slice(1)] *)
Definition capitalize (s : string) : string :=
  match s with
  | EmptyString => EmptyString
  | String c rest => String (upper_ascii c) rest
  end.

(** An event or a todo as the mutations read it: its [uid], [href] and
    [etag] (each possibly absent) and the rest of its content. *)
Record Item (T : Type) := mkItem {
  item_uid : option string;
  item_href : option string;
  item_etag : option string;
  item_content : T
}.
Arguments mkItem {T}.
Arguments item_uid {T}.
Arguments item_href {T}.
Arguments item_etag {T}.
Arguments item_content {T}.

(** [!s] for a string that may be absent. *)
Definition falsy (s : option string) : bool :=
  match s with
  | None => true
  | Some s => String.eqb s ""
  end.

Record MutationResult := mkMutationResult {
  res_uid : string;
  res_href : string;
  res_etag : string;
  res_newCtag : JVal
}.

Definition createItem_request (href ics : string) : Request :=
  mkRequest PUT href
    [("Content-Type", "text/calendar; charset=utf-8"); ("If-None-Match", "*")]
    (CalendarObject ics).

Definition created (s : Z) : bool := Z.eqb s 201 || Z.eqb s 204.

(** [createItem(calendarUrl, data, buildFn, itemType)] *)
Definition createItem {T} (calendarUrl : string) (data : Item T)
    (buildFn : Item T -> string -> JsError + string) (itemType : ItemType)
  : Client MutationResult :=
  if String.eqb calendarUrl "" then
    throw (Error ("Calendar URL is required to create a " +:+ itemType_name itemType +:+ "."))
  else
    uid ← (if falsy (item_uid data) then uuid else mret (default "" (item_uid data)));
    let calendarUrl :=
      if endsWith calendarUrl "/" then slice_0_m1 calendarUrl else calendarUrl in
    let href := calendarUrl +:+ "/" +:+ uid +:+ ".ics" in
    ics ← lift (buildFn data uid);
    try_catch
      (response ← request created (createItem_request href ics);
       let etag := header "etag" (headers response) in
       newCtag ← getCtag calendarUrl;
       mret (mkMutationResult uid
               ((if endsWith calendarUrl "/" then calendarUrl else calendarUrl +:+ "/")
                  +:+ uid +:+ ".ics")
               etag newCtag))
      (fun error =>
         if is_precondition_failed error then
           throw (Error (capitalize (itemType_name itemType)
                           +:+ " with the specified uid already exists."))
         else
           throw (Error ("Failed to create " +:+ itemType_name itemType +:+ ": "
                           +:+ error_toString error))).

(** The headers of the write [updateItem] sends:
    [{ "Content-Type": ..., ...(ifMatchValue ? { "If-Match": ifMatchValue } : {}) }] *)
Definition updateItem_headers (etag : option string) : list (string * string) :=
  let ifMatch := (fun e => trim (strip_weak_prefix e)) <$> etag in
  let ifMatchValue := if isWeak ifMatch then None else ifMatch in
  ("Content-Type", "text/calendar; charset=utf-8")
    :: (if negb (falsy ifMatchValue)
        then [("If-Match", default "" ifMatchValue)]
        else []).

Definition updateItem_request (href : string) (etag : option string) (ics : string)
  : Request :=
  mkRequest PUT href (updateItem_headers etag) (CalendarObject ics).

(** [updateItem(calendarUrl, item, buildFn, itemType)] *)
Definition updateItem {T} (calendarUrl : string) (item : Item T)
    (buildFn : Item T -> string -> JsError + string) (itemType : ItemType)
  : Client MutationResult :=
  if falsy (item_uid item) || falsy (item_href item) then
    throw (Error ("Both 'uid' and 'href' are required to update a "
                    +:+ itemType_name itemType +:+ "."))
  else
    let uid := default "" (item_uid item) in
    let href := default "" (item_href item) in
    let normalizedUrl :=
      if endsWith calendarUrl "/" then slice_0_m1 calendarUrl else calendarUrl in
    ics ← lift (buildFn item uid);
    try_catch
      (response ← request ok_2xx (updateItem_request href (item_etag item) ics);
       let newEtag := header "etag" (headers response) in
       newCtag ← getCtag normalizedUrl;
       mret (mkMutationResult uid href newEtag newCtag))
      (fun error =>
         if is_precondition_failed error then
           throw (Error (capitalize (itemType_name itemType)
                           +:+ " with the specified uid does not match."))
         else
           throw (Error ("Failed to update " +:+ itemType_name itemType +:+ ": "
                           +:+ error_toString error))).


Definition deleteItem_request (href : string) (etag : option string) : Request :=
  mkRequest DELETE href [("If-Match", default "*" etag)] NoBody.

(** [deleteItem(calendarUrl, uid, itemType, etag)] *)
Definition deleteItem (calendarUrl uid : string) (itemType : ItemType)
    (etag : option string) : Client unit :=
  let normalizedUrl :=
    if endsWith calendarUrl "/" then slice_0_m1 calendarUrl else calendarUrl in
  let href := normalizedUrl +:+ "/" +:+ uid +:+ ".ics" in
  try_catch
    (_ ← request (Z.eqb 204) (deleteItem_request href etag); mret tt)
    (fun error =>
       throw (Error ("Failed to delete " +:+ itemType_name itemType +:+ ": "
                       +:+ error_toString error))).

(** ** The multistatus parser (utils/parser.js): calendars *)

Record Calendar := mkCalendar {
  displayName : JVal;
  url : JVal;
  ctag : JVal;
  supportedComponents : list string
}.

Definition known_components : list string :=
  ["VEVENT"; "VTODO"; "VJOURNAL"; "VFREEBUSY"; "VTIMEZONE"; "VAVAILABILITY"].

(** [typeof p?.status === "string" && p.status.toLowerCase().includes("200 ok")] *)
Definition is_ok_propstat (p : JVal) : bool :=
  match prop_opt p "status" with
  | JStr st => includes (toLowerCase st) "200 ok"
  | _ => false
  end.

(** [compArray.map((c) => c.name)]: reading [name] of [undefined] throws. *)
Fixpoint component_names (compArray : list JVal) : JsError + list JVal :=
  match compArray with
  | [] => inr []
  | c :: rest =>
      match prop c "name" with
      | inl e => inl e
      | inr name =>
          match component_names rest with
          | inl e => inl e
          | inr names => inr (name :: names)
          end
      end
  end.

(** [[ "VEVENT", ... ].includes(name)] *)
Definition is_known (name : JVal) : bool :=
  match name with
  | JStr s => existsb (String.eqb s) known_components
  | _ => false
  end.

(** The names that pass [.filter((name) => [...].includes(name))]: strings. *)
Fixpoint known_names (names : list JVal) : list string :=
  match names with
  | [] => []
  | JStr s :: rest =>
      if is_known (JStr s) then s :: known_names rest else known_names rest
  | _ :: rest => known_names rest
  end.

(** [supportedComponents.includes(name)] *)
Definition supports (supportedComponents : list string) (name : string) : bool :=
  existsb (String.eqb name) supportedComponents.

(** [baseUrl ? new URL(href, baseUrl).toString() : href]; [resolve] stands
    for the URL resolution, which throws on an invalid URL. *)
Definition resolve_href (resolve : JVal -> string -> JsError + string)
    (baseUrl : option string) (href : JVal) : JsError + JVal :=
  if falsy baseUrl then inr href
  else
    match resolve href (default "" baseUrl) with
    | inl e => inl e
    | inr u => inr (JStr u)
    end.

(** The body of the loop of [parseCalendars] for one response entry: the
    calendars it pushes (none or one), or what it throws. *)
Definition parseCalendars_entry (resolve : JVal -> string -> JsError + string)
    (baseUrl : option string) (res : JVal) : JsError + list Calendar :=
  let propstats := toArray (prop_opt res "propstat") in
  match List.find is_ok_propstat propstats with
  | None => inr []
  | Some okPropstat =>
      let prop_ := prop_opt okPropstat "prop" in
      let compArray :=
        toArray (prop_opt (prop_opt prop_ "supported-calendar-component-set") "comp") in
      match component_names compArray with
      | inl e => inl e
      | inr names =>
          let supportedComponents := known_names names in
          if negb (supports supportedComponents "VEVENT")
             && negb (supports supportedComponents "VTODO")
          then inr []
          else
            match resolve_href resolve baseUrl (prop_opt res "href") with
            | inl e => inl e
            | inr u =>
                inr [mkCalendar
                       (match prop_opt prop_ "displayname" with
                        | JUndef => JStr ""
                        | v => v
                        end)
                       u
                       (prop_opt prop_ "getctag")
                       supportedComponents]
            end
      end
  end.

Fixpoint parseCalendars_loop (resolve : JVal -> string -> JsError + string)
    (baseUrl : option string) (responses : list JVal) (calendars : list Calendar)
  : JsError + list Calendar :=
  match responses with
  | [] => inr calendars
  | res :: rest =>
      match parseCalendars_entry resolve baseUrl res with
      | inl e => inl e
      | inr pushed => parseCalendars_loop resolve baseUrl rest (calendars ++ pushed)
      end
  end.

(** [parseCalendars(responseData, baseUrl)], [decode] standing for the XML
    decoder with its options. *)
Definition parseCalendars (decode : string -> JVal)
    (resolve : JVal -> string -> JsError + string)
    (responseData : string) (baseUrl : option string) : JsError + list Calendar :=
  let jsonData := decode responseData in
  let responses := toArray (prop_opt (prop_opt jsonData "multistatus") "response") in
  parseCalendars_loop resolve baseUrl responses [].


(** ** JavaScript dates and the date helpers (utils/encode.js)

    A [Date] is its time value, the milliseconds since the epoch, for a
    valid date (an invalid date has no ISO text: [toISOString] throws). *)

Module JsDate.

Local Open Scope Z_scope.

Definition msPerDay : Z := 86400000.

(** The civil date (year, month 1..12, day 1..31) of a day number, days
    being counted from the epoch, in the proleptic Gregorian calendar. *)
Definition civil_from_days (z : Z) : Z * Z * Z :=
  let z := z + 719468 in
  let era := z / 146097 in
  let doe := z - era * 146097 in
  let yoe := (doe - doe / 1460 + doe / 36524 - doe / 146096) / 365 in
  let y := yoe + era * 400 in
  let doy := doe - (365 * yoe + yoe / 4 - yoe / 100) in
  let mp := (5 * doy + 2) / 153 in
  let d := doy - (153 * mp + 2) / 5 + 1 in
  let m := if mp <? 10 then mp + 3 else mp - 9 in
  (if m <=? 2 then y + 1 else y, m, d).

(** The day number of a civil date. *)
Definition days_from_civil (y m d : Z) : Z :=
  let y := if m <=? 2 then y - 1 else y in
  let era := y / 400 in
  let yoe := y - era * 400 in
  let doy := (153 * (if m >? 2 then m - 3 else m + 9) + 2) / 5 + d - 1 in
  let doe := yoe * 365 + yoe / 4 - yoe / 100 + doy in
  era * 146097 + doe - 719468.

Definition getUTCFullYear (t : Z) : Z := (civil_from_days (t / msPerDay)).1.1.
Definition getUTCMonth (t : Z) : Z := (civil_from_days (t / msPerDay)).1.2 - 1.
Definition getUTCDate (t : Z) : Z := (civil_from_days (t / msPerDay)).2.
Definition getUTCHours (t : Z) : Z := (t mod msPerDay) / 3600000.
Definition getUTCMinutes (t : Z) : Z := ((t mod msPerDay) / 60000) mod 60.
Definition getUTCSeconds (t : Z) : Z := ((t mod msPerDay) / 1000) mod 60.
Definition getUTCMilliseconds (t : Z) : Z := t mod 1000.

(** [Date.UTC(year, month - 1, day, hour, minute, second)] *)
Definition UTC (y m d h mi s : Z) : Z :=
  days_from_civil y m d * msPerDay + h * 3600000 + mi * 60000 + s * 1000.

Definition digit (k : Z) : ascii := ascii_of_nat (48 + Z.to_nat k).

(** The last [width] decimal digits of [n]: [String(n).padStart(width, "0")]
    for [0 <= n < 10 ^ width]. *)
Fixpoint digits (width : nat) (n : Z) : string :=
  match width with
  | O => EmptyString
  | S w => digits w (n / 10) +:+ String (digit (n mod 10)) EmptyString
  end.

(** The year of an ISO text: four digits, or a sign and six digits. *)
Definition iso_year (y : Z) : string :=
  if (0 <=? y) && (y <=? 9999) then digits 4 y
  else (if y <? 0 then "-" else "+") +:+ digits 6 (Z.abs y).

Definition iso_date (t : Z) : string :=
  iso_year (getUTCFullYear t) +:+ "-" +:+ digits 2 (getUTCMonth t + 1)
    +:+ "-" +:+ digits 2 (getUTCDate t).

Definition iso_time (t : Z) : string :=
  digits 2 (getUTCHours t) +:+ ":" +:+ digits 2 (getUTCMinutes t)
    +:+ ":" +:+ digits 2 (getUTCSeconds t) +:+ "." +:+ digits 3 (getUTCMilliseconds t).

(** [date.toISOString()] *)
Definition toISOString (t : Z) : string :=
  iso_date t +:+ "T" +:+ iso_time t +:+ "Z".

End JsDate.

(** [formatDateOnly(date)]:
    [date.toISOString().split("T")[0].replace(/-/g, "")] *)
Definition formatDateOnly (date : Z) : string :=
  replaceAll "-" "" (split_head "T" (JsDate.toISOString date)).


(** ** The calendar-object codec (ical.js)

    Modelled from the spec: the calendar-grammar codec is an external
    collaborator (ical.js) that the client and the parser use through its
    component tree. Modelled here: the tree (components, properties with
    parameters and typed values), the accessors the sources call, date and
    time values with their conversions from and to JavaScript dates, and
    recurrence rules with their text form. The text grammar of calendar
    objects itself ([Component.toString], [ICAL.parse]) is a parameter. *)

Module ICAL.

Local Open Scope Z_scope.

(** A date or date-time value: civil fields, whether it is a date only, and
    whether it is in UTC (a value that is not is floating or zoned). *)
Record Time := mkTime {
  year : Z; month : Z; day : Z;
  hour : Z; minute : Z; second : Z;
  isDate : bool;
  isUTC : bool
}.

(** [ICAL.Time.fromJSDate(date, true)] *)
Definition Time_fromJSDate_utc (date : Z) : Time :=
  mkTime (JsDate.getUTCFullYear date) (JsDate.getUTCMonth date + 1)
         (JsDate.getUTCDate date) (JsDate.getUTCHours date)
         (JsDate.getUTCMinutes date) (JsDate.getUTCSeconds date) false true.

Definition is_digit (c : ascii) : bool :=
  (Nat.leb 48 (nat_of_ascii c) && Nat.leb (nat_of_ascii c) 57)%bool.

(** The value of the leading decimal digits of [s], after those read so
    far ([acc]), and whether a digit was read. *)
Fixpoint leading_digits (s : string) (acc : Z) (seen : bool) : Z * bool :=
  match s with
  | String c rest =>
      if is_digit c
      then leading_digits rest (10 * acc + (Z.of_nat (nat_of_ascii c) - 48)) true
      else (acc, seen)
  | EmptyString => (acc, seen)
  end.

(** [parseInt(s, 10)], [None] for NaN. *)
Definition parseInt (s : string) : option Z :=
  let s := trimStart s in
  let '(sign, rest) :=
    match s with
    | String "-" r => (-1, r)
    | String "+" r => (1, r)
    | _ => (1, s)
    end in
  let '(n, seen) := leading_digits rest 0 false in
  if seen then Some (sign * n) else None.

(** [ICAL.helpers.strictParseInt(s)] *)
Definition strictParseInt (s : string) : JsError + Z :=
  match parseInt s with
  | Some n => inr n
  | None => inl (Error ("Could not extract integer from " +:+ s))
  end.

(** [s.substr(from, len)] *)
Definition substr (s : string) (from len : nat) : string := String.substring from len s.

(** [ICAL.Time.fromDateString(aValue)]: a date-only value. *)
Definition Time_fromDateString (aValue : string) : JsError + Time :=
  match strictParseInt (substr aValue 0 4),
        strictParseInt (substr aValue 5 2),
        strictParseInt (substr aValue 8 2) with
  | inr y, inr m, inr d => inr (mkTime y m d 0 0 0 true false)
  | inl e, _, _ | _, inl e, _ | _, _, inl e => inl e
  end.

(** [time.toString()] *)
Definition Time_toString (t : Time) : string :=
  pretty (year t) +:+ "-" +:+ JsDate.digits 2 (month t) +:+ "-"
    +:+ JsDate.digits 2 (day t)
    +:+ (if isDate t then ""
         else "T" +:+ JsDate.digits 2 (hour t) +:+ ":" +:+ JsDate.digits 2 (minute t)
                +:+ ":" +:+ JsDate.digits 2 (second t)
                +:+ (if isUTC t then "Z" else "")).

(** The value of a property: text, a date or date-time, a number, the plain
    object given for a recurrence rule, or a recurrence rule read from text. *)
Inductive Value :=
| Text (s : string)
| DateTime (t : Time)
| Numeric (n : Z)
| RecurProps (props : list (string * JVal))
| RecurRule (rule : string).

Record Property := mkProperty {
  prop_name : string;
  prop_params : list (string * string);
  prop_value : Value
}.

Inductive Component :=
| mkComponent (name : string) (properties : list Property) (subcomponents : list Component).

Definition comp_name (c : Component) : string :=
  match c with mkComponent n _ _ => n end.
Definition properties (c : Component) : list Property :=
  match c with mkComponent _ ps _ => ps end.
Definition subcomponents (c : Component) : list Component :=
  match c with mkComponent _ _ cs => cs end.

(** The parts of the codec left as parameters: the text grammar of calendar
    objects and of time values, the instant of a time that is not in UTC (it
    depends on time zone data and on the zone of the machine), and the end
    the codec derives for an event that has no DTEND (from its duration or
    its start). *)
Record Codec := mkCodec {
  stringify : Component -> string;
  parse : string -> JsError + Component;
  parse_time : string -> JsError + Time;
  local_epoch : Time -> Z;
  derived_end : Component -> option Time
}.

(** [time.toJSDate()] *)
Definition Time_toJSDate (codec : Codec) (t : Time) : Z :=
  if isUTC t
  then JsDate.UTC (year t) (month t) (day t) (hour t) (minute t) (second t)
  else local_epoch codec t.

(** [new ICAL.Component(name)] *)
Definition Component_new (name : string) : Component := mkComponent name [] [].

(** [c.addPropertyWithValue(name, value)], and
    [c.addPropertyWithValue(name, value).setParameter(k, v)] *)
Definition addPropertyWithValue (c : Component) (name : string) (v : Value) : Component :=
  mkComponent (comp_name c) (properties c ++ [mkProperty name [] v]) (subcomponents c).

Definition addPropertyWithParameter (c : Component) (name : string) (v : Value)
    (k p : string) : Component :=
  mkComponent (comp_name c) (properties c ++ [mkProperty name [(k, p)] v]) (subcomponents c).

(** [c.addSubcomponent(sub)] *)
Definition addSubcomponent (c sub : Component) : Component :=
  mkComponent (comp_name c) (properties c) (subcomponents c ++ [sub]).

(** [c.getFirstProperty(name)] *)
Definition getFirstProperty (c : Component) (name : string) : option Property :=
  List.find (fun p => String.eqb (prop_name p) name) (properties c).

(** [c.getFirstPropertyValue(name)] *)
Definition getFirstPropertyValue (c : Component) (name : string) : option Value :=
  prop_value <$> getFirstProperty c name.

(** [c.getAllProperties(name)] *)
Definition getAllProperties (c : Component) (name : string) : list Property :=
  List.filter (fun p => String.eqb (prop_name p) name) (properties c).

(** [c.getAllSubcomponents(name)] *)
Definition getAllSubcomponents (c : Component) (name : string) : list Component :=
  List.filter (fun s => String.eqb (comp_name s) name) (subcomponents c).

(** [p.getParameter(name)] *)
Fixpoint getParameter (params : list (string * string)) (name : string) : option string :=
  match params with
  | [] => None
  | (k, v) :: rest => if String.eqb k name then Some v else getParameter rest name
  end.

Fixpoint update_first (name : string) (f : Property -> Property) (ps : list Property)
  : option (list Property) :=
  match ps with
  | [] => None
  | p :: rest =>
      if String.eqb (prop_name p) name then Some (f p :: rest)
      else cons p <$> update_first name f rest
  end.

(** [c.updatePropertyWithValue(name, value)]: the first property of that name
    takes the value, or a property is added. The setters of [ICAL.Event] for
    uid, summary, description and location are this. *)
Definition updatePropertyWithValue (c : Component) (name : string) (v : Value) : Component :=
  match update_first name (fun p => mkProperty (prop_name p) (prop_params p) v) (properties c) with
  | Some ps => mkComponent (comp_name c) ps (subcomponents c)
  | None => addPropertyWithValue c name v
  end.

Definition without_param (k : string) (params : list (string * string))
  : list (string * string) :=
  List.filter (fun kv => negb (String.eqb kv.1 k)) params.

(** The setters of [ICAL.Event] for [startDate] and [endDate], for a time in
    UTC or floating: the first property of that name takes the time and
    loses its [tzid] parameter, or a property is added. *)
Definition Event_setTime (c : Component) (name : string) (t : Time) : Component :=
  match update_first name
          (fun p => mkProperty (prop_name p) (without_param "tzid" (prop_params p)) (DateTime t))
          (properties c) with
  | Some ps => mkComponent (comp_name c) ps (subcomponents c)
  | None => addPropertyWithValue c name (DateTime t)
  end.

(** [String(v)] for the values a rule object holds. *)
Definition js_toString (v : JVal) : string :=
  match v with
  | JStr s => s
  | JNum n => pretty n
  | JBool true => "true"
  | JBool false => "false"
  | JUndef => "undefined"
  | JArr _ | JObj _ => "[object]"
  end.

(** [parts.join(sep)] *)
Fixpoint join (sep : string) (parts : list string) : string :=
  match parts with
  | [] => ""
  | [x] => x
  | x :: rest => x +:+ sep +:+ join sep rest
  end.

(** The text of a rule given as a plain object: [KEY=value] joined by [;]. *)
Definition props_toICAL (props : list (string * JVal)) : string :=
  join ";" (map (fun kv => toUpperCase kv.1 +:+ "=" +:+ js_toString kv.2) props).

(** [value.toString()] *)
Definition Value_toString (v : Value) : string :=
  match v with
  | Text s => s
  | DateTime t => Time_toString t
  | Numeric n => pretty n
  | RecurProps props => props_toICAL props
  | RecurRule rule => rule
  end.

(** [!!value] *)
Definition Value_truthy (v : Value) : bool :=
  match v with
  | Text s => negb (String.eqb s "")
  | Numeric n => negb (Z.eqb n 0)
  | _ => true
  end.

(** [s.split(sep)] for a one-character separator; [cur] is the part being
    read, reversed. *)
Fixpoint split_on (sep : ascii) (s : string) (cur : string) : list string :=
  match s with
  | EmptyString => [rev cur]
  | String c rest =>
      if Ascii.eqb c sep then rev cur :: split_on sep rest EmptyString
      else split_on sep rest (String c cur)
  end.

Definition split (sep : ascii) (s : string) : list string := split_on sep s EmptyString.

(** A recurrence rule: [freq], [interval], [count], [until] and [parts]. *)
Record Recur := mkRecur {
  r_freq : option string;
  r_interval : Z;
  r_count : option Z;
  r_until : option Time;
  r_parts : list (string * list JVal)
}.

Definition Recur_new : Recur := mkRecur None 1 None None [].

Definition by_parts : list string :=
  ["BYSECOND"; "BYMINUTE"; "BYHOUR"; "BYDAY"; "BYMONTHDAY"; "BYYEARDAY";
   "BYWEEKNO"; "BYMONTH"; "BYSETPOS"].

Fixpoint part_values (numeric : bool) (vs : list string) : JsError + list JVal :=
  match vs with
  | [] => inr []
  | v :: rest =>
      match (if numeric then map_ok JNum (strictParseInt v) else inr (JStr v)),
            part_values numeric rest with
      | inr x, inr xs => inr (x :: xs)
      | inl e, _ | _, inl e => inl e
      end
  end.

(** One [KEY=value] of a rule text, read into the rule. *)
Definition Recur_set (codec : Codec) (r : Recur) (kv : string) : JsError + Recur :=
  match split "=" kv with
  | k :: v :: _ =>
      let k := toUpperCase k in
      if String.eqb k "FREQ" then
        inr (mkRecur (Some v) (r_interval r) (r_count r) (r_until r) (r_parts r))
      else if String.eqb k "INTERVAL" then
        map_ok (fun n => mkRecur (r_freq r) (Z.max 1 n) (r_count r) (r_until r) (r_parts r))
          (strictParseInt v)
      else if String.eqb k "COUNT" then
        map_ok (fun n => mkRecur (r_freq r) (r_interval r) (Some n) (r_until r) (r_parts r))
          (strictParseInt v)
      else if String.eqb k "UNTIL" then
        map_ok (fun t => mkRecur (r_freq r) (r_interval r) (r_count r) (Some t) (r_parts r))
          (parse_time codec v)
      else if existsb (String.eqb k) by_parts then
        map_ok (fun vs => mkRecur (r_freq r) (r_interval r) (r_count r) (r_until r)
                            (r_parts r ++ [(k, vs)]))
          (part_values (negb (String.eqb k "BYDAY")) (split "," v))
      else inr r
  | _ => inr r
  end.

Fixpoint Recur_fold (codec : Codec) (r : Recur) (kvs : list string) : JsError + Recur :=
  match kvs with
  | [] => inr r
  | kv :: rest =>
      match Recur_set codec r kv with
      | inl e => inl e
      | inr r' => Recur_fold codec r' rest
      end
  end.

(** What the codec reads back from the text of a tree built through its
    accessors: the same tree, with names in lower case, a rule given as a
    plain object read as the rule of its text, and a number given for a
    property with an X- name (a name the codec has no type for) read as its
    text. *)
Definition reread_property (p : Property) : Property :=
  mkProperty (toLowerCase (prop_name p)) (prop_params p)
    match prop_value p with
    | RecurProps props => RecurRule (props_toICAL props)
    | Numeric n =>
        if startsWith (toLowerCase (prop_name p)) "x-" then Text (pretty n) else Numeric n
    | v => v
    end.

Fixpoint reread (c : Component) : Component :=
  match c with
  | mkComponent name props subs =>
      mkComponent (toLowerCase name) (map reread_property props) (map reread subs)
  end.

(** [ICAL.Recur.fromString(text)] *)
Definition Recur_fromString (codec : Codec) (text : string) : JsError + Recur :=
  Recur_fold codec Recur_new (split ";" text).

(** [recur.parts.BYDAY] and the like. *)
Fixpoint Recur_part (parts : list (string * list JVal)) (k : string) : option (list JVal) :=
  match parts with
  | [] => None
  | (k', vs) :: rest => if String.eqb k' k then Some vs else Recur_part rest k
  end.

End ICAL.


(** ** Events, todos and alarms *)

Inductive Alarm :=
| DisplayAlarm (trigger : string) (description : option string)
| EmailAlarm (trigger : string) (description summary : option string)
             (attendees : list string)
| AudioAlarm (trigger : string).

Definition alarm_trigger (a : Alarm) : string :=
  match a with
  | DisplayAlarm t _ | EmailAlarm t _ _ _ | AudioAlarm t => t
  end.

Definition alarm_action (a : Alarm) : string :=
  match a with
  | DisplayAlarm _ _ => "DISPLAY"
  | EmailAlarm _ _ _ _ => "EMAIL"
  | AudioAlarm _ => "AUDIO"
  end.

Record RecurrenceRule := mkRule {
  freq : option string;
  interval : option Z;
  count : option Z;
  until : option Z;
  byday : option (list JVal);
  bymonthday : option (list JVal);
  bymonth : option (list JVal)
}.

Record Event := mkEvent {
  ev_uid : option string;
  ev_summary : string;
  ev_start : Z;
  ev_end : Z;
  ev_description : option string;
  ev_location : option string;
  ev_etag : JVal;
  ev_href : JVal;
  ev_wholeDay : bool;
  ev_recurrenceRule : option RecurrenceRule;
  ev_startTzid : option string;
  ev_endTzid : option string;
  ev_alarms : list Alarm
}.

Record Todo := mkTodo {
  td_uid : option ICAL.Value;
  td_summary : ICAL.Value;
  td_start : option Z;
  td_due : option Z;
  td_completed : option Z;
  td_status : option ICAL.Value;
  td_description : option ICAL.Value;
  td_location : option ICAL.Value;
  td_etag : JVal;
  td_href : JVal;
  td_alarms : list Alarm;
  td_sortOrder : option ICAL.Value
}.
(* [td_sortOrder] holds the value [Number(...)] is applied to. *)

(** *** Encoding an event (client.js, [buildICSData]) *)

Section Encode.

Import ICAL.

(** The alarm sub-component of one alarm. *)
Definition valarm_of (alarm : Alarm) : Component :=
  let valarm := Component_new "valarm" in
  let valarm := addPropertyWithValue valarm "trigger" (Text (alarm_trigger alarm)) in
  let valarm := addPropertyWithValue valarm "action" (Text (alarm_action alarm)) in
  match alarm with
  | DisplayAlarm _ description =>
      if negb (falsy description)
      then addPropertyWithValue valarm "description" (Text (default "" description))
      else valarm
  | EmailAlarm _ description summary attendees =>
      let valarm :=
        if negb (falsy summary)
        then addPropertyWithValue valarm "summary" (Text (default "" summary))
        else valarm in
      let valarm :=
        if negb (falsy description)
        then addPropertyWithValue valarm "description" (Text (default "" description))
        else valarm in
      fold_left (fun valarm attendee => addPropertyWithValue valarm "attendee" (Text attendee))
                attendees valarm
  | AudioAlarm _ => valarm
  end.

(** [arr.join(",")] *)
Definition join_values (vs : list JVal) : string := join "," (map js_toString vs).

(** The plain object [rruleProps] of a recurrence rule, as its entries in the
    order they are set. *)
Definition rruleProps (r : RecurrenceRule) : list (string * JVal) :=
  (if negb (falsy (freq r)) then [("FREQ", JStr (default "" (freq r)))] else [])
  ++ match interval r with
     | Some n => if Z.eqb n 0 then [] else [("INTERVAL", JNum n)]
     | None => []
     end
  ++ match count r with
     | Some n => if Z.eqb n 0 then [] else [("COUNT", JNum n)]
     | None => []
     end
  ++ match until r with
     | Some d => [("UNTIL", JStr (Time_toString (Time_fromJSDate_utc d)))]
     | None => []
     end
  ++ match byday r with Some l => [("BYDAY", JStr (join_values l))] | None => [] end
  ++ match bymonthday r with Some l => [("BYMONTHDAY", JStr (join_values l))] | None => [] end
  ++ match bymonth r with Some l => [("BYMONTH", JStr (join_values l))] | None => [] end.

(** [date.toISOString().split("T")[0]] *)
Definition iso_date_part (date : Z) : string := split_head "T" (JsDate.toISOString date).

(** The start and the end of the event set on the [vevent]. *)
Definition set_times (event : Event) (vevent : Component) : JsError + Component :=
  if ev_wholeDay event then
    and_then (Time_fromDateString (iso_date_part (ev_start event))) (fun startDate =>
    let vevent := Event_setTime vevent "dtstart" startDate in
    and_then (Time_fromDateString (iso_date_part (ev_end event))) (fun endDate =>
    inr (Event_setTime vevent "dtend" endDate)))
  else
    let start := Time_fromJSDate_utc (ev_start event) in
    let end_ := Time_fromJSDate_utc (ev_end event) in
    let vevent :=
      if negb (falsy (ev_startTzid event))
      then addPropertyWithParameter vevent "dtstart" (DateTime start)
             "tzid" (default "" (ev_startTzid event))
      else Event_setTime vevent "dtstart" start in
    inr (if negb (falsy (ev_endTzid event))
         then addPropertyWithParameter vevent "dtend" (DateTime end_)
                "tzid" (default "" (ev_endTzid event))
         else Event_setTime vevent "dtend" end_).

(** The [vevent] that [buildICSData] builds; [now] is [new Date()]. *)
Definition build_vevent (now : Z) (event : Event) (uid : string) : JsError + Component :=
  let vevent := Component_new "vevent" in
  let vevent := updatePropertyWithValue vevent "uid" (Text uid) in
  let vevent := addPropertyWithValue vevent "dtstamp" (DateTime (Time_fromJSDate_utc now)) in
  and_then (set_times event vevent) (fun vevent =>
  let vevent := updatePropertyWithValue vevent "summary" (Text (ev_summary event)) in
  let vevent :=
    updatePropertyWithValue vevent "description"
      (Text (if falsy (ev_description event) then "" else default "" (ev_description event))) in
  let vevent :=
    updatePropertyWithValue vevent "location"
      (Text (if falsy (ev_location event) then "" else default "" (ev_location event))) in
  let vevent :=
    match ev_recurrenceRule event with
    | Some r => addPropertyWithValue vevent "rrule" (RecurProps (rruleProps r))
    | None => vevent
    end in
  inr (fold_left (fun vevent alarm => addSubcomponent vevent (valarm_of alarm))
                 (ev_alarms event) vevent)).

(** The calendar object that [buildICSData] builds. *)
Definition build_vcalendar (prodId : string) (now : Z) (event : Event) (uid : string)
  : JsError + Component :=
  let vcalendar := Component_new "vcalendar" in
  let vcalendar := addPropertyWithValue vcalendar "version" (Text "2.0") in
  let vcalendar := addPropertyWithValue vcalendar "method" (Text "REQUEST") in
  let vcalendar := addPropertyWithValue vcalendar "prodid" (Text prodId) in
  map_ok (addSubcomponent vcalendar) (build_vevent now event uid).

(** [buildICSData(event, uid)] *)
Definition buildICSData (codec : Codec) (prodId : string) (now : Z)
    (event : Event) (uid : string) : JsError + string :=
  map_ok (stringify codec) (build_vcalendar prodId now event uid).

End Encode.


(** *** Decoding events and todos (utils/parser.js) *)

Section Decode.

Import ICAL.

Context (codec : Codec) (resolve : JVal -> string -> JsError + string).

(** [parseRecurrence(recur)] *)
Definition parseRecurrence (recur : Recur) : RecurrenceRule :=
  let freq :=
    match r_freq recur with
    | Some f =>
        if existsb (String.eqb f) ["DAILY"; "WEEKLY"; "MONTHLY"; "YEARLY"]
        then Some f else None
    | None => None
    end in
  mkRule freq
         (Some (r_interval recur))
         (match r_count recur with
          | Some n => if Z.eqb n 0 then None else Some n
          | None => None
          end)
         (Time_toJSDate codec <$> r_until recur)
         (Recur_part (r_parts recur) "BYDAY")
         (Recur_part (r_parts recur) "BYMONTHDAY")
         (Recur_part (r_parts recur) "BYMONTH").

(** [value?.toString()] of a first property value. *)
Definition value_text (v : option Value) : option string := Value_toString <$> v.

(** [x || undefined] for a text that may be absent. *)
Definition truthy_text (s : option string) : option string :=
  if falsy s then None else s.

(** The alarm of one [valarm], if it has an action and a trigger and its
    action is one of the three known. *)
Definition alarm_of (valarm : Component) : list Alarm :=
  let action := getFirstPropertyValue valarm "action" in
  let trigger := value_text (getFirstPropertyValue valarm "trigger") in
  match action, trigger with
  | Some action, Some trigger =>
      if negb (Value_truthy action) || String.eqb trigger "" then []
      else
        match action with
        | Text "DISPLAY" =>
            [DisplayAlarm trigger
               (value_text (getFirstPropertyValue valarm "description"))]
        | Text "EMAIL" =>
            [EmailAlarm trigger
               (value_text (getFirstPropertyValue valarm "description"))
               (value_text (getFirstPropertyValue valarm "summary"))
               (flat_map (fun p => match prop_value p with Text s => [s] | _ => [] end)
                         (getAllProperties valarm "attendee"))]
        | Text "AUDIO" => [AudioAlarm trigger]
        | _ => []
        end
  | _, _ => []
  end.

Definition alarms_of (c : Component) : list Alarm :=
  flat_map alarm_of (getAllSubcomponents c "valarm").

(** [prop.getFirstValue().toJSDate()]: only a time has [toJSDate]. *)
Definition value_toJSDate (v : Value) : JsError + Z :=
  match v with
  | DateTime t => inr (Time_toJSDate codec t)
  | _ => inl (TypeError "toJSDate is not a function")
  end.

(** The event of one [vevent], for the entry it came in (the body of the
    inner loop of [parseEvents]). *)
Definition event_of (eventData obj : JVal) (baseUrl : option string) (vevent : Component)
  : JsError + Event :=
  let dtStartProp := getFirstProperty vevent "dtstart" in
  let dtEndProp := getFirstProperty vevent "dtend" in
  match prop_value <$> dtStartProp with
  | None => inl (TypeError "Cannot read properties of null (reading 'isDate')")
  | Some (DateTime startTime) =>
      let isWholeDay := isDate startTime in
      let startDate := Time_toJSDate codec startTime in
      and_then
        (match prop_value <$> dtEndProp with
         | Some v => value_toJSDate v
         | None =>
             match derived_end codec vevent with
             | Some t => inr (Time_toJSDate codec t)
             | None => inr startDate
             end
         end) (fun endDate =>
      let tzid_of (p : option Property) : option string :=
        match p with
        | Some p => getParameter (prop_params p) "tzid"
        | None => None
        end in
      let startTzid := tzid_of dtStartProp in
      let endTzid := tzid_of dtEndProp in
      and_then
        (match prop_value <$> getFirstProperty vevent "rrule" with
         | Some rruleValue =>
             if Value_truthy rruleValue
             then map_ok (fun recur => Some (parseRecurrence recur))
                         (Recur_fromString codec (Value_toString rruleValue))
             else inr None
         | None => inr None
         end) (fun recurrenceRule =>
      let alarms := alarms_of vevent in
      and_then (resolve_href resolve baseUrl (prop_opt obj "href")) (fun href =>
      inr (mkEvent
             (value_text (getFirstPropertyValue vevent "uid"))
             (default "Untitled Event"
                (truthy_text (value_text (getFirstPropertyValue vevent "summary"))))
             startDate endDate
             (truthy_text (value_text (getFirstPropertyValue vevent "description")))
             (truthy_text (value_text (getFirstPropertyValue vevent "location")))
             (if truthy (prop_opt eventData "getetag")
              then prop_opt eventData "getetag" else JStr "")
             href isWholeDay recurrenceRule startTzid endTzid alarms))))
  | Some _ => inl (TypeError "startDate.toJSDate is not a function")
  end.

(** A loop that pushes the decoded items one by one, until one throws: the
    items pushed, and what was thrown if anything was. *)
Fixpoint push_each {A B} (f : A -> JsError + B) (items : list A) (pushed : list B)
  : list B * option JsError :=
  match items with
  | [] => (pushed, None)
  | x :: rest =>
      match f x with
      | inl e => (pushed, Some e)
      | inr b => push_each f rest (pushed ++ [b])
      end
  end.

(** The [try] block of [parseEvents] for one entry, with its [catch]: the
    events pushed, and the error logged if one was caught. *)
Definition try_events (eventData obj : JVal) (baseUrl : option string)
    (cleanedCalendarData : string) : list Event * option JsError :=
  match parse codec cleanedCalendarData with
  | inl e => ([], Some e)
  | inr vcalendar =>
      push_each (event_of eventData obj baseUrl)
                (getAllSubcomponents vcalendar "vevent") []
  end.

(** [rawCalendarData.replace(/&#13;/g, by)]: only a string has [replace]. *)
Definition clean_calendar_data (by_ : string) (rawCalendarData : JVal) : JsError + string :=
  match rawCalendarData with
  | JStr s => inr (replaceAll "&#13;" by_ s)
  | _ => inl (TypeError "rawCalendarData.replace is not a function")
  end.

(** The calendar data of a response entry: nothing when the entry is passed
    over, the cleaned text otherwise. *)
Definition entry_calendar_data (by_ : string) (obj : JVal)
  : JsError + option (JVal * string) :=
  and_then (prop obj "propstat") (fun propstat =>
  let itemData := prop_opt propstat "prop" in
  if negb (truthy itemData) then inr None
  else
    let rawCalendarData := prop_opt itemData "calendar-data" in
    if negb (truthy rawCalendarData) then inr None
    else map_ok (fun cleaned => Some (itemData, cleaned))
                (clean_calendar_data by_ rawCalendarData)).

(** The loop of [parseEvents] and of [parseTodos] over the response entries:
    the items and the errors logged so far are carried along. [by_] is what
    the entity of a carriage return is replaced by, [try_block] the [try]
    block of the parser with its [catch]. *)
Fixpoint parse_loop {A} (by_ : string)
    (try_block : JVal -> JVal -> string -> list A * option JsError)
    (response : list JVal) (items : list A) (logged : list JsError)
  : JsError + (list A * list JsError) :=
  match response with
  | [] => inr (items, logged)
  | obj :: rest =>
      match entry_calendar_data by_ obj with
      | inl e => inl e
      | inr None => parse_loop by_ try_block rest items logged
      | inr (Some (itemData, cleaned)) =>
          let '(pushed, caught) := try_block itemData obj cleaned in
          parse_loop by_ try_block rest (items ++ pushed)
            (logged ++ match caught with Some e => [e] | None => [] end)
      end
  end.

(** A carriage return, and a carriage return with a line feed. *)
Definition CR : string := String (ascii_of_nat 13) EmptyString.
Definition CRLF : string := String (ascii_of_nat 13) (String (ascii_of_nat 10) EmptyString).

Definition parseEvents_loop (baseUrl : option string) (response : list JVal)
  : JsError + (list Event * list JsError) :=
  parse_loop CR (fun eventData obj cleaned => try_events eventData obj baseUrl cleaned)
             response [] [].

(** [parseEvents(responseData, baseUrl)]: the events, and what was logged;
    [decode] stands for the XML decoder. *)
Definition parseEvents (decode : string -> JVal) (responseData : string)
    (baseUrl : option string) : JsError + (list Event * list JsError) :=
  let jsonData := decode responseData in
  and_then (prop jsonData "multistatus") (fun multistatus =>
  let response := prop_opt multistatus "response" in
  if negb (truthy response) then inr ([], [])
  else
    let response := match response with JArr items => items | _ => [response] end in
    parseEvents_loop baseUrl response).

(** The todo of one [vtodo] (the body of the inner loop of [parseTodos]). *)
Definition todo_of (todoData obj : JVal) (baseUrl : option string) (vtodo : Component)
  : JsError + Todo :=
  let uid := getFirstPropertyValue vtodo "uid" in
  let summary :=
    match getFirstPropertyValue vtodo "summary" with
    | Some v => if Value_truthy v then v else Text "Untitled Todo"
    | None => Text "Untitled Todo"
    end in
  let description := getFirstPropertyValue vtodo "description" in
  let location := getFirstPropertyValue vtodo "location" in
  let status_ := getFirstPropertyValue vtodo "status" in
  let sortOrder := getFirstPropertyValue vtodo "x-apple-sort-order" in
  let date_of (name : string) : JsError + option Z :=
    match getFirstProperty vtodo name with
    | Some p => map_ok Some (value_toJSDate (prop_value p))
    | None => inr None
    end in
  and_then (date_of "dtstart") (fun start =>
  and_then (date_of "due") (fun due =>
  and_then (date_of "completed") (fun completed =>
  let alarms := alarms_of vtodo in
  and_then (resolve_href resolve baseUrl (prop_opt obj "href")) (fun href =>
  inr (mkTodo uid summary start due completed status_ description location
         (if truthy (prop_opt todoData "getetag")
          then prop_opt todoData "getetag" else JStr "")
         href alarms sortOrder))))).

Definition try_todos (todoData obj : JVal) (baseUrl : option string)
    (cleanedCalendarData : string) : list Todo * option JsError :=
  match parse codec cleanedCalendarData with
  | inl e => ([], Some e)
  | inr vcalendar =>
      push_each (todo_of todoData obj baseUrl)
                (getAllSubcomponents vcalendar "vtodo") []
  end.

Definition parseTodos_loop (baseUrl : option string) (response : list JVal)
  : JsError + (list Todo * list JsError) :=
  parse_loop CRLF (fun todoData obj cleaned => try_todos todoData obj baseUrl cleaned)
             response [] [].

(** [parseTodos(responseData, baseUrl)] *)
Definition parseTodos (decode : string -> JVal) (responseData : string)
    (baseUrl : option string) : JsError + (list Todo * list JsError) :=
  let jsonData := decode responseData in
  and_then (prop jsonData "multistatus") (fun multistatus =>
  let response := prop_opt multistatus "response" in
  if negb (truthy response) then inr ([], [])
  else
    let response := match response with JArr items => items | _ => [response] end in
    parseTodos_loop baseUrl response).

End Decode.

(** ** What the properties are stated with, and sample data *)

Section Statements.

Import ICAL.

Definition entries (refs : list ItemRef) : list (string * string) :=
  map (fun i => (href i, etag i)) refs.

Definition hrefs (refs : list ItemRef) : list string := map href refs.

(** No href is listed with two different etags. *)
Definition single_valued (refs : list ItemRef) : Prop :=
  forall r1 r2, r1 ∈ refs -> r2 ∈ refs -> href r1 = href r2 -> etag r1 = etag r2.

(** The two loops of [diffRefs] as filters over the lists they walk. *)
Definition is_new (localMap : gmap string string) (r : ItemRef) : bool :=
  negb (Map_has localMap (href r)).

Definition is_updated (localMap : gmap string string) (r : ItemRef) : bool :=
  Map_has localMap (href r) && Map_get_differs localMap (href r) (etag r).

(** The write a delete issues. *)
Definition delete_write (calendarUrl uid : string) (etag : option string) : Request :=
  deleteItem_request
    ((if endsWith calendarUrl "/" then slice_0_m1 calendarUrl else calendarUrl)
       +:+ "/" +:+ uid +:+ ".ics") etag.

(** A remote list and a local list to run [diffRefs] on: one reference
    unchanged, one changed, one new and one deleted. *)
Definition sample_remote : list ItemRef :=
  [mkRef "/cal/a.ics" "1"; mkRef "/cal/b.ics" "2"; mkRef "/cal/c.ics" "3"].

Definition sample_local : list ItemRef :=
  [mkRef "/cal/a.ics" "1"; mkRef "/cal/b.ics" "9"; mkRef "/cal/d.ics" "4"].

(** A reference that is text, as [getItemRefs] pushes it. *)
Definition received (r : ItemRef) : RemoteRef :=
  mkRemoteRef (JStr (href r)) (JStr (etag r)).

(** The caller's previous token is absent, empty, or the fetched token. *)
Definition token_absent_or_equal (ctag : option string) (remoteCtag : JVal) : Prop :=
  ctag = None \/ ctag = Some "" \/ exists c, ctag = Some c /\ remoteCtag = JStr c.

(** The etag is absent, or empty once a leading weak marker is stripped and
    the rest trimmed. *)
Definition no_validator (etag : option string) : Prop :=
  etag = None \/ exists s, etag = Some s /\ trim (strip_weak_prefix s) = "".

(** The message of the collision error, by item kind. *)
Definition collision_message (kind : ItemType) : string :=
  match kind with
  | event => "Event with the specified uid already exists."
  | todo => "Todo with the specified uid already exists."
  end.

(** The uid a create uses: the item's own, or a generated one. *)
Definition effective_uid {T} (env : Env) (data : Item T) : string :=
  if falsy (item_uid data) then uuid_v4 env else default "" (item_uid data).

(** The calendar URL without its trailing slash, if it has one. *)
Definition without_trailing_slash (calendarUrl : string) : string :=
  if endsWith calendarUrl "/" then slice_0_m1 calendarUrl else calendarUrl.

(** The write a create issues. *)
Definition create_write {T} (env : Env) (calendarUrl : string) (data : Item T)
    (ics : string) : Request :=
  createItem_request
    (without_trailing_slash calendarUrl +:+ "/" +:+ effective_uid env data +:+ ".ics") ics.

Definition sample_ctag_reply : JVal :=
  JObj [("multistatus",
     JObj [("response",
        JObj [("href", JStr "/cal/");
              ("propstat",
                 JObj [("prop", JObj [("getctag", JStr "abc")]);
                       ("status", JStr "HTTP/1.1 200 OK")])])])].

Definition sample_ref_entry (h e : string) : JVal :=
  JObj [("href", JStr h);
        ("propstat", JObj [("prop", JObj [("getetag", JStr e)]);
                           ("status", JStr "HTTP/1.1 200 OK")])].

(** A reply to the reference query; its last entry has an etag written in
    digits, which the decoder gives as a number. *)
Definition sample_refs_reply : JVal :=
  JObj [("multistatus",
     JObj [("response",
        JArr [sample_ref_entry "/cal/a.ics" "1";
              sample_ref_entry "/cal/b.ics" "2";
              sample_ref_entry "/cal/c.ics" "3";
              JObj [("href", JStr "/cal/e.ics");
                    ("propstat", JObj [("prop", JObj [("getetag", JNum 5)]);
                                       ("status", JStr "HTTP/1.1 200 OK")])]])])].

Definition same_put (url : string) (req : Request) : bool :=
  match req_method req with
  | PUT => String.eqb (req_url req) url
  | _ => false
  end.

(** A server that answers the token query and the reference query with the
    replies above, and accepts a write to a URL once: a second write
    to the same URL, made on the condition that nothing is there, is refused. *)
Definition sample_server (history : list Request) (req : Request) : Outcome :=
  match req_method req with
  | PROPFIND => Replied (mkResponse 207 [] "ctag")
  | REPORT => Replied (mkResponse 207 [] "refs")
  | PUT =>
      if existsb (same_put (req_url req)) history
         && String.eqb (header "If-None-Match" (req_headers req)) "*"
      then Replied (mkResponse 412 [] "")
      else Replied (mkResponse 201 [("etag", "v1")] "")
  | DELETE => Replied (mkResponse 204 [] "")
  end.

Definition sample_xml_parse (text : string) : JVal :=
  if String.eqb text "ctag" then sample_ctag_reply
  else if String.eqb text "refs" then sample_refs_reply
  else JObj [].

Definition sample_env : Env :=
  mkEnv sample_server sample_xml_parse "7f3c1f0e-0000-4000-8000-000000000001".

Definition sample_build (item : Item string) (uid : string) : JsError + string :=
  inr ("BEGIN:VCALENDAR/" +:+ uid +:+ "/" +:+ item_content item).

Definition sample_item (etag : option string) : Item string :=
  mkItem (Some "u1") (Some "/cal/u1.ics") etag "SUMMARY:Standup".

(** The text contains "200 ok", letter case apart. *)
Definition contains_200_ok (st : string) : Prop :=
  exists pre mid post, st = pre +:+ mid +:+ post /\ toLowerCase mid = "200 ok".

(** The status of a property-status block is a text that contains "200 ok",
    letter case apart. *)
Definition status_succeeded (block : JVal) : Prop :=
  exists st, prop_opt block "status" = JStr st /\ contains_200_ok st.

(** [block] is the first block of the entry whose status succeeded. *)
Definition selected_block (res block : JVal) : Prop :=
  exists before after,
    toArray (prop_opt res "propstat") = before ++ block :: after /\
    status_succeeded block /\
    Forall (fun b => ~ status_succeeded b) before.

(** The components a block reports, and the kinds it reports by name. *)
Definition reported_components (block : JVal) : list JVal :=
  toArray (prop_opt (prop_opt (prop_opt block "prop")
                       "supported-calendar-component-set") "comp").

Definition reports (block : JVal) (kind : string) : Prop :=
  exists comp, comp ∈ reported_components block /\ prop_opt comp "name" = JStr kind.

(** The response entries of a decoded multistatus document. *)
Definition responses_of (jsonData : JVal) : list JVal :=
  toArray (prop_opt (prop_opt jsonData "multistatus") "response").

(** The entry is listed as the calendar [c]: read off its selected block,
    with the known kinds among the reported ones, VEVENT or VTODO among them. *)
Definition listed (resolve : JVal -> string -> JsError + string)
    (baseUrl : option string) (res : JVal) (c : Calendar) : Prop :=
  exists block,
    selected_block res block /\
    (forall k, k ∈ supportedComponents c <-> k ∈ known_components /\ reports block k) /\
    ("VEVENT" ∈ supportedComponents c \/ "VTODO" ∈ supportedComponents c) /\
    displayName c = match prop_opt (prop_opt block "prop") "displayname" with
                    | JUndef => JStr ""
                    | v => v
                    end /\
    ctag c = prop_opt (prop_opt block "prop") "getctag" /\
    resolve_href resolve baseUrl (prop_opt res "href") = inr (url c).

(** The entry is passed over: it has no block with a succeeded status, or its
    selected block reports neither VEVENT nor VTODO. *)
Definition skipped (res : JVal) : Prop :=
  (~ exists block, selected_block res block) \/
  (exists block, selected_block res block /\
                 ~ reports block "VEVENT" /\ ~ reports block "VTODO").

(** The result of a loop started with items and log entries in hand. *)
Definition prepend {A} (items : list A) (logged : list JsError)
    (r : JsError + (list A * list JsError)) : JsError + (list A * list JsError) :=
  map_ok (fun '(i, g) => (items ++ i, logged ++ g)) r.

(** The decoded multistatus document with the given response entries. *)
Definition multistatus_of (entries : list JVal) : JVal :=
  JObj [("multistatus", JObj [("response", JArr entries)])].

(** The decoded document lists these response entries under
    [multistatus.response], as an array or, for one entry, as that entry
    alone; whatever else the document holds (the field of an XML
    declaration, other fields beside the responses) plays no part. *)
Definition lists_entries (jsonData : JVal) (entries : list JVal) : Prop :=
  jsonData <> JUndef /\ responses_of jsonData = entries.

(** What one response entry adds to the result of a batch parser: nothing
    when it is passed over, else the items its [try] block pushed and the
    error its [catch] logged, if any. *)
Definition entry_items {A} (by_ : string)
    (try_block : JVal -> JVal -> string -> list A * option JsError) (obj : JVal)
  : list A * list JsError :=
  match entry_calendar_data by_ obj with
  | inr (Some (itemData, cleaned)) =>
      let '(pushed, caught) := try_block itemData obj cleaned in
      (pushed, match caught with Some e => [e] | None => [] end)
  | _ => ([], [])
  end.

Definition entry_events (codec : Codec) (resolve : JVal -> string -> JsError + string)
    (baseUrl : option string) (obj : JVal) : list Event * list JsError :=
  entry_items CR (fun eventData obj cleaned =>
                    try_events codec resolve eventData obj baseUrl cleaned) obj.

Definition entry_todos (codec : Codec) (resolve : JVal -> string -> JsError + string)
    (baseUrl : option string) (obj : JVal) : list Todo * list JsError :=
  entry_items CRLF (fun todoData obj cleaned =>
                      try_todos codec resolve todoData obj baseUrl cleaned) obj.

(** Every character of the string satisfies [p]. *)
Fixpoint all_chars (p : ascii -> bool) (s : string) : bool :=
  match s with
  | EmptyString => true
  | String c rest => p c && all_chars p rest
  end.

(** The characters of the date part of an ISO text: digits, dashes and the
    sign of a year beyond four digits. *)
Definition date_char (c : ascii) : bool :=
  is_digit c || Ascii.eqb c "-" || Ascii.eqb c "+".

(** A date-only value: no time of day, and not in UTC. *)
Definition date_only (t : Time) : Prop :=
  isDate t = true /\ isUTC t = false /\
  hour t = 0%Z /\ minute t = 0%Z /\ second t = 0%Z.

(** The weekly stand-up: 2024-01-01, 09:00 to 09:30 UTC, every Monday. *)
Definition standup : Event :=
  mkEvent (Some "e1") "Standup" 1704099600000 1704101400000 None None
          JUndef JUndef false
          (Some (mkRule (Some "WEEKLY") None None None (Some [JStr "MO"]) None None))
          None None [].

(** The calendar object [buildICSData] builds for the stand-up event. *)
Definition standup_vcalendar (prodId : string) (now : Z) : Component :=
  mkComponent "vcalendar"
    [mkProperty "version" [] (Text "2.0");
     mkProperty "method" [] (Text "REQUEST");
     mkProperty "prodid" [] (Text prodId)]
    [mkComponent "vevent"
       [mkProperty "uid" [] (Text "e1");
        mkProperty "dtstamp" [] (DateTime (Time_fromJSDate_utc now));
        mkProperty "dtstart" [] (DateTime (mkTime 2024 1 1 9 0 0 false true));
        mkProperty "dtend" [] (DateTime (mkTime 2024 1 1 9 30 0 false true));
        mkProperty "summary" [] (Text "Standup");
        mkProperty "description" [] (Text "");
        mkProperty "location" [] (Text "");
        mkProperty "rrule" [] (RecurProps [("FREQ", JStr "WEEKLY"); ("BYDAY", JStr "MO")])]
       []].

(** A stand-in for the text grammar: one line per property, between the
    lines that open and close its component. *)
Fixpoint sample_stringify (c : Component) : string :=
  match c with
  | mkComponent name props subs =>
      join ";"
        (["BEGIN:" +:+ toUpperCase name]
           ++ map (fun p => toUpperCase (prop_name p) +:+ ":"
                              +:+ Value_toString (prop_value p)) props
           ++ map sample_stringify subs
           ++ ["END:" +:+ toUpperCase name])
  end.

Definition sample_prodId : string := "-//ts-caldav.//CalDAV Client//EN".

(** The text of the stand-up event, stamped at the epoch. *)
Definition standup_ics : string := sample_stringify (standup_vcalendar sample_prodId 0).

(** A codec that reads the text of the stand-up event back, and no other. *)
Definition sample_codec : Codec :=
  mkCodec sample_stringify
    (fun text => if String.eqb text standup_ics
                 then inr (reread (standup_vcalendar sample_prodId 0))
                 else inl (Error "invalid ical body"))
    (fun text => inl (Error "invalid date-time value"))
    (fun t => JsDate.UTC (year t) (month t) (day t) (hour t) (minute t) (second t))
    (fun _ => None).

Definition sample_resolve (h : JVal) (base : string) : JsError + string :=
  inr (base +:+ js_toString h).

Definition calendar_entry (h data : string) : JVal :=
  JObj [("href", JStr h);
        ("propstat",
           JObj [("prop", JObj [("getetag", JStr "v1"); ("calendar-data", JStr data)]);
                 ("status", JStr "HTTP/1.1 200 OK")])].

Definition good_entry : JVal := calendar_entry "/cal/e1.ics" standup_ics.
Definition bad_entry : JVal := calendar_entry "/cal/e2.ics" "BEGIN:VCALENDAR&#13;garbage".

Definition sample_decode (text : string) : JVal :=
  if String.eqb text "all" then multistatus_of ([good_entry] ++ bad_entry :: [good_entry])
  else if String.eqb text "one" then multistatus_of [good_entry]
  else JObj [].

(** The stand-up event as decoded from the entry it came in. *)
Definition standup_decoded : Event :=
  mkEvent (Some "e1") "Standup" 1704099600000 1704101400000 None None
          (JStr "v1") (JStr "/cal/e1.ics") false
          (Some (mkRule (Some "WEEKLY") (Some 1%Z) None None (Some [JStr "MO"]) None None))
          None None [].

(** A whole-day event: 2024-03-01 to 2024-03-02, with time zone identifiers
    that the encoder leaves aside. *)
Definition conference_day : Event :=
  mkEvent None "Conference" 1709251200000 1709337600000 None None JUndef JUndef true
          None (Some "Europe/Berlin") (Some "Europe/Berlin") [].

Definition comp_named (name : string) : JVal := JObj [("name", JStr name)].

Definition calendar_response (h name st : string) (comps : JVal) : JVal :=
  JObj [("href", JStr h);
        ("propstat",
           JArr [JObj [("prop", JObj [("calendar-color", JStr "")]);
                       ("status", JStr "HTTP/1.1 404 Not Found")];
                 JObj [("prop",
                          JObj [("displayname", JStr name);
                                ("getctag", JStr "ctag-1");
                                ("supported-calendar-component-set",
                                   JObj [("comp", comps)])]);
                       ("status", JStr st)]])].

(** Three collections: one for events and journals, one for journals only,
    one whose properties were all refused. *)
Definition sample_listing : JVal :=
  multistatus_of
    [calendar_response "/cal/work/" "Work" "HTTP/1.1 200 OK"
       (JArr [comp_named "VEVENT"; comp_named "VJOURNAL"; comp_named "VPOLL"]);
     calendar_response "/cal/notes/" "Notes" "HTTP/1.1 200 Ok" (comp_named "VJOURNAL");
     calendar_response "/cal/inbox/" "Inbox" "HTTP/1.1 403 Forbidden"
       (comp_named "VEVENT")].

End Statements.

(** ** The date helper [formatDate] (utils/encode.js) *)

(** [s.replace(/[-:]/g, "")] and the like: the code units outside a class. *)
Fixpoint remove_chars (class : ascii -> bool) (s : string) : string :=
  match s with
  | EmptyString => EmptyString
  | String c s' =>
      if class c then remove_chars class s' else String c (remove_chars class s')
  end.

Definition dash_or_colon (c : ascii) : bool := Ascii.eqb c "-" || Ascii.eqb c ":".

(** [n.toString().padStart(2, "0")] *)
Definition pad (n : Z) : string :=
  match pretty n with
  | EmptyString => "00"
  | String c EmptyString => String "0" (String c EmptyString)
  | s => s
  end.

(** [formatDate(date, utc)]. The getters of local time read the fields of the
    instant moved by the offset of local time from UTC at that instant
    ([localTZA], in milliseconds), which the machine's time zone decides. *)
Definition formatDate (localTZA : Z -> Z) (date : Z) (utc : bool) : string :=
  if utc then
    split_head "." (remove_chars dash_or_colon (JsDate.toISOString date)) +:+ "Z"
  else
    let local := (date + localTZA date)%Z in
    pretty (JsDate.getUTCFullYear local)
      +:+ pad (JsDate.getUTCMonth local + 1)
      +:+ pad (JsDate.getUTCDate local)
      +:+ "T"
      +:+ pad (JsDate.getUTCHours local)
      +:+ pad (JsDate.getUTCMinutes local)
      +:+ pad (JsDate.getUTCSeconds local).


(** ** Encoding a todo (client.js, [buildTodoICSData]) *)

(** A todo as the encoder reads it. A todo without alarms has the empty
    list (the loop over no alarms and the skipped loop build the same). *)
Record TodoData := mkTodoData {
  tdd_summary : string;
  tdd_start : option Z;
  tdd_due : option Z;
  tdd_completed : option Z;
  tdd_description : option string;
  tdd_location : option string;
  tdd_status : option string;
  tdd_sortOrder : option Z;
  tdd_alarms : list Alarm
}.

Section EncodeTodo.

Import ICAL.

(** [if (date) c.addPropertyWithValue(name, ICAL.Time.fromJSDate(date, true))] *)
Definition add_date (c : Component) (name : string) (date : option Z) : Component :=
  match date with
  | Some d => addPropertyWithValue c name (DateTime (Time_fromJSDate_utc d))
  | None => c
  end.

(** [if (text) c.addPropertyWithValue(name, text)] *)
Definition add_text (c : Component) (name : string) (text : option string) : Component :=
  if falsy text then c else addPropertyWithValue c name (Text (default "" text)).

(** The [vtodo] that [buildTodoICSData] builds; [now] is [new Date()]. *)
Definition build_vtodo (now : Z) (todo : TodoData) (uid : string) : Component :=
  let vtodo := Component_new "vtodo" in
  let vtodo := addPropertyWithValue vtodo "uid" (Text uid) in
  let vtodo := addPropertyWithValue vtodo "dtstamp" (DateTime (Time_fromJSDate_utc now)) in
  let vtodo := add_date vtodo "dtstart" (tdd_start todo) in
  let vtodo := add_date vtodo "due" (tdd_due todo) in
  let vtodo := add_date vtodo "completed" (tdd_completed todo) in
  let vtodo := addPropertyWithValue vtodo "summary" (Text (tdd_summary todo)) in
  let vtodo := add_text vtodo "description" (tdd_description todo) in
  let vtodo := add_text vtodo "location" (tdd_location todo) in
  let vtodo := add_text vtodo "status" (tdd_status todo) in
  let vtodo :=
    match tdd_sortOrder todo with
    | Some n => addPropertyWithValue vtodo "X-APPLE-SORT-ORDER" (Numeric n)
    | None => vtodo
    end in
  fold_left (fun vtodo alarm => addSubcomponent vtodo (valarm_of alarm))
            (tdd_alarms todo) vtodo.

(** The calendar object that [buildTodoICSData] builds. *)
Definition build_todo_vcalendar (prodId : string) (now : Z) (todo : TodoData)
    (uid : string) : Component :=
  let vcalendar := Component_new "vcalendar" in
  let vcalendar := addPropertyWithValue vcalendar "version" (Text "2.0") in
  let vcalendar := addPropertyWithValue vcalendar "prodid" (Text prodId) in
  addSubcomponent vcalendar (build_vtodo now todo uid).

(** [buildTodoICSData(todo, uid)] *)
Definition buildTodoICSData (codec : Codec) (prodId : string) (now : Z)
    (todo : TodoData) (uid : string) : string :=
  stringify codec (build_todo_vcalendar prodId now todo uid).

End EncodeTodo.


(** ** The public mutations (client.js)

    Each binds the encoder of its item kind to [createItem], [updateItem] or
    [deleteItem]; [prodId] is the client's product identifier and [now] what
    [new Date()] gives when the encoder runs. *)

Section PublicMutations.

Context (codec : ICAL.Codec) (prodId : string) (now : Z).

Definition encode_event (data : Item Event) (uid : string) : JsError + string :=
  buildICSData codec prodId now (item_content data) uid.

Definition encode_todo (data : Item TodoData) (uid : string) : JsError + string :=
  inr (buildTodoICSData codec prodId now (item_content data) uid).

(** [createEvent(calendarUrl, eventData)] *)
Definition createEvent (calendarUrl : string) (eventData : Item Event)
  : Client MutationResult :=
  createItem calendarUrl eventData encode_event event.

(** [createTodo(calendarUrl, todoData)] *)
Definition createTodo (calendarUrl : string) (todoData : Item TodoData)
  : Client MutationResult :=
  createItem calendarUrl todoData encode_todo todo.

(** [updateEvent(calendarUrl, event)] *)
Definition updateEvent (calendarUrl : string) (event_ : Item Event)
  : Client MutationResult :=
  updateItem calendarUrl event_ encode_event event.

(** [updateTodo(calendarUrl, todo)] *)
Definition updateTodo (calendarUrl : string) (todo_ : Item TodoData)
  : Client MutationResult :=
  updateItem calendarUrl todo_ encode_todo todo.

(** [deleteEvent(calendarUrl, eventUid, etag)] *)
Definition deleteEvent (calendarUrl eventUid : string) (etag : option string)
  : Client unit :=
  deleteItem calendarUrl eventUid event etag.

(** [deleteTodo(calendarUrl, todoUid, etag)] *)
Definition deleteTodo (calendarUrl todoUid : string) (etag : option string)
  : Client unit :=
  deleteItem calendarUrl todoUid todo etag.

End PublicMutations.


(** ** The client object and its queries (client.js)

    The operations below read or set the fields of the client object and
    send the queries of the read side. *)

(** The bodies of the queries, by template and parameters. *)
Inductive QueryBody :=
| PropfindCurrentUserPrincipal
| PropfindCalendarHomeSet
| PropfindCalendars
| PropfindGetetag
| CalendarQuery (component : string)
                (timeRange : option (string * string))
                (expand : option (string * string))
| CalendarMultiget (hrefs : list string).

Record Query := mkQuery {
  q_method : Method;
  q_url : string;
  q_headers : list (string * string);
  q_body : QueryBody
}.

(** The fields of the client object. *)
Record Self := mkSelf {
  self_baseUrl : string;
  self_prodId : string;
  self_calendarHome : option string;
  self_userPrincipal : option string;
  self_requestTimeout : Z
}.

(** What surrounds the client: the server behind [httpClient] (its answer
    may depend on the queries made before), the XML decoder as the client
    configures it and as [parseCalendars] configures it, the verdict of the
    decoder's validator (the error of a text that is not well-formed), the
    URL parser, the codec, the clock and the time zone. *)
Record World := mkWorld {
  answers : list Query -> Query -> Outcome;
  xml : string -> JVal;
  xml_attributes : string -> JVal;
  xml_invalid : string -> option JsError;
  url_pathname : string -> JsError + string;
  url_resolve : JVal -> string -> JsError + string;
  ical : ICAL.Codec;
  clock : Z;
  localTZA : Z -> Z
}.

(** An operation of the client object: it runs in a world, from the fields
    of the object and the queries sent so far; it returns or throws, and
    leaves the fields and the queries as they are by then. *)
Definition Session (A : Type) : Type :=
  World -> Self -> list Query -> (JsError + A) * (Self * list Query).

Global Instance Session_ret : MRet Session :=
  fun A a _ self sent => (inr a, (self, sent)).

Global Instance Session_bind : MBind Session :=
  fun A B k m w self sent =>
    match m w self sent with
    | (inl e, st) => (inl e, st)
    | (inr a, (self', sent')) => k a w self' sent'
    end.

Definition Session_throw {A} (e : JsError) : Session A :=
  fun _ self sent => (inl e, (self, sent)).

Definition Session_lift {A} (r : JsError + A) : Session A :=
  fun _ self sent => (r, (self, sent)).

(** [try { body } catch (error) { handler }] *)
Definition Session_try {A} (body : Session A) (handler : JsError -> Session A)
  : Session A :=
  fun w self sent =>
    match body w self sent with
    | (inl e, (self', sent')) => handler e w self' sent'
    | (inr a, st) => (inr a, st)
    end.

(** [parser.parse(text, {})]: the text is validated, then decoded. *)
Definition xml_validated (w : World) (text : string) : JsError + JVal :=
  match xml_invalid w text with
  | Some e => inl e
  | None => inr (xml w text)
  end.

Definition this : Session Self := fun _ self sent => (inr self, (self, sent)).

Definition world : Session World := fun w self sent => (inr w, (self, sent)).

Definition set_userPrincipal (p : string) : Session unit :=
  fun _ self sent =>
    (inr tt, (mkSelf (self_baseUrl self) (self_prodId self) (self_calendarHome self)
                     (Some p) (self_requestTimeout self), sent)).

Definition set_calendarHome (p : string) : Session unit :=
  fun _ self sent =>
    (inr tt, (mkSelf (self_baseUrl self) (self_prodId self) (Some p)
                     (self_userPrincipal self) (self_requestTimeout self), sent)).

(** [this.httpClient.request(config)] *)
Definition send (validateStatus : Z -> bool) (q : Query) : Session Response :=
  fun w self sent =>
    match answers w sent q with
    | Replied r =>
        if validateStatus (status r)
        then (inr r, (self, sent ++ [q]))
        else (inl (AxiosError (Some (status r)) (status_message (status r))),
              (self, sent ++ [q]))
    | Failed m => (inl (AxiosError None m), (self, sent ++ [q]))
    end.

(** [path.startsWith(...)] and the rest of [resolveUrl] for a path that came
    out of a decoded document: only a string has [startsWith]. *)
Definition resolveUrl_value (basePath : string) (path : JVal) : JsError + string :=
  match path with
  | JStr p => inr (resolveUrl basePath p)
  | JUndef => inl (TypeError "Cannot read properties of undefined (reading 'startsWith')")
  | _ => inl (TypeError "path.startsWith is not a function")
  end.

(** [this.resolveUrl(path)]: the base path is read off [this.baseUrl] first. *)
Definition Self_resolveUrl (path : JVal) : Session string :=
  fun w self sent =>
    (and_then (url_pathname w (self_baseUrl self)) (fun basePath =>
       resolveUrl_value basePath path),
     (self, sent)).

(** The options a client is made from. *)
Record Options := mkOptions {
  opt_baseUrl : string;
  opt_prodId : option string;
  opt_requestTimeout : option Z
}.

Definition default_prodId : string := "-//ts-caldav.//CalDAV Client//EN".

(** [new CalDAVClient(options)]: the fields of the new object. The HTTP
    client it configures is the server of the world. *)
Definition CalDAVClient_new (options : Options) : Self :=
  mkSelf (opt_baseUrl options)
         (if falsy (opt_prodId options) then default_prodId
          else default "" (opt_prodId options))
         None None
         (match opt_requestTimeout options with
          | Some t => if Z.eqb t 0 then 5000%Z else t
          | None => 5000%Z
          end).

Definition validateCredentials_query (url : string) : Query :=
  mkQuery PROPFIND url [("Depth", "0"); ("Prefer", "return=minimal")]
          PropfindCurrentUserPrincipal.

(** [validateCredentials(discoveryPath)] *)
Definition validateCredentials (discoveryPath : string) : Session unit :=
  Session_try
    (url ← Self_resolveUrl (JStr discoveryPath);
     response ← send ok_2xx (validateCredentials_query url);
     if negb (includes (data response) "current-user-principal") then
       Session_throw
         (Error "User principal not found: Unable to authenticate with the server.")
     else
       w ← world;
       jsonData ← Session_lift (xml_validated w (data response));
       userPrincipalPath ←
         Session_lift
           (prop_path jsonData
              ["multistatus"; "response"; "propstat"; "prop";
               "current-user-principal"; "href"]);
       userPrincipal ← Self_resolveUrl userPrincipalPath;
       set_userPrincipal userPrincipal)
    (fun error =>
       Session_throw
         (Error ("Invalid credentials: Unable to authenticate with the server."
                   +:+ error_toString error))).

Definition fetchCalendarHome_query (url : string) : Query :=
  mkQuery PROPFIND url [("Depth", "0")] PropfindCalendarHomeSet.

(** [fetchCalendarHome()] *)
Definition fetchCalendarHome : Session string :=
  self ← this;
  response ←
    send ok_2xx
      (fetchCalendarHome_query
         (if falsy (self_userPrincipal self) then ""
          else default "" (self_userPrincipal self)));
  w ← world;
  let jsonData := xml w (data response) in
  calendarHomePath ←
    Session_lift
      (prop_path jsonData
         ["multistatus"; "response"; "propstat"; "prop"; "calendar-home-set"; "href"]);
  calendarHome ← Self_resolveUrl calendarHomePath;
  _ ← set_calendarHome calendarHome;
  mret calendarHome.

(** [getCalendarHome()] *)
Definition getCalendarHome : Session (option string) :=
  self ← this; mret (self_calendarHome self).

(** [CalDAVClient.create(options)]: the client it returns, or what it throws. *)
Definition create (options : Options) (w : World) (sent : list Query)
  : (JsError + Self) * list Query :=
  let client := CalDAVClient_new options in
  let isGoogle := includes (opt_baseUrl options) "apidata.googleusercontent.com" in
  let discoveryPath := if isGoogle then "/caldav/v2/" else "/" in
  match (_ ← validateCredentials discoveryPath; fetchCalendarHome) w client sent with
  | (inl e, (_, sent')) => (inl e, sent')
  | (inr _, (client', sent')) => (inr client', sent')
  end.

Record Cache := mkCache {
  cache_userPrincipal : option string;
  cache_calendarHome : option string;
  cache_prodId : option string
}.

(** [exportCache()] *)
Definition exportCache : Session Cache :=
  self ← this;
  mret (mkCache (self_userPrincipal self) (self_calendarHome self)
                       (Some (self_prodId self))).

(** A field of the cache as [resolveUrl] receives it. *)
Definition cached_path (p : option string) : JVal :=
  match p with
  | Some s => JStr s
  | None => JUndef
  end.

Definition set_prodId (p : string) : Session unit :=
  fun _ self sent =>
    (inr tt, (mkSelf (self_baseUrl self) p (self_calendarHome self)
                     (self_userPrincipal self) (self_requestTimeout self), sent)).

(** [CalDAVClient.createFromCache(options, cache)]: the client it returns,
    or what it throws. *)
Definition createFromCache (options : Options) (cache : Cache) (w : World)
    (sent : list Query) : (JsError + Self) * list Query :=
  let client := CalDAVClient_new options in
  match
    (userPrincipal ← Self_resolveUrl (cached_path (cache_userPrincipal cache));
     _ ← set_userPrincipal userPrincipal;
     calendarHome ← Self_resolveUrl (cached_path (cache_calendarHome cache));
     _ ← set_calendarHome calendarHome;
     if falsy (cache_prodId cache) then mret tt
     else set_prodId (default "" (cache_prodId cache))) w client sent
  with
  | (inl e, (_, sent')) => (inl e, sent')
  | (inr _, (client', sent')) => (inr client', sent')
  end.

Definition getCalendars_query (calendarHome : string) : Query :=
  mkQuery PROPFIND calendarHome [("Depth", "1")] PropfindCalendars.

(** [calendars.map((cal) => ({ ...cal, url: this.resolveUrl(cal.url) }))] *)
Fixpoint resolve_calendars (basePath : JsError + string) (calendars : list Calendar)
  : JsError + list Calendar :=
  match calendars with
  | [] => inr []
  | cal :: rest =>
      and_then (and_then basePath (fun bp => resolveUrl_value bp (url cal))) (fun u =>
      and_then (resolve_calendars basePath rest) (fun rest' =>
      inr (mkCalendar (displayName cal) (JStr u) (ctag cal) (supportedComponents cal)
             :: rest')))
  end.

(** [getCalendars()] *)
Definition getCalendars : Session (list Calendar) :=
  self ← this;
  if falsy (self_calendarHome self) then
    Session_throw (Error "Calendar home not found.")
  else
    response ←
      send ok_2xx (getCalendars_query (default "" (self_calendarHome self)));
    w ← world;
    calendars ←
      Session_lift
        (parseCalendars (xml_attributes w) (url_resolve w) (data response) None);
    Session_lift (resolve_calendars (url_pathname w (self_baseUrl self)) calendars).

(** The options of [getEvents] and [getTodos]. For [start] and [end],
    [None] is a property left out or given as [undefined], which the code
    treats alike. For [all] the two differ ([getTodos] spreads the options
    over its default): [None] is the property left out, [Some None] the
    property given as [undefined], [Some (Some b)] the property given as a
    boolean. *)
Record RangeOptions := mkRangeOptions {
  range_start : option Z;
  range_end : option Z;
  range_all : option (option bool)
}.

Definition no_options : RangeOptions := mkRangeOptions None None None.

(** [!!options.all] *)
Definition all_given (options : RangeOptions) : bool :=
  match range_all options with
  | Some (Some b) => b
  | _ => false
  end.

Definition three_weeks : Z := (3 * 7 * 24 * 60 * 60 * 1000)%Z.

(** The query of [getComponents]. *)
Definition getComponents_query (w : World) (calendarUrl component : string)
    (options : RangeOptions) : Query :=
  let now := clock w in
  let defaultEnd := (now + three_weeks)%Z in
  let start := default now (range_start options) in
  let end_ := default defaultEnd (range_end options) in
  let all := all_given options in
  let range :=
    (formatDate (localTZA w) start true, formatDate (localTZA w) end_ true) in
  let timeRange := if negb all then Some range else None in
  let expand :=
    if negb all && String.eqb component "VEVENT" then Some range else None in
  mkQuery REPORT calendarUrl [("Depth", "1")] (CalendarQuery component timeRange expand).

(** [getComponents(calendarUrl, component, parseFn, options)] *)
Definition getComponents {A} (calendarUrl component : string)
    (parseFn : World -> string -> JsError + A) (options : RangeOptions) : Session A :=
  w ← world;
  Session_try
    (response ← send ok_2xx (getComponents_query w calendarUrl component options);
     Session_lift (parseFn w (data response)))
    (fun error =>
       Session_throw
         (Error ("Failed to retrieve " +:+ toLowerCase component
                   +:+ "s from the CalDAV server." +:+ error_toString error))).

(** [parseEvents] and [parseTodos] as the client calls them: on the body of
    a response, without a base URL. The log is returned with the items. *)
Definition parse_events (w : World) (text : string)
  : JsError + (list Event * list JsError) :=
  parseEvents (ical w) (url_resolve w) (xml w) text None.

Definition parse_todos (w : World) (text : string)
  : JsError + (list Todo * list JsError) :=
  parseTodos (ical w) (url_resolve w) (xml w) text None.

(** [getEvents(calendarUrl, options)] *)
Definition getEvents (calendarUrl : string) (options : RangeOptions)
  : Session (list Event * list JsError) :=
  getComponents calendarUrl "VEVENT" parse_events options.

(** [getTodos(calendarUrl, options)]: the options are [{ all: true,
    ...options }], where [all] is [true] unless the options have the
    property, whatever its value. *)
Definition getTodos (calendarUrl : string) (options : RangeOptions)
  : Session (list Todo * list JsError) :=
  getComponents calendarUrl "VTODO" parse_todos
    (mkRangeOptions (range_start options) (range_end options)
       (Some match range_all options with
             | Some given => given
             | None => Some true
             end)).

Definition getETag_query (href : string) : Query :=
  mkQuery PROPFIND href [("Depth", "0")] PropfindGetetag.

(** [v?.[0]] *)
Definition index0 (v : JVal) : JVal :=
  match v with
  | JArr (x :: _) => x
  | JObj fields => field "0" fields
  | JStr (String c _) => JStr (String c EmptyString)
  | _ => JUndef
  end.

(** The etag [getETag] reads off a decoded reply: that of the response, or
    else that of the first response. *)
Definition reply_etag (parsed : JVal) : JVal :=
  let response := prop_opt (prop_opt parsed "multistatus") "response" in
  let getetag (r : JVal) := prop_opt (prop_opt (prop_opt r "propstat") "prop") "getetag" in
  if truthy (getetag response) then getetag response else getetag (index0 response).

(** [getETag(href)] *)
Definition getETag (href : string) : Session string :=
  Session_try
    (response ← send ok_2xx (getETag_query href);
     w ← world;
     let etag := reply_etag (xml w (data response)) in
     if negb (truthy etag) then
       Session_throw (Error "ETag not found in PROPFIND response.")
     else
       match etag with
       | JStr s => mret (strip_weak_prefix s)
       | _ => Session_throw (TypeError "etag.replace is not a function")
       end)
    (fun error =>
       Session_throw
         (Error ("Failed to retrieve ETag for " +:+ href +:+ ": "
                   +:+ error_toString error))).

Definition getItemsByHref_query (calendarUrl : string) (filteredHrefs : list string)
  : Query :=
  mkQuery REPORT calendarUrl [("Depth", "1")] (CalendarMultiget filteredHrefs).

(** [getItemsByHref(calendarUrl, hrefs, parseFn)] *)
Definition getItemsByHref {A} (calendarUrl : string) (hrefs : list string)
    (parseFn : World -> string -> JsError + (list A * list JsError))
  : Session (list A * list JsError) :=
  match hrefs with
  | [] => mret ([], [])
  | _ =>
      let filteredHrefs := List.filter (fun href => endsWith href ".ics") hrefs in
      match filteredHrefs with
      | [] => mret ([], [])
      | _ =>
          response ← send ok_2xx (getItemsByHref_query calendarUrl filteredHrefs);
          w ← world;
          Session_lift (parseFn w (data response))
      end
  end.

(** [getEventsByHref(calendarUrl, hrefs)] *)
Definition getEventsByHref (calendarUrl : string) (hrefs : list string)
  : Session (list Event * list JsError) :=
  getItemsByHref calendarUrl hrefs parse_events.

(** [getTodosByHref(calendarUrl, hrefs)] *)
Definition getTodosByHref (calendarUrl : string) (hrefs : list string)
  : Session (list Todo * list JsError) :=
  getItemsByHref calendarUrl hrefs parse_todos.
(*END*)

(** ** What the further properties are stated with *)

Section FurtherStatements.

Import ICAL.

(** The year of a compact date: four digits, or six digits after the sign of
    a year beyond 9999 (the sign of a year before 0 goes with the dashes). *)
Definition compact_year (y : Z) : string :=
  if ((0 <=? y) && (y <=? 9999))%Z then JsDate.digits 4 y
  else (if (y <? 0)%Z then "" else "+") +:+ JsDate.digits 6 (Z.abs y).

(** The compact date and the compact time of day of an instant, in UTC. *)
Definition compact_date (t : Z) : string :=
  compact_year (JsDate.getUTCFullYear t)
    +:+ JsDate.digits 2 (JsDate.getUTCMonth t + 1)
    +:+ JsDate.digits 2 (JsDate.getUTCDate t).

Definition compact_time (t : Z) : string :=
  JsDate.digits 2 (JsDate.getUTCHours t)
    +:+ JsDate.digits 2 (JsDate.getUTCMinutes t)
    +:+ JsDate.digits 2 (JsDate.getUTCSeconds t).

(** An instant without its milliseconds. *)
Definition whole_seconds (t : Z) : Z := (t - t mod 1000)%Z.

(** The calendar date of an instant in UTC, as a date-only value. *)
Definition utc_date (t : Z) : Time :=
  mkTime (JsDate.getUTCFullYear t) (JsDate.getUTCMonth t + 1) (JsDate.getUTCDate t)
         0 0 0 true false.

(** The string holds none of the characters of the class. *)
Definition free_of (class : ascii -> bool) (s : string) : Prop :=
  all_chars (fun c => negb (class c)) s = true.

(** The separators of the text of a recurrence rule. *)
Definition rule_separator (c : ascii) : bool :=
  Ascii.eqb c ";" || Ascii.eqb c "=" || Ascii.eqb c ",".

(** A rule whose text splits back into its entries: one of the four
    frequencies, no end date, and lists that are not empty, of day codes
    free of separators and of numbers. *)
Definition separable_rule (r : RecurrenceRule) : Prop :=
  (exists f, freq r = Some f /\ f ∈ ["DAILY"; "WEEKLY"; "MONTHLY"; "YEARLY"]) /\
  until r = None /\
  (forall l, byday r = Some l ->
     l <> [] /\ Forall (fun v => exists code, v = JStr code /\ free_of rule_separator code) l) /\
  (forall l, bymonthday r = Some l -> l <> [] /\ Forall (fun v => exists n, v = JNum n) l) /\
  (forall l, bymonth r = Some l -> l <> [] /\ Forall (fun v => exists n, v = JNum n) l).

(** The codes of the days of the week. *)
Definition day_codes : list string := ["SU"; "MO"; "TU"; "WE"; "TH"; "FR"; "SA"].

(** An integer that a JavaScript number holds exactly, and writes in digits. *)
Definition safe_integer (n : Z) : Prop := (- 2 ^ 53 < n < 2 ^ 53)%Z.

(** A rule the encoder and the decoder agree on, within the values the codec
    takes for a rule: one of the four frequencies; an interval and a count,
    if any, that are safe integers; no end date; lists that are not empty,
    of the codes of the days of the week, of days of the month from 1 to 31
    and of months from 1 to 12. *)
Definition plain_rule (r : RecurrenceRule) : Prop :=
  (exists f, freq r = Some f /\ f ∈ ["DAILY"; "WEEKLY"; "MONTHLY"; "YEARLY"]) /\
  (forall n, interval r = Some n -> safe_integer n) /\
  (forall n, count r = Some n -> safe_integer n) /\
  until r = None /\
  (forall l, byday r = Some l ->
     l <> [] /\ Forall (fun v => exists code, v = JStr code /\ code ∈ day_codes) l) /\
  (forall l, bymonthday r = Some l ->
     l <> [] /\ Forall (fun v => exists n, v = JNum n /\ (1 <= n <= 31)%Z) l) /\
  (forall l, bymonth r = Some l ->
     l <> [] /\ Forall (fun v => exists n, v = JNum n /\ (1 <= n <= 12)%Z) l).

(** What the decoder reads of a plain rule the encoder wrote: the rule with
    its interval made explicit (1 when absent or below 1) and a count of 0
    read as absent. *)
Definition decoded_rule (r : RecurrenceRule) : RecurrenceRule :=
  mkRule (freq r)
         (Some (Z.max 1 (default 1%Z (interval r))))
         (match count r with
          | Some n => if Z.eqb n 0 then None else Some n
          | None => None
          end)
         None (byday r) (bymonthday r) (bymonth r).

(** A trigger that the codec takes for a duration and writes back as it
    was given: a number of weeks, days, hours, minutes or seconds, before
    (with a minus sign) or after. *)
Definition simple_duration (trigger : string) : Prop :=
  exists sign n,
    (sign = "" \/ sign = "-") /\ (0 < n)%Z /\ safe_integer n /\
    (trigger = sign +:+ "P" +:+ pretty n +:+ "W" \/
     trigger = sign +:+ "P" +:+ pretty n +:+ "D" \/
     trigger = sign +:+ "PT" +:+ pretty n +:+ "H" \/
     trigger = sign +:+ "PT" +:+ pretty n +:+ "M" \/
     trigger = sign +:+ "PT" +:+ pretty n +:+ "S").

(** The triggers of the alarms are simple durations. *)
Definition simple_triggers (alarms : list Alarm) : Prop :=
  Forall (fun a => simple_duration (alarm_trigger a)) alarms.

(** What the decoder reads of an alarm the encoder wrote: the alarm itself,
    an empty description or summary being read as an absent one. *)
Definition alarm_read_back (a : Alarm) : Alarm :=
  match a with
  | DisplayAlarm t d => DisplayAlarm t (truthy_text d)
  | EmailAlarm t d s attendees => EmailAlarm t (truthy_text d) (truthy_text s) attendees
  | AudioAlarm t => AudioAlarm t
  end.

(** The etag a decoded item takes from its response entry. *)
Definition entry_etag (itemData : JVal) : JVal :=
  if truthy (prop_opt itemData "getetag") then prop_opt itemData "getetag" else JStr "".

(** What the decoder reads of an event that is not a whole-day event, once
    encoded under [uid] and found in a response entry: the event without the
    milliseconds of its start and end, with its empty texts read as absent
    ones, an empty summary as the default and its rule as it is read back. *)
Definition decoded_event (uid : string) (itemData obj : JVal) (e : Event) : Event :=
  mkEvent (Some uid)
          (if String.eqb (ev_summary e) "" then "Untitled Event" else ev_summary e)
          (whole_seconds (ev_start e)) (whole_seconds (ev_end e))
          (truthy_text (ev_description e)) (truthy_text (ev_location e))
          (entry_etag itemData) (prop_opt obj "href")
          false (decoded_rule <$> ev_recurrenceRule e)
          (truthy_text (ev_startTzid e)) (truthy_text (ev_endTzid e))
          (map alarm_read_back (ev_alarms e)).

(** What the decoder reads of a todo, once encoded under [uid] and found in
    a response entry; the sort order is the text of the number, which is
    what the decoder applies [Number] to. *)
Definition decoded_todo (uid : string) (itemData obj : JVal) (t : TodoData) : Todo :=
  mkTodo (Some (Text uid))
         (Text (if String.eqb (tdd_summary t) "" then "Untitled Todo" else tdd_summary t))
         (whole_seconds <$> tdd_start t)
         (whole_seconds <$> tdd_due t)
         (whole_seconds <$> tdd_completed t)
         (Text <$> truthy_text (tdd_status t))
         (Text <$> truthy_text (tdd_description t))
         (Text <$> truthy_text (tdd_location t))
         (entry_etag itemData) (prop_opt obj "href")
         (map alarm_read_back (tdd_alarms t))
         ((fun n => Text (pretty n)) <$> tdd_sortOrder t).

(** The time properties of an event that is not a whole-day event: the
    instant in UTC, with the time zone identifier as a parameter if there is
    one. *)
Definition timed (name : string) (tzid : option string) (t : Z) : Property :=
  mkProperty name (if falsy tzid then [] else [("tzid", default "" tzid)])
             (DateTime (Time_fromJSDate_utc t)).

(** The properties a todo has or has not: a date, a text, the sort order. *)
Definition date_prop (name : string) (date : option Z) : list Property :=
  match date with
  | Some d => [mkProperty name [] (DateTime (Time_fromJSDate_utc d))]
  | None => []
  end.

Definition text_prop (name : string) (text : option string) : list Property :=
  if falsy text then [] else [mkProperty name [] (Text (default "" text))].

Definition sort_prop (sortOrder : option Z) : list Property :=
  match sortOrder with
  | Some n => [mkProperty "X-APPLE-SORT-ORDER" [] (Numeric n)]
  | None => []
  end.

(** The calendar data of a response entry, whatever it is. *)
Definition calendar_data (obj : JVal) : JVal :=
  prop_opt (prop_opt (prop_opt obj "propstat") "prop") "calendar-data".

(** An entry the parsers throw on: it is [undefined], or its calendar data
    is truthy and is no text. *)
Definition unreadable_entry (obj : JVal) : Prop :=
  obj = JUndef \/
  (truthy (calendar_data obj) = true /\ forall s, calendar_data obj <> JStr s).

(** The message of the mismatch error, by item kind. *)
Definition mismatch_message (kind : ItemType) : string :=
  match kind with
  | event => "Event with the specified uid does not match."
  | todo => "Todo with the specified uid does not match."
  end.

(** What a mutation throws when a step after its guard fails: the message
    of the refused precondition on a 412, the error with a prefix
    otherwise. *)
Definition mutation_error (refused action : string) (kind : ItemType) (e : JsError)
  : JsError :=
  if is_precondition_failed e then Error refused
  else Error ("Failed to " +:+ action +:+ " " +:+ itemType_name kind +:+ ": "
                +:+ error_toString e).

(** The path [create] starts its discovery from. *)
Definition discovery_path (options : Options) : string :=
  if includes (opt_baseUrl options) "apidata.googleusercontent.com"
  then "/caldav/v2/" else "/".

(** Where a decoded reply holds the href of a property of the principal. *)
Definition principal_path : list string :=
  ["multistatus"; "response"; "propstat"; "prop"; "current-user-principal"; "href"].

Definition home_path : list string :=
  ["multistatus"; "response"; "propstat"; "prop"; "calendar-home-set"; "href"].

(** A codec that reads the text of one tree back, and no other. *)
Definition echo_codec (tree : Component) : Codec :=
  mkCodec sample_stringify
    (fun text => if String.eqb text (sample_stringify tree)
                 then inr (reread tree)
                 else inl (Error "invalid ical body"))
    (fun text => inl (Error "invalid date-time value"))
    (fun t => JsDate.UTC (year t) (month t) (day t) (hour t) (minute t) (second t))
    (fun _ => None).

(** Every second week on Monday and Thursday, in March and September. *)
Definition fortnightly : RecurrenceRule :=
  mkRule (Some "WEEKLY") (Some 2%Z) None None (Some [JStr "MO"; JStr "TH"]) None
         (Some [JNum 3; JNum 9]).

(** A meeting with a time zone, a description, an empty location, a rule
    and two alarms. *)
Definition meeting : Event :=
  mkEvent None "Review" 1709283600500 1709287200000 (Some "Quarterly figures") (Some "")
          JUndef JUndef false (Some fortnightly) (Some "Europe/Berlin") None
          [DisplayAlarm "-PT15M" (Some "Review in 15 minutes"); AudioAlarm "-PT5M"].

Definition meeting_vcalendar : Component :=
  match build_vcalendar sample_prodId 0 meeting "m1" with
  | inr tree => tree
  | inl _ => Component_new "vcalendar"
  end.

(** A decoded reply with an XML declaration and one response, which the
    decoder gives as that response alone, not as an array. *)
Definition one_response (entry : JVal) : JVal :=
  JObj [("?xml", JStr ""); ("multistatus", JObj [("response", entry)])].

Definition meeting_entry : JVal :=
  calendar_entry "/cal/m1.ics" (sample_stringify meeting_vcalendar).

(** A todo with a due date, a status, a sort order and an alarm. *)
Definition errand : TodoData :=
  mkTodoData "Renew passport" None (Some 1709283600250%Z) None None (Some "Town hall")
             (Some "NEEDS-ACTION") (Some 3%Z)
             [EmailAlarm "-P1D" (Some "Tomorrow") None ["mailto:me@example.org"]].

Definition errand_vcalendar : Component := build_todo_vcalendar sample_prodId 0 errand "t1".

Definition errand_entry : JVal :=
  calendar_entry "/cal/t1.ics" (sample_stringify errand_vcalendar).

(** An entry whose calendar data the decoder gave as a number. *)
Definition numeric_entry : JVal :=
  JObj [("href", JStr "/cal/n1.ics");
        ("propstat", JObj [("prop", JObj [("calendar-data", JNum 20240301)])])].

(** A server for the queries of the client object, and the documents its
    replies decode to. *)
Definition sample_answers (history : list Query) (q : Query) : Outcome :=
  match q_body q with
  | PropfindCurrentUserPrincipal =>
      Replied (mkResponse 207 [] "<current-user-principal/>")
  | PropfindCalendarHomeSet => Replied (mkResponse 207 [] "<calendar-home-set/>")
  | PropfindCalendars => Replied (mkResponse 207 [] "<listing/>")
  | PropfindGetetag => Replied (mkResponse 207 [] "<getetag/>")
  | CalendarQuery _ _ _ => Replied (mkResponse 207 [] "<events/>")
  | CalendarMultiget _ => Replied (mkResponse 207 [] "<events/>")
  end.

Definition href_reply (property href : string) : JVal :=
  JObj [("multistatus",
     JObj [("response",
        JObj [("href", JStr "/dav/");
              ("propstat",
                 JObj [("prop", JObj [(property, JObj [("href", JStr href)])]);
                       ("status", JStr "HTTP/1.1 200 OK")])])])].

Definition sample_xml (text : string) : JVal :=
  if String.eqb text "<current-user-principal/>"
  then href_reply "current-user-principal" "/dav/principals/user/"
  else if String.eqb text "<calendar-home-set/>"
  then href_reply "calendar-home-set" "/dav/calendars/user/"
  else if String.eqb text "<listing/>" then sample_listing
  else if String.eqb text "<getetag/>"
  then multistatus_of [sample_ref_entry "/cal/e1.ics" ("W/" +:+ dquote +:+ "v1" +:+ dquote)]
  else if String.eqb text "<events/>" then multistatus_of [good_entry]
  else JObj [].

Definition sample_pathname (baseUrl : string) : JsError + string :=
  if String.eqb baseUrl "https://example.org/dav" then inr "/dav"
  else inl (TypeError "Invalid URL").

(** The world of the samples: the first instant of 2024, one hour east of
    UTC. *)
Definition sample_world : World :=
  mkWorld sample_answers sample_xml sample_xml (fun _ => None) sample_pathname
          sample_resolve sample_codec 1704067200000 (fun _ => 3600000%Z).

Definition sample_options : Options := mkOptions "https://example.org/dav" None None.

Definition sample_self : Self :=
  mkSelf "https://example.org/dav" default_prodId (Some "/calendars/user/")
         (Some "/principals/user/") 5000.

End FurtherStatements.


(* ================================================================== *)
(** * Properties *)
(* ================================================================== *)

(** ** String methods *)

Section Strings.

Implicit Types (s p r : string).

Lemma startsWith_iff s p : startsWith s p = true <-> exists r, s = p +:+ r.
Proof.
  revert s. induction p as [|c p IH]; intros s; simpl.
  - split; [intros _; by exists s | done].
  - destruct s as [|d s].
    + split; [done | by intros [r ?]].
    + destruct (Ascii.eqb_spec c d) as [->|Hne]; simpl.
      * rewrite IH. split; intros [r Hr]; exists r; simpl in *; congruence.
      * split; [done | intros [r [= ? _]]; congruence].
Qed.

Lemma startsWith_app p r : startsWith (p +:+ r) p = true.
Proof. apply startsWith_iff. by exists r. Qed.

Lemma substring_from_app p r : substring_from (String.length p) (p +:+ r) = r.
Proof. induction p as [|c p IH]; simpl; [by destruct r | done]. Qed.

Lemma strip_weak_prefix_weak r : strip_weak_prefix ("W/" +:+ r) = r.
Proof.
  unfold strip_weak_prefix. rewrite startsWith_app.
  exact (substring_from_app "W/" r).
Qed.

Lemma length_substring_from n s :
  String.length (substring_from n s) = (String.length s - n)%nat.
Proof.
  revert s. induction n as [|n IH]; intros [|c s]; simpl; done.
Qed.

(** The scan of [replaceAll] never runs short: any bound from the length of
    the string on gives the same result, for a pattern that is not empty. *)
Lemma replaceAll_fuel_enough pat by_ n m s :
  pat <> "" ->
  (String.length s <= n)%nat -> (String.length s <= m)%nat ->
  replaceAll_fuel n pat by_ s = replaceAll_fuel m pat by_ s.
Proof.
  intros Hpat. revert m s. induction n as [|n IH]; intros m s Hn Hm.
  - destruct s; [|simpl in Hn; lia]. by destruct m.
  - destruct m as [|m].
    + destruct s; [done | simpl in Hm; lia].
    + destruct s as [|c s]; [done|]. cbn [replaceAll_fuel].
      destruct (startsWith (String c s) pat).
      * f_equal. apply IH; rewrite length_substring_from;
          destruct pat; simpl in *; try done; lia.
      * f_equal. apply IH; simpl in *; lia.
Qed.

Lemma rev_append_app s1 s2 acc :
  rev_append (s1 +:+ s2) acc = rev_append s2 (rev_append s1 acc).
Proof. revert acc. induction s1 as [|c s1 IH]; intros acc; simpl; [done | apply IH]. Qed.

Lemma endsWith_slash r : endsWith (r +:+ "/") "/" = true.
Proof. unfold endsWith, rev. by rewrite rev_append_app. Qed.

Lemma slice_0_m1_snoc r c : slice_0_m1 (r +:+ String c "") = r.
Proof.
  induction r as [|d r IH]; [done|].
  cbn [String.append slice_0_m1]. rewrite IH. by destruct r.
Qed.

End Strings.

(** ** The synchronisation diff *)

Section DiffRefs.

Implicit Types (remote local : list ItemRef) (h e : string).

Lemma Map_new_snoc l kv : Map_new (l ++ [kv]) = <[kv.1 := kv.2]> (Map_new l).
Proof. unfold Map_new. by rewrite fold_left_app. Qed.

Lemma Map_new_lookup_elem l k v : Map_new l !! k = Some v -> (k, v) ∈ l.
Proof.
  induction l as [|[k' v'] l IH] using rev_ind.
  - unfold Map_new; simpl. by rewrite lookup_empty.
  - rewrite Map_new_snoc; simpl. rewrite elem_of_app, list_elem_of_singleton.
    destruct (decide (k' = k)) as [->|Hne].
    + rewrite lookup_insert_eq. intros [= ->]. by right.
    + rewrite lookup_insert_ne by done. auto.
Qed.

Lemma Map_new_is_Some l k : is_Some (Map_new l !! k) <-> k ∈ l.*1.
Proof.
  induction l as [|[k' v'] l IH] using rev_ind.
  - unfold Map_new; simpl. rewrite lookup_empty, elem_of_nil.
    split; [intros [? [=]] | done].
  - rewrite Map_new_snoc, fmap_app, elem_of_app; simpl.
    rewrite list_elem_of_singleton.
    destruct (decide (k' = k)) as [->|Hne].
    + rewrite lookup_insert_eq. split; eauto.
    + rewrite lookup_insert_ne by done. rewrite IH.
      split; [by left | by intros [?|?]].
Qed.

Lemma entries_elem refs h e : (h, e) ∈ entries refs <-> mkRef h e ∈ refs.
Proof.
  unfold entries. rewrite list_elem_of_fmap. split.
  - intros [[h' e'] [[= -> ->] ?]]. done.
  - intros ?. by exists (mkRef h e).
Qed.

Lemma entries_fst refs : (entries refs).*1 = hrefs refs.
Proof.
  unfold entries, hrefs. induction refs as [|r refs IH]; [done|].
  cbn. f_equal. exact IH.
Qed.

Lemma Map_has_hrefs refs h : Map_has (Map_new (entries refs)) h = true <-> h ∈ hrefs refs.
Proof.
  unfold Map_has. rewrite bool_decide_eq_true, Map_new_is_Some. by rewrite entries_fst.
Qed.

Lemma Map_lookup_single_valued refs h e :
  single_valued refs ->
  Map_new (entries refs) !! h = Some e <-> mkRef h e ∈ refs.
Proof.
  intros Hf. split.
  - intros H. by apply entries_elem, Map_new_lookup_elem.
  - intros Hin.
    assert (is_Some (Map_new (entries refs) !! h)) as [e' He'].
    { apply Map_new_is_Some. rewrite entries_fst. unfold hrefs.
      apply list_elem_of_fmap. by exists (mkRef h e). }
    pose proof (Map_new_lookup_elem _ _ _ He') as Hin'.
    apply entries_elem in Hin'.
    rewrite He'. f_equal. exact (Hf _ _ Hin' Hin eq_refl).
Qed.

Lemma remote_loop localMap remote news upds :
  fold_left
    (fun '(newItems, updatedItems) r =>
       if negb (Map_has localMap (href r)) then (newItems ++ [href r], updatedItems)
       else if Map_get_differs localMap (href r) (etag r)
            then (newItems, updatedItems ++ [href r])
            else (newItems, updatedItems))
    remote (news, upds)
  = (news ++ map href (List.filter (is_new localMap) remote),
     upds ++ map href (List.filter (is_updated localMap) remote)).
Proof.
  revert news upds. induction remote as [|r remote IH]; intros news upds; simpl.
  - by rewrite !app_nil_r.
  - unfold is_new, is_updated at 1.
    destruct (Map_has localMap (href r)); simpl.
    + destruct (Map_get_differs localMap (href r) (etag r)); simpl; rewrite IH.
      * by rewrite <- app_assoc.
      * done.
    + rewrite IH. by rewrite <- app_assoc.
Qed.

Lemma local_loop remoteMap local dels :
  fold_left
    (fun deletedItems l =>
       if negb (Map_has remoteMap (href l)) then deletedItems ++ [href l]
       else deletedItems)
    local dels
  = dels ++ map href (List.filter (is_new remoteMap) local).
Proof.
  revert dels. induction local as [|l local IH]; intros dels; simpl.
  - by rewrite app_nil_r.
  - unfold is_new at 1. destruct (Map_has remoteMap (href l)); simpl; rewrite IH.
    + done.
    + by rewrite <- app_assoc.
Qed.

Lemma diffRefs_unfold remote local :
  diffRefs remote local =
  mkDiff (map href (List.filter (is_new (Map_new (entries local))) remote))
         (map href (List.filter (is_updated (Map_new (entries local))) remote))
         (map href (List.filter (is_new (Map_new (entries remote))) local)).
Proof.
  unfold diffRefs. fold (entries local) (entries remote).
  by rewrite remote_loop, local_loop.
Qed.

Lemma elem_of_map_filter (p : ItemRef -> bool) refs h :
  h ∈ map href (List.filter p refs) <-> exists r, r ∈ refs /\ p r = true /\ href r = h.
Proof.
  rewrite list_elem_of_In, in_map_iff. split.
  - intros [r [<- Hr]]. apply filter_In in Hr as [Hr Hp].
    exists r. by rewrite list_elem_of_In.
  - intros [r (Hr & Hp & <-)]. exists r. split; [done|].
    apply filter_In. by rewrite <- list_elem_of_In.
Qed.

(** Membership in the new list, for all lists. *)
Lemma diffRefs_new remote local h :
  h ∈ newItems (diffRefs remote local) <-> h ∈ hrefs remote /\ h ∉ hrefs local.
Proof.
  rewrite diffRefs_unfold; simpl. rewrite elem_of_map_filter. unfold is_new, hrefs.
  split.
  - intros [r (Hr & Hp & <-)]. split.
    + apply list_elem_of_fmap. by exists r.
    + rewrite <- Map_has_hrefs. by destruct (Map_has _ _).
  - intros [Hin Hni]. apply list_elem_of_fmap in Hin as [r [-> Hr]].
    exists r. repeat split; [done|].
    rewrite <- Map_has_hrefs in Hni. by destruct (Map_has _ _).
Qed.

(** Membership in the deleted list, for all lists. *)
Lemma diffRefs_deleted remote local h :
  h ∈ deletedItems (diffRefs remote local) <-> h ∈ hrefs local /\ h ∉ hrefs remote.
Proof.
  rewrite diffRefs_unfold; simpl. rewrite elem_of_map_filter. unfold is_new, hrefs.
  split.
  - intros [r (Hr & Hp & <-)]. split.
    + apply list_elem_of_fmap. by exists r.
    + rewrite <- Map_has_hrefs. by destruct (Map_has _ _).
  - intros [Hin Hni]. apply list_elem_of_fmap in Hin as [r [-> Hr]].
    exists r. repeat split; [done|].
    rewrite <- Map_has_hrefs in Hni. by destruct (Map_has _ _).
Qed.

(** Membership in the updated list, for all lists: some remote entry for the
    href differs from the etag the local map holds for it. *)
Lemma diffRefs_updated_map remote local h :
  h ∈ updatedItems (diffRefs remote local) <->
  exists e e', mkRef h e ∈ remote /\ Map_new (entries local) !! h = Some e' /\ e <> e'.
Proof.
  rewrite diffRefs_unfold; simpl. rewrite elem_of_map_filter.
  unfold is_updated, Map_has, Map_get_differs. split.
  - intros [[h' e] (Hr & Hp & <-)]; simpl in *.
    apply andb_true_iff in Hp as [Hs Hd].
    apply bool_decide_eq_true in Hs as [e' He'].
    apply negb_true_iff, bool_decide_eq_false in Hd.
    exists e, e'. repeat split; [done..|]. intros ->. by rewrite He' in Hd.
  - intros (e & e' & Hr & He' & Hne). exists (mkRef h e); simpl.
    split; [done|]. split; [|done]. rewrite He'. apply andb_true_iff. split.
    + apply bool_decide_eq_true. eauto.
    + apply negb_true_iff, bool_decide_eq_false. congruence.
Qed.

Lemma NoDup_single_valued refs : NoDup (hrefs refs) -> single_valued refs.
Proof.
  unfold hrefs. induction refs as [|r refs IH]; simpl.
  - intros _ r1 r2 Hr1. by apply elem_of_nil in Hr1.
  - intros Hnd. apply NoDup_cons in Hnd as [Hni Hnd].
    intros r1 r2 Hr1 Hr2 Heq.
    apply elem_of_cons in Hr1 as [->|Hr1]; apply elem_of_cons in Hr2 as [->|Hr2].
    + done.
    + exfalso. apply Hni. rewrite Heq. apply list_elem_of_In, in_map.
      by apply list_elem_of_In.
    + exfalso. apply Hni. rewrite <- Heq. apply list_elem_of_In, in_map.
      by apply list_elem_of_In.
    + by apply IH.
Qed.

(** C1 (as amended): when neither list gives one href two different etags,
    [diffRefs] reports as new exactly the hrefs found remotely and not locally,
    as updated exactly the hrefs found on both sides with different etags, as
    deleted exactly the hrefs found locally and not remotely; a reference
    found on both sides with the same etag is reported in none of the three
    lists, and two lists holding the same references give three empty lists. *)
Theorem diffRefs_partition remote local :
  single_valued remote -> single_valued local ->
  (forall h, h ∈ newItems (diffRefs remote local) <->
             h ∈ hrefs remote /\ h ∉ hrefs local) /\
  (forall h, h ∈ updatedItems (diffRefs remote local) <->
             exists e e', mkRef h e ∈ remote /\ mkRef h e' ∈ local /\ e <> e') /\
  (forall h, h ∈ deletedItems (diffRefs remote local) <->
             h ∈ hrefs local /\ h ∉ hrefs remote) /\
  (forall r, r ∈ remote -> r ∈ local ->
             (href r ∉ newItems (diffRefs remote local)) /\
             (href r ∉ updatedItems (diffRefs remote local)) /\
             (href r ∉ deletedItems (diffRefs remote local))) /\
  ((forall r, r ∈ remote <-> r ∈ local) ->
   diffRefs remote local = mkDiff [] [] []).
Proof.
  intros Hr Hl.
  assert (Hupd : forall h, h ∈ updatedItems (diffRefs remote local) <->
             exists e e', mkRef h e ∈ remote /\ mkRef h e' ∈ local /\ e <> e').
  { intros h. rewrite diffRefs_updated_map. split.
    - intros (e & e' & ? & He' & ?). exists e, e'.
      by rewrite <- (Map_lookup_single_valued local h e' Hl).
    - intros (e & e' & ? & He' & ?). exists e, e'.
      by rewrite (Map_lookup_single_valued local h e' Hl). }
  assert (Hsame : forall r, r ∈ remote -> r ∈ local ->
             (href r ∉ newItems (diffRefs remote local)) /\
             (href r ∉ updatedItems (diffRefs remote local)) /\
             (href r ∉ deletedItems (diffRefs remote local))).
  { intros [h e] Hrem Hloc; simpl. rewrite diffRefs_new, Hupd, diffRefs_deleted.
    assert (h ∈ hrefs remote) by (apply list_elem_of_fmap; by exists (mkRef h e)).
    assert (h ∈ hrefs local) by (apply list_elem_of_fmap; by exists (mkRef h e)).
    split; [tauto|]. split; [|tauto].
    intros (e1 & e2 & H1 & H2 & Hne). apply Hne.
    pose proof (Hr _ _ Hrem H1 eq_refl) as A.
    pose proof (Hl _ _ Hloc H2 eq_refl) as B. simpl in *. congruence. }
  split; [apply diffRefs_new|]. split; [exact Hupd|].
  split; [apply diffRefs_deleted|]. split; [exact Hsame|].
  intros Heq.
  assert (Hnil : forall l : list string, (forall h, h ∉ l) -> l = []).
  { intros [|x l] Hx; [done|]. exfalso. apply (Hx x). by left. }
  assert (Hn : newItems (diffRefs remote local) = []).
  { apply Hnil. intros h Hh. apply diffRefs_new in Hh as [Hin Hni]. apply Hni.
    apply list_elem_of_fmap in Hin as [r [-> Hin]].
    apply list_elem_of_fmap. exists r. split; [done|]. by apply Heq. }
  assert (Hu : updatedItems (diffRefs remote local) = []).
  { apply Hnil. intros h Hh. apply Hupd in Hh as (e & e' & H1 & H2 & Hne).
    apply Hne. apply Heq in H1.
    exact (Hl _ _ H1 H2 eq_refl). }
  assert (Hd : deletedItems (diffRefs remote local) = []).
  { apply Hnil. intros h Hh. apply diffRefs_deleted in Hh as [Hin Hni]. apply Hni.
    apply list_elem_of_fmap in Hin as [r [-> Hin]].
    apply list_elem_of_fmap. exists r. split; [done|]. by apply Heq. }
  destruct (diffRefs remote local); simpl in *. by subst.
Qed.

Example diffRefs_sample :
  diffRefs sample_remote sample_local
  = mkDiff ["/cal/c.ics"] ["/cal/b.ics"] ["/cal/d.ics"].
Proof. vm_compute. reflexivity. Qed.

Lemma diffRefs_partition_witness :
  single_valued sample_remote /\ single_valued sample_local /\
  (forall r, r ∈ sample_remote -> r ∈ sample_local ->
             (href r ∉ newItems (diffRefs sample_remote sample_local)) /\
             (href r ∉ updatedItems (diffRefs sample_remote sample_local)) /\
             (href r ∉ deletedItems (diffRefs sample_remote sample_local))).
Proof.
  assert (Hr : single_valued sample_remote).
  { apply NoDup_single_valued. apply (bool_decide_unpack _). vm_compute. exact I. }
  assert (Hl : single_valued sample_local).
  { apply NoDup_single_valued. apply (bool_decide_unpack _). vm_compute. exact I. }
  split; [exact Hr|]. split; [exact Hl|].
  exact (proj1 (proj2 (proj2 (proj2 (diffRefs_partition sample_remote sample_local Hr Hl))))).
Defined.

(** C1 as stated fails when a list repeats an href with two etags: the local
    map keeps the last etag only, so a list diffed against itself reports the
    repeated href as updated. *)
Lemma diffRefs_identical_lists_not_empty :
  diffRefs [mkRef "/cal/a.ics" "1"; mkRef "/cal/a.ics" "2"]
           [mkRef "/cal/a.ics" "1"; mkRef "/cal/a.ics" "2"]
  = mkDiff [] ["/cal/a.ics"] [] /\
  mkDiff [] ["/cal/a.ics"] [] <> mkDiff [] [] [].
Proof. split; [vm_compute; reflexivity | discriminate]. Qed.

(** For all lists, repeated hrefs or not: the new hrefs are those found
    remotely and not locally, the deleted ones those found locally and not
    remotely. *)
Theorem diffRefs_new_deleted_all_lists remote local :
  (forall h, h ∈ newItems (diffRefs remote local) <->
             h ∈ hrefs remote /\ h ∉ hrefs local) /\
  (forall h, h ∈ deletedItems (diffRefs remote local) <->
             h ∈ hrefs local /\ h ∉ hrefs remote).
Proof. split; intros h; [apply diffRefs_new | apply diffRefs_deleted]. Qed.

End DiffRefs.

(** ** Incremental synchronisation *)

Section Sync.

Context (env : Env).
Implicit Types (url : string) (ctag : option string) (trace : list Request).

Lemma token_unchanged_spec ctag remoteCtag :
  token_unchanged ctag remoteCtag = true <-> token_absent_or_equal ctag remoteCtag.
Proof.
  unfold token_unchanged, token_absent_or_equal. destruct ctag as [c|].
  - rewrite orb_true_iff, String.eqb_eq. split.
    + intros [->|H]; [by right; left|].
      destruct remoteCtag; try discriminate.
      apply String.eqb_eq in H as ->. right; right. by exists s.
    + intros [H|[H|(c' & H & ->)]]; [discriminate | left; congruence |].
      injection H as ->. right. apply String.eqb_refl.
  - split; [by left | done].
Qed.

Lemma request_trace validateStatus req trace r trace' :
  request validateStatus req env trace = (r, trace') -> trace' = trace ++ [req].
Proof.
  unfold request. destruct (server env trace req) as [resp|m].
  - destruct (validateStatus (status resp)); by intros [= _ <-].
  - by intros [= _ <-].
Qed.

Lemma getCtag_trace url trace r trace' :
  getCtag url env trace = (r, trace') -> trace' = trace ++ [getCtag_request url].
Proof.
  unfold getCtag, mbind, Client_bind.
  destruct (request _ _ env trace) as [[e|resp] t] eqn:E;
    apply request_trace in E as ->.
  - by intros [= _ <-].
  - unfold decode, lift. by intros [= _ <-].
Qed.

Lemma getItemRefs_run url component trace :
  getItemRefs url component env trace
  = match server env trace (getItemRefs_request url component) with
    | Replied r =>
        if ok_2xx (status r)
        then (inr (refs_of_reply (xml_parse env (data r))),
              trace ++ [getItemRefs_request url component])
        else (inl (AxiosError (Some (status r)) (status_message (status r))),
              trace ++ [getItemRefs_request url component])
    | Failed m => (inl (AxiosError None m), trace ++ [getItemRefs_request url component])
    end.
Proof.
  unfold getItemRefs, mbind, Client_bind, request.
  destruct (server env trace _) as [r|m]; [|done].
  by destruct (ok_2xx (status r)).
Qed.

Lemma getItemRefs_trace url component trace r trace' :
  getItemRefs url component env trace = (r, trace') ->
  trace' = trace ++ [getItemRefs_request url component].
Proof.
  rewrite getItemRefs_run. destruct (server env trace _) as [resp|m].
  - destruct (ok_2xx (status resp)); by intros [= _ <-].
  - by intros [= _ <-].
Qed.

Lemma entries_have_hrefs (remote : list ItemRef) h :
  entries_have (map (fun i => (remote_href i, remote_etag i)) (map received remote)) h
  = Map_has (Map_new (entries remote)) h.
Proof.
  apply eq_true_iff_eq. rewrite Map_has_hrefs. unfold entries_have, hrefs.
  rewrite existsb_exists. split.
  - intros ([k v] & Hin & Hk). apply in_map_iff in Hin as (r' & Heq & Hin).
    apply in_map_iff in Hin as (r & <- & Hr). injection Heq as <- <-.
    simpl in Hk. apply String.eqb_eq in Hk as <-.
    apply list_elem_of_fmap. exists r. by rewrite list_elem_of_In.
  - intros (r & -> & Hr)%list_elem_of_fmap.
    exists (JStr (href r), JStr (etag r)). split; [|apply String.eqb_refl].
    apply in_map_iff. exists (received r). split; [done|].
    apply in_map. by rewrite <- list_elem_of_In.
Qed.

Lemma received_remote_loop localMap (remote : list ItemRef) news upds :
  fold_left
    (fun '(newItems, updatedItems) r =>
       if negb (local_has localMap (remote_href r))
       then (newItems ++ [remote_href r], updatedItems)
       else if local_get_differs localMap (remote_href r) (remote_etag r)
            then (newItems, updatedItems ++ [remote_href r])
            else (newItems, updatedItems))
    (map received remote) (map JStr news, map JStr upds)
  = (let '(n, u) :=
       fold_left
         (fun '(newItems, updatedItems) r =>
            if negb (Map_has localMap (href r)) then (newItems ++ [href r], updatedItems)
            else if Map_get_differs localMap (href r) (etag r)
                 then (newItems, updatedItems ++ [href r])
                 else (newItems, updatedItems))
         remote (news, upds) in
     (map JStr n, map JStr u)).
Proof.
  revert news upds. induction remote as [|r remote IH]; intros news upds; [done|].
  cbn [map fold_left received remote_href remote_etag local_has local_get_differs].
  destruct (Map_has localMap (href r)); cbn [negb].
  - destruct (Map_get_differs localMap (href r) (etag r)); [|apply IH].
    rewrite <- (IH news (upds ++ [href r])). by rewrite map_app.
  - rewrite <- (IH (news ++ [href r]) upds). by rewrite map_app.
Qed.

Lemma received_local_loop (remote local : list ItemRef) dels :
  fold_left
    (fun deletedItems l =>
       if negb (entries_have (map (fun i => (remote_href i, remote_etag i))
                                  (map received remote)) (href l))
       then deletedItems ++ [href l]
       else deletedItems)
    local dels
  = fold_left
      (fun deletedItems l =>
         if negb (Map_has (Map_new (entries remote)) (href l)) then deletedItems ++ [href l]
         else deletedItems)
      local dels.
Proof.
  revert dels. induction local as [|l local IH]; intros dels; [done|].
  cbn [fold_left]. by rewrite entries_have_hrefs, IH.
Qed.

(** On remote references that are text, [diffRefs] as the sync operations
    call it is [diffRefs]. *)
Lemma diffRefs_received_text (remote local : list ItemRef) :
  diffRefs_received (map received remote) local
  = mkReceivedDiff (map JStr (newItems (diffRefs remote local)))
                   (map JStr (updatedItems (diffRefs remote local)))
                   (deletedItems (diffRefs remote local)).
Proof.
  unfold diffRefs_received, diffRefs. fold (entries remote) (entries local).
  rewrite (received_remote_loop _ remote [] []), received_local_loop.
  by destruct (fold_left _ remote ([], [])) as [n u].
Qed.

(** C2: once the collection's token is fetched (by a PROPFIND of depth 0 to
    the calendar URL), a previous token that is absent, empty or equal to it
    makes [syncChanges] and [syncTodoChanges] return [changed = false] with
    the fetched token and three empty lists, having issued the token query
    only. Any other previous token makes them issue one more request, the
    REPORT of depth 1 to the calendar URL that asks for the etags of the
    VEVENT (of the VTODO) objects; on a reply in 200..299 they return
    [changed = true] with the fetched token and the lists [diffRefs] makes
    of the references of the reply (every entry with a truthy href and etag,
    whatever their kind) against the caller's; a reply outside 200..299 is
    thrown. On references that are text these lists are those of
    [diffRefs] on the two lists. *)
Theorem sync_short_circuit url ctag (local : list ItemRef) trace remoteCtag trace1 :
  getCtag url env trace = (inr remoteCtag, trace1) ->
  trace1 = trace ++ [mkRequest PROPFIND url [("Depth", "0")] PropfindGetctag] /\
  (token_absent_or_equal ctag remoteCtag ->
     syncChanges url ctag local env trace
       = (inr (mkSyncChanges false remoteCtag [] [] []), trace1) /\
     syncTodoChanges url ctag local env trace
       = (inr (mkSyncTodos false remoteCtag [] [] []), trace1)) /\
  (~ token_absent_or_equal ctag remoteCtag ->
     let qe := mkRequest REPORT url [("Depth", "1")] (CalendarQueryGetetag "VEVENT") in
     let qt := mkRequest REPORT url [("Depth", "1")] (CalendarQueryGetetag "VTODO") in
     (syncChanges url ctag local env trace).2 = trace1 ++ [qe] /\
     (syncTodoChanges url ctag local env trace).2 = trace1 ++ [qt] /\
     (forall r,
        server env trace1 qe = Replied r -> ok_2xx (status r) = true ->
        let d := diffRefs_received (refs_of_reply (xml_parse env (data r))) local in
        (syncChanges url ctag local env trace).1
          = inr (mkSyncChanges true remoteCtag
                   (received_new d) (received_updated d) (received_deleted d))) /\
     (forall r,
        server env trace1 qt = Replied r -> ok_2xx (status r) = true ->
        let d := diffRefs_received (refs_of_reply (xml_parse env (data r))) local in
        (syncTodoChanges url ctag local env trace).1
          = inr (mkSyncTodos true remoteCtag
                   (received_new d) (received_updated d) (received_deleted d))) /\
     (forall r,
        server env trace1 qe = Replied r -> ok_2xx (status r) = false ->
        (syncChanges url ctag local env trace).1
          = inl (AxiosError (Some (status r)) (status_message (status r)))) /\
     (forall r,
        server env trace1 qt = Replied r -> ok_2xx (status r) = false ->
        (syncTodoChanges url ctag local env trace).1
          = inl (AxiosError (Some (status r)) (status_message (status r)))) /\
     (forall remote : list ItemRef,
        received_new (diffRefs_received (map received remote) local)
          = map JStr (newItems (diffRefs remote local)) /\
        received_updated (diffRefs_received (map received remote) local)
          = map JStr (updatedItems (diffRefs remote local)) /\
        received_deleted (diffRefs_received (map received remote) local)
          = deletedItems (diffRefs remote local))).
Proof.
  intros Hctag. split; [by eapply getCtag_trace|]. split.
  - intros Hshort. apply token_unchanged_spec in Hshort.
    unfold syncChanges, syncTodoChanges, mbind, Client_bind.
    by rewrite Hctag, Hshort.
  - intros Hlong qe qt.
    assert (token_unchanged ctag remoteCtag = false) as Hb.
    { destruct (token_unchanged ctag remoteCtag) eqn:E; [|done].
      by apply token_unchanged_spec in E. }
    assert (Hevents : syncChanges url ctag local env trace
              = match getItemRefs url "VEVENT" env trace1 with
                | (inr refs, t) =>
                    (inr (mkSyncChanges true remoteCtag
                            (received_new (diffRefs_received refs local))
                            (received_updated (diffRefs_received refs local))
                            (received_deleted (diffRefs_received refs local))), t)
                | (inl e, t) => (inl e, t)
                end).
    { unfold syncChanges, mbind, Client_bind. rewrite Hctag, Hb.
      by destruct (getItemRefs url "VEVENT" env trace1) as [[e|refs] t]. }
    assert (Htodos : syncTodoChanges url ctag local env trace
              = match getItemRefs url "VTODO" env trace1 with
                | (inr refs, t) =>
                    (inr (mkSyncTodos true remoteCtag
                            (received_new (diffRefs_received refs local))
                            (received_updated (diffRefs_received refs local))
                            (received_deleted (diffRefs_received refs local))), t)
                | (inl e, t) => (inl e, t)
                end).
    { unfold syncTodoChanges, mbind, Client_bind. rewrite Hctag, Hb.
      by destruct (getItemRefs url "VTODO" env trace1) as [[e|refs] t]. }
    rewrite Hevents, Htodos, !getItemRefs_run.
    change (getItemRefs_request url "VEVENT") with qe.
    change (getItemRefs_request url "VTODO") with qt.
    repeat split.
    + destruct (server env trace1 qe) as [r|m]; [|done]. by destruct (ok_2xx (status r)).
    + destruct (server env trace1 qt) as [r|m]; [|done]. by destruct (ok_2xx (status r)).
    + intros r -> ->. done.
    + intros r -> ->. done.
    + intros r -> ->. done.
    + intros r -> ->. done.
    + by rewrite diffRefs_received_text.
    + by rewrite diffRefs_received_text.
    + by rewrite diffRefs_received_text.
Qed.

End Sync.

(** ** Conditional writes *)

Section Mutations.

Context (env : Env) {T : Type}.
Implicit Types (item data : Item T) (buildFn : Item T -> string -> JsError + string).
Implicit Types (kind : ItemType) (trace : list Request).

Lemma falsy_Some_false (o : option string) s :
  o = Some s -> s <> "" -> falsy o = false.
Proof. intros -> Hs. simpl. by apply String.eqb_neq. Qed.

Lemma no_validator_headers etag :
  no_validator etag ->
  updateItem_headers etag = [("Content-Type", "text/calendar; charset=utf-8")].
Proof.
  intros [->|(s & -> & Hs)]; [done|].
  unfold updateItem_headers; simpl. by rewrite Hs.
Qed.

(** The requests [updateItem] issues once its arguments are accepted: the
    write, then the token query when the write went through. *)
Lemma updateItem_requests url item buildFn kind trace uid href ics :
  item_uid item = Some uid -> uid <> "" ->
  item_href item = Some href -> href <> "" ->
  buildFn item uid = inr ics ->
  exists r rest,
    updateItem url item buildFn kind env trace
      = (r, trace ++ updateItem_request href (item_etag item) ics :: rest) /\
    (rest = [] \/
     rest = [getCtag_request (if endsWith url "/" then slice_0_m1 url else url)]).
Proof.
  intros Hu Hune Hh Hhne Hb. unfold updateItem.
  rewrite (falsy_Some_false _ _ Hu Hune), (falsy_Some_false _ _ Hh Hhne); simpl.
  rewrite Hu, Hh; simpl.
  unfold mbind at 1, Client_bind at 1, lift at 1. rewrite Hb.
  unfold try_catch, mbind, Client_bind.
  destruct (request _ _ env trace) as [[e|resp] t] eqn:E;
    apply request_trace in E as ->.
  - destruct (is_precondition_failed e); unfold throw;
      eexists _, []; (split; [reflexivity | by left]).
  - destruct (getCtag _ env _) as [[e|c] t] eqn:E; apply getCtag_trace in E as ->.
    + destruct (is_precondition_failed e); unfold throw;
        eexists _, [_]; (split; [by rewrite <- app_assoc | by right]).
    + eexists _, [_]. unfold mret, Client_ret. split; [by rewrite <- app_assoc | by right].
Qed.

(** C10: an update whose etag is absent, or empty after stripping a leading
    weak marker and trimming, issues its write with the content type as the
    only header (no If-Match), followed at most by the token query. *)
Theorem update_without_validator_unconditional
    url item buildFn kind trace uid href ics :
  item_uid item = Some uid -> uid <> "" ->
  item_href item = Some href -> href <> "" ->
  buildFn item uid = inr ics ->
  no_validator (item_etag item) ->
  exists r rest,
    updateItem url item buildFn kind env trace
      = (r, trace ++ mkRequest PUT href
                       [("Content-Type", "text/calendar; charset=utf-8")]
                       (CalendarObject ics) :: rest) /\
    (rest = [] \/
     rest = [getCtag_request (if endsWith url "/" then slice_0_m1 url else url)]).
Proof.
  intros Hu Hune Hh Hhne Hb Hnv.
  destruct (updateItem_requests url item buildFn kind trace uid href ics)
    as (r & rest & Hrun & Hrest); try done.
  exists r, rest. split; [|done].
  rewrite Hrun. unfold updateItem_request. by rewrite (no_validator_headers _ Hnv).
Qed.

(** The condition header of an update, by what is left of the etag once a
    leading weak marker is stripped and the rest trimmed. *)
Lemma updateItem_headers_stripped s :
  updateItem_headers (Some s)
  = ("Content-Type", "text/calendar; charset=utf-8")
      :: (if String.eqb (trim (strip_weak_prefix s)) ""
             || startsWith (trim (strip_weak_prefix s)) "W/"
          then []
          else [("If-Match", trim (strip_weak_prefix s))]).
Proof.
  unfold updateItem_headers. cbn [fmap option_fmap option_map isWeak].
  destruct (startsWith (trim (strip_weak_prefix s)) "W/") eqn:Ew.
  - rewrite orb_true_r. by rewrite orb_true_r.
  - assert (startsWith (trim (strip_weak_prefix s)) ("W/" +:+ dquote) = false) as ->.
    { destruct (startsWith _ ("W/" +:+ dquote)) eqn:E; [|done].
      apply startsWith_iff in E as [t Ht].
      assert (startsWith (trim (strip_weak_prefix s)) "W/" = true) as Hc; [|congruence].
      apply startsWith_iff. exists (dquote +:+ t). by rewrite Ht. }
    cbn [orb falsy default]. rewrite orb_false_r.
    by destruct (String.eqb (trim (strip_weak_prefix s)) "").
Qed.

(** C4 (as amended): an update whose stored etag is weak (begins with the
    marker W/) issues its write with If-Match set to the etag without that
    marker, trimmed; the write carries no If-Match only when what is left of
    the etag is empty or begins with W/ again. *)
Theorem update_weak_etag_condition url item buildFn kind trace uid href ics opaque :
  item_uid item = Some uid -> uid <> "" ->
  item_href item = Some href -> href <> "" ->
  buildFn item uid = inr ics ->
  item_etag item = Some ("W/" +:+ opaque) ->
  exists r rest,
    updateItem url item buildFn kind env trace
      = (r, trace ++ mkRequest PUT href
                       (("Content-Type", "text/calendar; charset=utf-8")
                          :: (if String.eqb (trim opaque) "" || startsWith (trim opaque) "W/"
                              then []
                              else [("If-Match", trim opaque)]))
                       (CalendarObject ics) :: rest) /\
    (rest = [] \/
     rest = [getCtag_request (if endsWith url "/" then slice_0_m1 url else url)]).
Proof.
  intros Hu Hune Hh Hhne Hb He.
  destruct (updateItem_requests url item buildFn kind trace uid href ics)
    as (r & rest & Hrun & Hrest); try done.
  exists r, rest. split; [|done].
  rewrite Hrun, He. unfold updateItem_request.
  by rewrite updateItem_headers_stripped, strip_weak_prefix_weak.
Qed.

(** The two etags the specification tells apart. *)
Example isWeak_examples :
  isWeak (Some ("W/" +:+ dquote +:+ "abc123" +:+ dquote)) = true /\
  isWeak (Some (dquote +:+ "abc123" +:+ dquote)) = false /\
  isWeak None = false.
Proof. repeat split. Qed.

(** A delete issues one DELETE, to the calendar URL (less its trailing
    slash) followed by [/{uid}.ics], on the condition that the etag matches,
    any etag when none is given; it returns on a 204 and throws on every
    other reply and when no reply comes. *)
Theorem deleteItem_semantics calendarUrl uid kind etag trace :
  req_method (delete_write calendarUrl uid etag) = DELETE /\
  header "If-Match" (req_headers (delete_write calendarUrl uid etag)) = default "*" etag /\
  (deleteItem calendarUrl uid kind etag env trace).2
    = trace ++ [delete_write calendarUrl uid etag] /\
  (forall r, server env trace (delete_write calendarUrl uid etag) = Replied r ->
     status r = 204%Z ->
     (deleteItem calendarUrl uid kind etag env trace).1 = inr tt) /\
  (forall r, server env trace (delete_write calendarUrl uid etag) = Replied r ->
     status r <> 204%Z ->
     exists e, (deleteItem calendarUrl uid kind etag env trace).1 = inl e) /\
  (forall m, server env trace (delete_write calendarUrl uid etag) = Failed m ->
     exists e, (deleteItem calendarUrl uid kind etag env trace).1 = inl e).
Proof.
  split; [done|]. split; [done|].
  assert (deleteItem calendarUrl uid kind etag env trace
          = match server env trace (delete_write calendarUrl uid etag) with
            | Replied r =>
                if Z.eqb 204 (status r)
                then (inr tt, trace ++ [delete_write calendarUrl uid etag])
                else (inl (Error ("Failed to delete " +:+ itemType_name kind +:+ ": "
                                    +:+ error_toString
                                          (AxiosError (Some (status r))
                                             (status_message (status r))))),
                      trace ++ [delete_write calendarUrl uid etag])
            | Failed m =>
                (inl (Error ("Failed to delete " +:+ itemType_name kind +:+ ": "
                               +:+ error_toString (AxiosError None m))),
                 trace ++ [delete_write calendarUrl uid etag])
            end) as ->.
  { unfold deleteItem, delete_write, try_catch, mbind, Client_bind, request.
    destruct (server env trace _) as [r|m]; [destruct (Z.eqb 204 (status r))|]; done. }
  destruct (server env trace (delete_write calendarUrl uid etag)) as [r|m].
  - destruct (Z.eqb_spec 204 (status r)) as [Hs|Hs].
    + split; [done|]. split; [done|]. split; [|done]. by intros r' [= <-].
    + split; [done|]. split; [intros r' [= <-]; congruence|]. split; [|done].
      intros r' _ _. eauto.
  - split; [done|]. split; [done|]. split; [done|]. intros m' _. eauto.
Qed.

End Mutations.

(** ** Creating an item *)

Section Create.

Context (env : Env) {T : Type}.
Implicit Types (data : Item T) (buildFn : Item T -> string -> JsError + string).
Implicit Types (kind : ItemType) (trace : list Request).

Lemma collision_message_capitalize kind :
  capitalize (itemType_name kind) +:+ " with the specified uid already exists."
  = collision_message kind.
Proof. by destruct kind. Qed.

(** A calendar URL loses the slash it ends in, and no other character. *)
Lemma without_trailing_slash_slash base :
  without_trailing_slash (base +:+ "/") = base.
Proof. unfold without_trailing_slash. by rewrite endsWith_slash, slice_0_m1_snoc. Qed.

Lemma without_trailing_slash_other calendarUrl :
  endsWith calendarUrl "/" = false -> without_trailing_slash calendarUrl = calendarUrl.
Proof. unfold without_trailing_slash. by intros ->. Qed.

Lemma createItem_unfold calendarUrl data buildFn kind trace ics :
  calendarUrl <> "" ->
  buildFn data (effective_uid env data) = inr ics ->
  createItem calendarUrl data buildFn kind env trace =
  try_catch
    (response ← request created (create_write env calendarUrl data ics);
     newCtag ← getCtag (without_trailing_slash calendarUrl);
     mret (mkMutationResult (effective_uid env data)
             ((if endsWith (without_trailing_slash calendarUrl) "/"
               then without_trailing_slash calendarUrl
               else without_trailing_slash calendarUrl +:+ "/")
                +:+ effective_uid env data +:+ ".ics")
             (header "etag" (headers response)) newCtag))
    (fun error =>
       if is_precondition_failed error then
         throw (Error (capitalize (itemType_name kind)
                         +:+ " with the specified uid already exists."))
       else
         throw (Error ("Failed to create " +:+ itemType_name kind +:+ ": "
                         +:+ error_toString error)))
    env trace.
Proof.
  intros Hne Hb. unfold createItem.
  apply String.eqb_neq in Hne. rewrite Hne.
  unfold mbind at 1, Client_bind at 1.
  assert ((if falsy (item_uid data) then uuid else mret (default "" (item_uid data)))
            env trace = (inr (effective_uid env data), trace)) as ->.
  { unfold effective_uid. by destruct (falsy (item_uid data)). }
  unfold mbind at 1, Client_bind at 1, lift at 1.
  fold (without_trailing_slash calendarUrl). by rewrite Hb.
Qed.

(** C5 (as amended): a create with a non-empty calendar URL writes to the
    calendar URL, less its trailing slash if it has one, followed by
    [/{uid}.ics], the uid being the item's own or a generated one; the write
    is a PUT with [If-None-Match: *]; a reply other than 201 and 204 makes
    the create fail, a 412 with the collision message of the item kind; after
    a 201 or a 204 the create returns as soon as the token query succeeds. *)
Theorem createItem_semantics calendarUrl data buildFn kind trace ics :
  calendarUrl <> "" ->
  buildFn data (effective_uid env data) = inr ics ->
  req_method (create_write env calendarUrl data ics) = PUT /\
  req_url (create_write env calendarUrl data ics)
    = without_trailing_slash calendarUrl +:+ "/" +:+ effective_uid env data +:+ ".ics" /\
  header "If-None-Match" (req_headers (create_write env calendarUrl data ics)) = "*" /\
  (exists rest,
     (createItem calendarUrl data buildFn kind env trace).2
       = trace ++ create_write env calendarUrl data ics :: rest) /\
  (forall r, server env trace (create_write env calendarUrl data ics) = Replied r ->
     status r = 412%Z ->
     createItem calendarUrl data buildFn kind env trace
       = (inl (Error (collision_message kind)),
          trace ++ [create_write env calendarUrl data ics])) /\
  (forall r, server env trace (create_write env calendarUrl data ics) = Replied r ->
     status r <> 201%Z -> status r <> 204%Z ->
     exists e, createItem calendarUrl data buildFn kind env trace
       = (inl e, trace ++ [create_write env calendarUrl data ics])) /\
  (forall r newCtag trace2,
     server env trace (create_write env calendarUrl data ics) = Replied r ->
     status r = 201%Z \/ status r = 204%Z ->
     getCtag (without_trailing_slash calendarUrl) env
       (trace ++ [create_write env calendarUrl data ics]) = (inr newCtag, trace2) ->
     exists result,
       createItem calendarUrl data buildFn kind env trace = (inr result, trace2) /\
       res_uid result = effective_uid env data /\
       res_etag result = header "etag" (headers r) /\
       res_newCtag result = newCtag).
Proof.
  intros Hne Hb. split; [done|]. split; [done|]. split; [done|].
  rewrite (createItem_unfold _ _ _ _ _ _ Hne Hb).
  unfold try_catch, mbind, Client_bind, request.
  split; [|split; [|split]].
  - destruct (server env trace _) as [r|m].
    + destruct (created (status r)).
      * destruct (getCtag _ env _) as [[e|c] t] eqn:E; apply getCtag_trace in E as ->.
        -- exists [getCtag_request (without_trailing_slash calendarUrl)].
           rewrite <- app_assoc. by destruct (is_precondition_failed e).
        -- exists [getCtag_request (without_trailing_slash calendarUrl)].
           by rewrite <- app_assoc.
      * exists []. by destruct (is_precondition_failed _).
    + exists []. done.
  - intros r -> Hs. unfold created. rewrite Hs. simpl.
    by rewrite collision_message_capitalize.
  - intros r -> H1 H2. unfold created.
    apply Z.eqb_neq in H1, H2. rewrite H1, H2. simpl.
    destruct (Z.eqb (status r) 412); unfold throw; eauto.
  - intros r c t2 -> Hs Hc.
    assert (created (status r) = true) as ->.
    { unfold created. destruct Hs as [-> | ->]; done. }
    rewrite Hc. eexists. split; [reflexivity|]. done.
Qed.

End Create.

(** ** A sample server and sample runs *)

Lemma sync_short_circuit_witness :
  syncChanges "/cal/" (Some "abc") [] sample_env []
    = (inr (mkSyncChanges false (JStr "abc") [] [] []),
       [mkRequest PROPFIND "/cal/" [("Depth", "0")] PropfindGetctag]) /\
  (syncChanges "/cal/" (Some "old") sample_local sample_env []).1
    = inr (mkSyncChanges true (JStr "abc")
             [JStr "/cal/c.ics"; JStr "/cal/e.ics"] [JStr "/cal/b.ics"] ["/cal/d.ics"]).
Proof.
  split.
  - refine (proj1 (proj1 (proj2
      (sync_short_circuit sample_env "/cal/" (Some "abc") [] [] (JStr "abc") _ eq_refl)) _)).
    right; right. by exists "abc".
  - refine (proj1 (proj2 (proj2 (proj2 (proj2
      (sync_short_circuit sample_env "/cal/" (Some "old") sample_local []
         (JStr "abc") _ eq_refl)) _))) _ eq_refl eq_refl).
    intros [H|[H|(c & H & H')]]; congruence.
Defined.

Lemma update_without_validator_witness :
  exists r rest,
    updateItem "/cal/" (sample_item (Some "W/  ")) sample_build event sample_env []
      = (r, [] ++ mkRequest PUT "/cal/u1.ics"
                    [("Content-Type", "text/calendar; charset=utf-8")]
                    (CalendarObject "BEGIN:VCALENDAR/u1/SUMMARY:Standup") :: rest) /\
    (rest = [] \/
     rest = [getCtag_request (if endsWith "/cal/" "/" then slice_0_m1 "/cal/" else "/cal/")]).
Proof.
  apply (update_without_validator_unconditional sample_env "/cal/"
           (sample_item (Some "W/  ")) sample_build event [] "u1" "/cal/u1.ics"
           "BEGIN:VCALENDAR/u1/SUMMARY:Standup");
    [reflexivity | discriminate | reflexivity | discriminate | reflexivity |].
  right. exists "W/  ". split; reflexivity.
Defined.

Lemma createItem_semantics_witness :
  createItem "/cal/" (sample_item None) sample_build todo sample_env
    [createItem_request "/cal/u1.ics" "BEGIN:VCALENDAR/u1/SUMMARY:Standup"]
  = (inl (Error "Todo with the specified uid already exists."),
     [createItem_request "/cal/u1.ics" "BEGIN:VCALENDAR/u1/SUMMARY:Standup";
      createItem_request "/cal/u1.ics" "BEGIN:VCALENDAR/u1/SUMMARY:Standup"]).
Proof.
  refine (proj1 (proj2 (proj2 (proj2 (proj2
    (createItem_semantics sample_env "/cal/" (sample_item None) sample_build todo
       [createItem_request "/cal/u1.ics" "BEGIN:VCALENDAR/u1/SUMMARY:Standup"]
       "BEGIN:VCALENDAR/u1/SUMMARY:Standup" _ eq_refl))))) _ eq_refl eq_refl).
  discriminate.
Defined.

(** C5 as stated fails for a calendar URL that ends in a slash: the write
    goes to the URL without that slash, followed by [/{uid}.ics]. *)
Lemma createItem_trailing_slash :
  (createItem "/cal/" (sample_item None) sample_build event sample_env []).2
    = [createItem_request "/cal/u1.ics" "BEGIN:VCALENDAR/u1/SUMMARY:Standup";
       getCtag_request "/cal"] /\
  "/cal/u1.ics" <> "/cal/" +:+ "/" +:+ "u1" +:+ ".ics".
Proof. split; [vm_compute; reflexivity | discriminate]. Qed.

Lemma update_weak_etag_witness :
  exists r rest,
    updateItem "/cal/" (sample_item (Some ("W/" +:+ dquote +:+ "abc123" +:+ dquote)))
      sample_build event sample_env []
      = (r, [] ++ mkRequest PUT "/cal/u1.ics"
                    (("Content-Type", "text/calendar; charset=utf-8")
                       :: (if String.eqb (trim (dquote +:+ "abc123" +:+ dquote)) ""
                              || startsWith (trim (dquote +:+ "abc123" +:+ dquote)) "W/"
                           then []
                           else [("If-Match", trim (dquote +:+ "abc123" +:+ dquote))]))
                    (CalendarObject "BEGIN:VCALENDAR/u1/SUMMARY:Standup") :: rest) /\
    (rest = [] \/
     rest = [getCtag_request (if endsWith "/cal/" "/" then slice_0_m1 "/cal/" else "/cal/")]).
Proof.
  apply (update_weak_etag_condition sample_env "/cal/"
           (sample_item (Some ("W/" +:+ dquote +:+ "abc123" +:+ dquote)))
           sample_build event [] "u1" "/cal/u1.ics"
           "BEGIN:VCALENDAR/u1/SUMMARY:Standup" (dquote +:+ "abc123" +:+ dquote));
    [reflexivity | discriminate | reflexivity | discriminate | reflexivity | reflexivity].
Defined.

(** C4 as stated fails: a stored weak etag is sent as If-Match, with its
    marker stripped. *)
Lemma updateItem_weak_etag_sends_If_Match :
  updateItem_headers (Some ("W/" +:+ dquote +:+ "abc123" +:+ dquote))
    = [("Content-Type", "text/calendar; charset=utf-8");
       ("If-Match", dquote +:+ "abc123" +:+ dquote)] /\
  (updateItem "/cal/" (sample_item (Some ("W/" +:+ dquote +:+ "abc123" +:+ dquote)))
     sample_build event sample_env []).2
    = [mkRequest PUT "/cal/u1.ics"
         [("Content-Type", "text/calendar; charset=utf-8");
          ("If-Match", dquote +:+ "abc123" +:+ dquote)]
         (CalendarObject "BEGIN:VCALENDAR/u1/SUMMARY:Standup");
       getCtag_request "/cal"].
Proof. split; vm_compute; reflexivity. Qed.

(** ** Path normalisation *)

(** C7: a path that starts with the base URL's path, the base path not being
    the root, is returned without that prefix and with a leading slash (the
    rest itself when it starts with a slash, the rest after a slash
    otherwise); every other path is returned unchanged. *)
Theorem resolveUrl_normalizes basePath path :
  (forall rest, path = basePath +:+ rest -> basePath <> "/" ->
     resolveUrl basePath path
       = (if startsWith rest "/" then rest else "/" +:+ rest) /\
     startsWith (resolveUrl basePath path) "/" = true) /\
  ((~ exists rest, path = basePath +:+ rest) \/ basePath = "/" ->
     resolveUrl basePath path = path).
Proof.
  unfold resolveUrl. split.
  - intros rest -> Hroot. rewrite startsWith_app.
    apply String.eqb_neq in Hroot. rewrite Hroot. cbn [negb andb].
    rewrite substring_from_app.
    destruct (startsWith rest "/") eqn:E; [done|]. split; [done|].
    apply startsWith_iff. by exists rest.
  - intros [Hno | ->].
    + destruct (startsWith path basePath) eqn:E; [|done].
      apply startsWith_iff in E. contradiction.
    + by rewrite andb_false_r.
Qed.

Example resolveUrl_mounted :
  resolveUrl "/dav" "/dav/calendars/user/" = "/calendars/user/" /\
  resolveUrl "/dav/" "/dav/calendars/user/" = "/calendars/user/" /\
  resolveUrl "/" "/calendars/user/" = "/calendars/user/" /\
  resolveUrl "/dav" "/other/user/" = "/other/user/".
Proof. repeat split. Qed.


(** ** Listing calendars *)

Section Includes.

Implicit Types (s p : string).

Lemma includes_iff s p :
  includes s p = true <-> exists pre post, s = pre +:+ p +:+ post.
Proof.
  induction s as [|c s IH]; simpl; rewrite orb_true_iff.
  - rewrite startsWith_iff. split.
    + intros [[r Hr]|?]; [|done]. by exists "", r.
    + intros (pre & post & H). left. destruct pre; [by exists post|done].
  - rewrite startsWith_iff, IH. split.
    + intros [[r Hr]|(pre & post & ->)]; [by exists "", r|].
      by exists (String c pre), post.
    + intros ([|d pre] & post & H); simpl in H.
      * left. by exists post.
      * right. injection H as -> ->. by exists pre, post.
Qed.

Lemma toLowerCase_app s1 s2 :
  toLowerCase (s1 +:+ s2) = toLowerCase s1 +:+ toLowerCase s2.
Proof. induction s1 as [|c s1 IH]; simpl; [done | by rewrite IH]. Qed.

Lemma toLowerCase_app_inv s a b :
  toLowerCase s = a +:+ b ->
  exists s1 s2, s = s1 +:+ s2 /\ toLowerCase s1 = a /\ toLowerCase s2 = b.
Proof.
  revert s. induction a as [|c a IH]; intros s H; simpl in H.
  - by exists "", s.
  - destruct s as [|d s]; [done|]. simpl in H. injection H as Hc H.
    destruct (IH s H) as (s1 & s2 & -> & <- & <-).
    exists (String d s1), s2. simpl. by rewrite Hc.
Qed.

Lemma includes_200_ok st :
  includes (toLowerCase st) "200 ok" = true <-> contains_200_ok st.
Proof.
  rewrite includes_iff. unfold contains_200_ok. split.
  - intros (a & b & H).
    apply toLowerCase_app_inv in H as (pre & rest & -> & _ & H).
    apply toLowerCase_app_inv in H as (mid & post & -> & H & _).
    by exists pre, mid, post.
  - intros (pre & mid & post & -> & H).
    exists (toLowerCase pre), (toLowerCase post).
    by rewrite !toLowerCase_app, H.
Qed.

End Includes.

Section ParseCalendars.

Context (decode : string -> JVal) (resolve : JVal -> string -> JsError + string).
Implicit Types (res block comp : JVal) (baseUrl : option string).

Lemma is_ok_propstat_iff block : is_ok_propstat block = true <-> status_succeeded block.
Proof.
  unfold is_ok_propstat, status_succeeded.
  destruct (prop_opt block "status") as [| | |st| |] eqn:E;
    try (split; [done | by intros (st' & ? & _)]).
  rewrite includes_200_ok. split; [by exists st | by intros (st' & [= ->] & ?)].
Qed.

Lemma find_first {A} (f : A -> bool) (l : list A) :
  match List.find f l with
  | Some x => exists before after,
      l = before ++ x :: after /\ f x = true /\ Forall (fun b => f b = false) before
  | None => Forall (fun b => f b = false) l
  end.
Proof.
  induction l as [|a l IH]; simpl; [done|].
  destruct (f a) eqn:E.
  - by exists [], l.
  - destruct (List.find f l) as [x|].
    + destruct IH as (before & after & -> & Hx & Hb).
      exists (a :: before), after. split; [done|]. split; [done|]. by constructor.
    + by constructor.
Qed.

Lemma find_selected res :
  match List.find is_ok_propstat (toArray (prop_opt res "propstat")) with
  | Some block => selected_block res block
  | None => ~ exists block, selected_block res block
  end.
Proof.
  pose proof (find_first is_ok_propstat (toArray (prop_opt res "propstat"))) as H.
  destruct (List.find _ _) as [block|].
  - destruct H as (before & after & Hl & Hx & Hb).
    exists before, after. split; [done|]. split; [by apply is_ok_propstat_iff|].
    eapply Forall_impl; [exact Hb|]. intros b Hf Hs.
    apply is_ok_propstat_iff in Hs. congruence.
  - intros (block & before & after & Hl & Hx & _).
    rewrite Hl in H. apply Forall_app in H as [_ H]. apply Forall_cons in H as [H _].
    apply is_ok_propstat_iff in Hx. congruence.
Qed.

Lemma selected_block_unique res b1 b2 :
  selected_block res b1 -> selected_block res b2 -> b1 = b2.
Proof.
  intros H1 H2. pose proof (find_selected res) as H.
  assert (forall b, selected_block res b ->
            List.find is_ok_propstat (toArray (prop_opt res "propstat")) = Some b) as Hf.
  { clear. intros b (before & after & -> & Hx & Hb).
    induction before as [|a before IH]; simpl.
    - apply is_ok_propstat_iff in Hx. by rewrite Hx.
    - apply Forall_cons in Hb as [Ha Hb].
      destruct (is_ok_propstat a) eqn:E; [|by apply IH].
      apply is_ok_propstat_iff in E. contradiction. }
  apply Hf in H1, H2. congruence.
Qed.

Lemma component_names_elem compArray names k :
  component_names compArray = inr names ->
  JStr k ∈ names <-> exists comp, comp ∈ compArray /\ prop_opt comp "name" = JStr k.
Proof.
  revert names. induction compArray as [|c rest IH]; intros names; simpl.
  - intros [= <-]. split; [by intros ?%elem_of_nil | by intros (? & ?%elem_of_nil & _)].
  - destruct (prop c "name") as [e|name] eqn:E; [done|].
    destruct (component_names rest) as [e|names'] eqn:E'; [done|].
    intros [= <-]. rewrite elem_of_cons, (IH names' eq_refl).
    assert (name = prop_opt c "name") as ->.
    { unfold prop in E. destruct c; congruence. }
    split.
    + intros [H|(comp & Hin & Hn)]; [exists c | exists comp]; split; try done.
      * by left.
      * by right.
    + intros (comp & [->|Hin]%elem_of_cons & Hn); [by left | right; by exists comp].
Qed.

Lemma known_names_elem names k :
  k ∈ known_names names <-> k ∈ known_components /\ JStr k ∈ names.
Proof.
  induction names as [|n names IH]; cbn [known_names].
  - split; [by intros ?%elem_of_nil | by intros [_ ?%elem_of_nil]].
  - assert (forall s, is_known (JStr s) = true <-> s ∈ known_components) as Hk.
    { intros s. unfold is_known. rewrite existsb_exists. split.
      - intros (x & Hin & ->%String.eqb_eq). by apply list_elem_of_In.
      - intros Hin. exists s. split; [by apply list_elem_of_In | apply String.eqb_refl]. }
    rewrite elem_of_cons.
    destruct n as [| | |s| |]; try (rewrite IH; split; [tauto | intros [? [[=]|?]]; tauto]).
    destruct (is_known (JStr s)) eqn:E.
    + rewrite elem_of_cons, IH. apply Hk in E. split.
      * intros [->|[? ?]]; split; auto.
      * intros [? [[= ->]|?]]; auto.
    + rewrite IH. split; [tauto|]. intros [Hin [[= ->]|?]]; [|tauto].
      apply Hk in Hin. congruence.
Qed.

Lemma supports_iff l k : supports l k = true <-> k ∈ l.
Proof.
  unfold supports. rewrite existsb_exists. split.
  - intros (x & Hin & ->%String.eqb_eq). by apply list_elem_of_In.
  - intros Hin. exists k. split; [by apply list_elem_of_In | apply String.eqb_refl].
Qed.

Lemma parseCalendars_entry_ok baseUrl res l :
  parseCalendars_entry resolve baseUrl res = inr l ->
  (l = [] /\ skipped res) \/ (exists c, l = [c] /\ listed resolve baseUrl res c).
Proof.
  unfold parseCalendars_entry. pose proof (find_selected res) as Hsel.
  destruct (List.find _ _) as [block|].
  2:{ intros [= <-]. left. split; [done | by left]. }
  fold (reported_components block).
  destruct (component_names (reported_components block)) as [e|names] eqn:En; [done|].
  assert (Hsup : forall k, k ∈ known_names names <-> k ∈ known_components /\ reports block k).
  { intros k. rewrite known_names_elem. unfold reports.
    by rewrite (component_names_elem _ _ k En). }
  destruct (supports (known_names names) "VEVENT") eqn:Ev;
  destruct (supports (known_names names) "VTODO") eqn:Et; cbn [negb andb].
  4:{ intros [= <-]. left. split; [done|]. right. exists block. split; [done|].
      split; intros Hr.
      - assert (supports (known_names names) "VEVENT" = true); [|congruence].
        apply supports_iff, Hsup. split; [|done]. by apply (bool_decide_unpack _).
      - assert (supports (known_names names) "VTODO" = true); [|congruence].
        apply supports_iff, Hsup. split; [|done]. by apply (bool_decide_unpack _). }
  all: destruct (resolve_href _ _ _) as [e|u] eqn:Eu; [done|].
  all: intros [= <-]; right; eexists; split; [reflexivity|].
  all: exists block; cbn [supportedComponents displayName ctag url].
  all: split; [done|]; split; [exact Hsup|]; split; [|done].
  - left. by apply supports_iff.
  - left. by apply supports_iff.
  - right. by apply supports_iff.
Qed.

Lemma component_names_throws compArray e :
  component_names compArray = inl e -> JUndef ∈ compArray.
Proof.
  induction compArray as [|c rest IH]; simpl; [done|].
  destruct c; simpl; try (destruct (component_names rest); [right; by apply IH | done]).
  intros _. by left.
Qed.

(** An entry throws only where the code reads the name of a component that
    is [undefined], or resolves the href against a base URL. *)
Lemma parseCalendars_entry_throws baseUrl res e :
  parseCalendars_entry resolve baseUrl res = inl e ->
  exists block,
    selected_block res block /\
    (JUndef ∈ reported_components block \/ falsy baseUrl = false).
Proof.
  unfold parseCalendars_entry. pose proof (find_selected res) as Hsel.
  destruct (List.find _ _) as [block|]; [|done].
  fold (reported_components block). intros He. exists block. split; [done|].
  destruct (component_names (reported_components block)) as [e'|names] eqn:En.
  - left. by eapply component_names_throws.
  - right. destruct (_ && _); [done|]. unfold resolve_href in He.
    by destruct (falsy baseUrl).
Qed.

Lemma parseCalendars_loop_ok baseUrl responses calendars result :
  parseCalendars_loop resolve baseUrl responses calendars = inr result ->
  exists pushed,
    result = calendars ++ concat pushed /\
    Forall2 (fun res l => parseCalendars_entry resolve baseUrl res = inr l)
            responses pushed.
Proof.
  revert calendars. induction responses as [|res rest IH]; intros calendars; simpl.
  - intros [= <-]. exists []. by rewrite app_nil_r.
  - destruct (parseCalendars_entry resolve baseUrl res) as [e|l] eqn:E; [done|].
    intros (pushed & -> & HF)%IH. exists (l :: pushed). simpl.
    split; [by rewrite app_assoc | by constructor].
Qed.

Lemma parseCalendars_loop_throws baseUrl responses calendars e :
  parseCalendars_loop resolve baseUrl responses calendars = inl e ->
  exists res, res ∈ responses /\ parseCalendars_entry resolve baseUrl res = inl e.
Proof.
  revert calendars. induction responses as [|res rest IH]; intros calendars; simpl; [done|].
  destruct (parseCalendars_entry resolve baseUrl res) as [e'|l] eqn:E.
  - intros [= ->]. exists res. split; [by left | done].
  - intros (r & Hin & He)%IH. exists r. split; [by right | done].
Qed.

(** C6: the calendars [parseCalendars] returns are, in order, those of the
    response entries that are listed: an entry without a block whose status
    contains "200 ok" (letter case apart) is passed over, and so is an entry
    whose first such block reports neither VEVENT nor VTODO; every other
    entry gives one calendar, whose components are the known kinds among the
    reported ones. The parse throws only on an entry with such a block,
    where it reads the name of a component that is [undefined] or resolves
    the href against a base URL: without a base URL, and on a document in
    which no reported component is [undefined], it returns. *)
Theorem parseCalendars_filter responseData baseUrl :
  (forall calendars,
     parseCalendars decode resolve responseData baseUrl = inr calendars ->
     exists pushed,
       calendars = concat pushed /\
       Forall2 (fun res l => (l = [] /\ skipped res) \/
                             (exists c, l = [c] /\ listed resolve baseUrl res c))
               (responses_of (decode responseData)) pushed) /\
  (forall e,
     parseCalendars decode resolve responseData baseUrl = inl e ->
     exists res block,
       res ∈ responses_of (decode responseData) /\ selected_block res block /\
       (JUndef ∈ reported_components block \/ falsy baseUrl = false)) /\
  (falsy baseUrl = true ->
   (forall res block, res ∈ responses_of (decode responseData) ->
                      selected_block res block -> JUndef ∉ reported_components block) ->
   exists calendars, parseCalendars decode resolve responseData baseUrl = inr calendars).
Proof.
  assert (Hthrows : forall e,
     parseCalendars decode resolve responseData baseUrl = inl e ->
     exists res block,
       res ∈ responses_of (decode responseData) /\ selected_block res block /\
       (JUndef ∈ reported_components block \/ falsy baseUrl = false)).
  { unfold parseCalendars. fold (responses_of (decode responseData)).
    intros e (res & Hin & (block & Hb)%parseCalendars_entry_throws)%parseCalendars_loop_throws.
    by exists res, block. }
  split; [|split; [exact Hthrows|]].
  - unfold parseCalendars. fold (responses_of (decode responseData)).
    intros calendars (pushed & -> & HF)%parseCalendars_loop_ok.
    exists pushed. split; [done|].
    eapply Forall2_impl; [exact HF|]. intros res l. apply parseCalendars_entry_ok.
  - intros Hbase Hdef.
    destruct (parseCalendars decode resolve responseData baseUrl) as [e|calendars] eqn:E;
      [|by exists calendars].
    destruct (Hthrows e eq_refl) as (res & block & Hin & Hsel & [Hu|Hb]).
    + by destruct (Hdef res block Hin Hsel).
    + congruence.
Qed.

End ParseCalendars.

(** ** Dates *)

Example toISOString_samples :
  JsDate.toISOString 1704099600000 = "2024-01-01T09:00:00.000Z" /\
  JsDate.toISOString 1709251200000 = "2024-03-01T00:00:00.000Z" /\
  JsDate.toISOString 951782400123 = "2000-02-29T00:00:00.123Z" /\
  JsDate.toISOString (-1) = "1969-12-31T23:59:59.999Z" /\
  JsDate.toISOString 0 = "1970-01-01T00:00:00.000Z" /\
  JsDate.toISOString 253402300800000 = "+010000-01-01T00:00:00.000Z" /\
  JsDate.toISOString (-62198755200000) = "-000001-01-01T00:00:00.000Z" /\
  JsDate.UTC 2024 1 1 9 0 0 = 1704099600000%Z /\
  JsDate.UTC 2024 3 1 0 0 0 = 1709251200000%Z /\
  formatDateOnly 1709251200000 = "20240301".
Proof. repeat split; vm_compute; reflexivity. Qed.

(** ** Fault isolation in the batch parsers *)

Section FaultIsolation.

Import ICAL.

Context (codec : Codec) (resolve : JVal -> string -> JsError + string).
Context (decode : string -> JVal).
Context {A : Type} (by_ : string)
        (try_block : JVal -> JVal -> string -> list A * option JsError).

Implicit Types (response before after : list JVal) (items : list A).
Implicit Types (logged : list JsError).

Lemma parse_loop_acc response items logged :
  parse_loop by_ try_block response items logged
  = prepend items logged (parse_loop by_ try_block response [] []).
Proof.
  revert items logged. induction response as [|obj rest IH]; intros items logged; simpl.
  - by rewrite !app_nil_r.
  - destruct (entry_calendar_data by_ obj) as [e|[[itemData cleaned]|]]; [done| |apply IH].
    destruct (try_block itemData obj cleaned) as [pushed caught].
    rewrite IH, (IH ([] ++ pushed)). simpl.
    destruct (parse_loop by_ try_block rest [] []) as [e|[i g]]; simpl; [done|].
    by rewrite !app_assoc.
Qed.

Lemma parse_loop_app before after :
  parse_loop by_ try_block (before ++ after) [] []
  = match parse_loop by_ try_block before [] [] with
    | inl e => inl e
    | inr (items, logged) =>
        prepend items logged (parse_loop by_ try_block after [] [])
    end.
Proof.
  induction before as [|obj rest IH]; simpl.
  - destruct (parse_loop by_ try_block after [] []) as [e|[i g]]; by simpl.
  - destruct (entry_calendar_data by_ obj) as [e|[[itemData cleaned]|]]; [done| |apply IH].
    destruct (try_block itemData obj cleaned) as [pushed caught].
    rewrite parse_loop_acc, (parse_loop_acc rest), IH. simpl.
    destruct (parse_loop by_ try_block rest [] []) as [e|[i g]]; simpl; [done|].
    destruct (parse_loop by_ try_block after [] []) as [e|[i' g']]; simpl; [done|].
    by rewrite !app_assoc.
Qed.

(** What one entry contributes between its siblings: the items its [try]
    block pushed, and the error it logged if it caught one. *)
Lemma parse_loop_entry before obj after itemData cleaned pushed caught
    items1 logged1 items2 logged2 :
  entry_calendar_data by_ obj = inr (Some (itemData, cleaned)) ->
  try_block itemData obj cleaned = (pushed, caught) ->
  parse_loop by_ try_block before [] [] = inr (items1, logged1) ->
  parse_loop by_ try_block after [] [] = inr (items2, logged2) ->
  parse_loop by_ try_block (before ++ obj :: after) [] []
  = inr (items1 ++ pushed ++ items2,
         logged1 ++ match caught with Some e => [e] | None => [] end ++ logged2).
Proof.
  intros Hd Ht H1 H2. rewrite parse_loop_app, H1. simpl.
  rewrite Hd, Ht, parse_loop_acc, H2. simpl. done.
Qed.

End FaultIsolation.

Section BatchParsers.

Import ICAL.

Context (codec : Codec) (resolve : JVal -> string -> JsError + string).
Context (decode : string -> JVal).

Lemma parseEvents_multistatus text baseUrl entries :
  decode text = multistatus_of entries ->
  parseEvents codec resolve decode text baseUrl
  = parseEvents_loop codec resolve baseUrl entries.
Proof. unfold parseEvents. by intros ->. Qed.

Lemma parseTodos_multistatus text baseUrl entries :
  decode text = multistatus_of entries ->
  parseTodos codec resolve decode text baseUrl
  = parseTodos_loop codec resolve baseUrl entries.
Proof. unfold parseTodos. by intros ->. Qed.

Lemma parseEvents_entries text baseUrl entries :
  lists_entries (decode text) entries ->
  parseEvents codec resolve decode text baseUrl
  = parseEvents_loop codec resolve baseUrl entries.
Proof.
  unfold parseEvents, lists_entries, responses_of, toArray. intros [Hdoc <-].
  assert (prop (decode text) "multistatus" = inr (prop_opt (decode text) "multistatus"))
    as -> by (by destruct (decode text)).
  cbn [and_then].
  by destruct (prop_opt (prop_opt (decode text) "multistatus") "response")
    as [|[]|n|s|items|fields] eqn:E; cbn [truthy negb];
    try destruct (Z.eqb n 0); try destruct (String.eqb s "").
Qed.

Lemma parseTodos_entries text baseUrl entries :
  lists_entries (decode text) entries ->
  parseTodos codec resolve decode text baseUrl
  = parseTodos_loop codec resolve baseUrl entries.
Proof.
  unfold parseTodos, lists_entries, responses_of, toArray. intros [Hdoc <-].
  assert (prop (decode text) "multistatus" = inr (prop_opt (decode text) "multistatus"))
    as -> by (by destruct (decode text)).
  cbn [and_then].
  by destruct (prop_opt (prop_opt (decode text) "multistatus") "response")
    as [|[]|n|s|items|fields] eqn:E; cbn [truthy negb];
    try destruct (Z.eqb n 0); try destruct (String.eqb s "").
Qed.

(** An entry that throws part-way through its sub-components keeps what it
    pushed before: the siblings' events are returned all the same. *)
Lemma parseEvents_entry_between baseUrl before obj after eventData cleaned
    events1 logged1 events2 logged2 :
  entry_calendar_data CR obj = inr (Some (eventData, cleaned)) ->
  parseEvents_loop codec resolve baseUrl before = inr (events1, logged1) ->
  parseEvents_loop codec resolve baseUrl after = inr (events2, logged2) ->
  parseEvents_loop codec resolve baseUrl (before ++ obj :: after)
  = inr (events1 ++ (try_events codec resolve eventData obj baseUrl cleaned).1 ++ events2,
         logged1 ++ match (try_events codec resolve eventData obj baseUrl cleaned).2 with
                    | Some e => [e]
                    | None => []
                    end ++ logged2).
Proof.
  intros Hd H1 H2. unfold parseEvents_loop in *.
  destruct (try_events codec resolve eventData obj baseUrl cleaned) as [pushed caught] eqn:E.
  by rewrite (parse_loop_entry CR _ before obj after eventData cleaned pushed caught
                events1 logged1 events2 logged2).
Qed.

End BatchParsers.

(** ** Whole-day events *)

Section WholeDay.

Import ICAL.
Local Open Scope Z_scope.

Lemma all_chars_app p s1 s2 :
  all_chars p (s1 +:+ s2) = all_chars p s1 && all_chars p s2.
Proof. induction s1 as [|c s1 IH]; simpl; [done | by rewrite IH, andb_assoc]. Qed.

Lemma all_chars_impl (p q : ascii -> bool) s :
  (forall c, p c = true -> q c = true) -> all_chars p s = true -> all_chars q s = true.
Proof.
  intros H. induction s as [|c s IH]; simpl; [done|].
  rewrite !andb_true_iff. intros [? ?]. auto.
Qed.

Lemma digit_cases (k : Z) :
  0 <= k <= 9 ->
  JsDate.digit k = "0"%char \/ JsDate.digit k = "1"%char \/ JsDate.digit k = "2"%char \/
  JsDate.digit k = "3"%char \/ JsDate.digit k = "4"%char \/ JsDate.digit k = "5"%char \/
  JsDate.digit k = "6"%char \/ JsDate.digit k = "7"%char \/ JsDate.digit k = "8"%char \/
  JsDate.digit k = "9"%char.
Proof.
  intros Hk.
  assert (k = 0 \/ k = 1 \/ k = 2 \/ k = 3 \/ k = 4 \/ k = 5 \/ k = 6 \/ k = 7 \/
          k = 8 \/ k = 9) as H by lia.
  repeat (destruct H as [->|H]; [tauto|]). subst. tauto.
Qed.

Lemma digit_mod_cases (n : Z) :
  JsDate.digit (n mod 10) = "0"%char \/ JsDate.digit (n mod 10) = "1"%char \/
  JsDate.digit (n mod 10) = "2"%char \/ JsDate.digit (n mod 10) = "3"%char \/
  JsDate.digit (n mod 10) = "4"%char \/ JsDate.digit (n mod 10) = "5"%char \/
  JsDate.digit (n mod 10) = "6"%char \/ JsDate.digit (n mod 10) = "7"%char \/
  JsDate.digit (n mod 10) = "8"%char \/ JsDate.digit (n mod 10) = "9"%char.
Proof. apply digit_cases. pose proof (Z.mod_pos_bound n 10). lia. Qed.

Lemma is_digit_digit (n : Z) : is_digit (JsDate.digit (n mod 10)) = true.
Proof.
  destruct (digit_mod_cases n) as [H|[H|[H|[H|[H|[H|[H|[H|[H|H]]]]]]]]];
    by rewrite H.
Qed.

Lemma digits_all_digits w n : all_chars is_digit (JsDate.digits w n) = true.
Proof.
  revert n. induction w as [|w IH]; intros n; cbn [JsDate.digits all_chars]; [done|].
  rewrite all_chars_app, IH. cbn [all_chars andb]. by rewrite is_digit_digit.
Qed.

Lemma digits_date_chars w n : all_chars date_char (JsDate.digits w n) = true.
Proof.
  apply (all_chars_impl is_digit); [|apply digits_all_digits].
  intros c Hc. unfold date_char. by rewrite Hc.
Qed.

Lemma iso_date_chars t : all_chars date_char (JsDate.iso_date t) = true.
Proof.
  unfold JsDate.iso_date, JsDate.iso_year.
  destruct (_ && _); [|destruct (_ <? 0)];
    rewrite ?all_chars_app, ?digits_date_chars; done.
Qed.

Lemma split_head_app sep a b :
  all_chars (fun c => negb (Ascii.eqb c sep)) a = true ->
  split_head sep (a +:+ String sep b) = a.
Proof.
  induction a as [|c a IH]; simpl.
  - by rewrite Ascii.eqb_refl.
  - rewrite andb_true_iff. intros [Hc Ha]. apply negb_true_iff in Hc.
    by rewrite Hc, IH.
Qed.

(** The date part of the ISO text of a date is its year, month and day. *)
Lemma iso_date_part_iso_date t : iso_date_part t = JsDate.iso_date t.
Proof.
  unfold iso_date_part, JsDate.toISOString. apply split_head_app.
  apply (all_chars_impl date_char); [|apply iso_date_chars].
  intros c. unfold date_char.
  destruct (is_digit c) eqn:Ed.
  - intros _. unfold is_digit in Ed. destruct (Ascii.eqb_spec c "T") as [->|]; done.
  - simpl. rewrite orb_true_iff. intros [->%Ascii.eqb_eq | ->%Ascii.eqb_eq]; done.
Qed.

Lemma leading_digits_seen s acc : (leading_digits s acc true).2 = true.
Proof.
  revert acc. induction s as [|c s IH]; intros acc; cbn [leading_digits]; [done|].
  destruct (is_digit c); [apply IH | done].
Qed.

Lemma parseInt_digit_first n rest :
  exists v, parseInt (String (JsDate.digit (n mod 10)) rest) = Some v.
Proof.
  destruct (digit_mod_cases n) as [H|[H|[H|[H|[H|[H|[H|[H|[H|H]]]]]]]]];
    rewrite H; unfold parseInt; simpl;
    match goal with
    | |- context [leading_digits rest ?a true] =>
        pose proof (leading_digits_seen rest a) as Hs;
        destruct (leading_digits rest a true) as [v seen]; simpl in Hs; subst seen
    end; eauto.
Qed.

Lemma parseInt_signed sign n rest :
  sign = "+"%char \/ sign = "-"%char ->
  exists v, parseInt (String sign (String (JsDate.digit (n mod 10)) rest)) = Some v.
Proof.
  intros Hsign.
  destruct (digit_mod_cases n) as [H|[H|[H|[H|[H|[H|[H|[H|[H|H]]]]]]]]];
    rewrite H; destruct Hsign as [-> | ->];
    unfold parseInt; simpl;
    match goal with
    | |- context [leading_digits rest ?a true] =>
        pose proof (leading_digits_seen rest a) as Hs;
        destruct (leading_digits rest a true) as [v seen]; simpl in Hs; subst seen
    end; eauto.
Qed.

Lemma digits_2 n :
  JsDate.digits 2 n
  = String (JsDate.digit ((n / 10) mod 10)) (String (JsDate.digit (n mod 10)) "").
Proof. reflexivity. Qed.

Lemma digits_4 n :
  JsDate.digits 4 n
  = String (JsDate.digit ((n / 10 / 10 / 10) mod 10))
      (String (JsDate.digit ((n / 10 / 10) mod 10)) (JsDate.digits 2 n)).
Proof. reflexivity. Qed.

Lemma digits_6 n :
  JsDate.digits 6 n
  = String (JsDate.digit ((n / 10 / 10 / 10 / 10 / 10) mod 10))
      (String (JsDate.digit ((n / 10 / 10 / 10 / 10) mod 10)) (JsDate.digits 4 n)).
Proof. reflexivity. Qed.

(** [ICAL.Time.fromDateString] reads the date part of every ISO text, as a
    date-only value. *)
Lemma fromDateString_iso_date t :
  exists time, Time_fromDateString (JsDate.iso_date t) = inr time /\ date_only time.
Proof.
  unfold JsDate.iso_date.
  generalize (JsDate.getUTCFullYear t) (JsDate.getUTCMonth t + 1) (JsDate.getUTCDate t).
  intros y m d. unfold JsDate.iso_year, Time_fromDateString, strictParseInt, substr.
  destruct (_ && _).
  - rewrite digits_4, !digits_2.
    cbn [String.append String.substring].
    destruct (parseInt_digit_first (y / 10 / 10 / 10)
                (String (JsDate.digit ((y / 10 / 10) mod 10))
                   (String (JsDate.digit ((y / 10) mod 10))
                      (String (JsDate.digit (y mod 10)) "")))) as [v1 ->].
    destruct (parseInt_digit_first (m / 10) (String (JsDate.digit (m mod 10)) ""))
      as [v2 ->].
    destruct (parseInt_digit_first (d / 10) (String (JsDate.digit (d mod 10)) ""))
      as [v3 ->].
    eexists. split; [reflexivity|]. by repeat split.
  - rewrite digits_6, digits_4, !digits_2.
    assert (exists sign, (if y <? 0 then "-" else "+") = String sign "" /\
                         (sign = "+"%char \/ sign = "-"%char)) as (sign & -> & Hsign).
    { destruct (y <? 0); eexists; split; eauto. }
    cbn [String.append String.substring].
    destruct (parseInt_signed sign (Z.abs y / 10 / 10 / 10 / 10 / 10)
                (String (JsDate.digit ((Z.abs y / 10 / 10 / 10 / 10) mod 10))
                   (String (JsDate.digit ((Z.abs y / 10 / 10 / 10) mod 10)) ""))
                Hsign) as [v1 ->].
    destruct (parseInt_digit_first (Z.abs y / 10)
                (String (JsDate.digit (Z.abs y mod 10)) "")) as [v2 ->].
    destruct (parseInt_digit_first (m / 10) (String (JsDate.digit (m mod 10)) ""))
      as [v3 ->].
    eexists. split; [reflexivity|]. by repeat split.
Qed.

Lemma properties_alarms alarms vevent :
  properties (fold_left (fun vevent alarm => addSubcomponent vevent (valarm_of alarm))
                        alarms vevent)
  = properties vevent.
Proof.
  revert vevent. induction alarms as [|a alarms IH]; intros vevent; simpl; [done|].
  by rewrite IH.
Qed.

(** C8: for every event with [wholeDay] set, the encoder builds an event
    component whose only DTSTART and DTEND are date-only values without
    parameters (so without a time zone identifier, whatever [startTzid] and
    [endTzid] say): the dates read from the date part, year-month-day, of
    the ISO text of the start and of the end. *)
Theorem wholeDay_encoding codec prodId now event uid :
  ev_wholeDay event = true ->
  exists vevent startDate endDate,
    buildICSData codec prodId now event uid
      = inr (stringify codec
               (mkComponent "vcalendar"
                  [mkProperty "version" [] (Text "2.0");
                   mkProperty "method" [] (Text "REQUEST");
                   mkProperty "prodid" [] (Text prodId)]
                  [vevent])) /\
    iso_date_part (ev_start event) = JsDate.iso_date (ev_start event) /\
    iso_date_part (ev_end event) = JsDate.iso_date (ev_end event) /\
    Time_fromDateString (JsDate.iso_date (ev_start event)) = inr startDate /\
    Time_fromDateString (JsDate.iso_date (ev_end event)) = inr endDate /\
    date_only startDate /\ date_only endDate /\
    getAllProperties vevent "dtstart" = [mkProperty "dtstart" [] (DateTime startDate)] /\
    getAllProperties vevent "dtend" = [mkProperty "dtend" [] (DateTime endDate)].
Proof.
  intros Hwd.
  destruct (fromDateString_iso_date (ev_start event)) as (startDate & Hs & Hsd).
  destruct (fromDateString_iso_date (ev_end event)) as (endDate & He & Hed).
  unfold buildICSData, build_vcalendar, build_vevent, set_times.
  rewrite Hwd, !iso_date_part_iso_date, Hs, He.
  cbn [and_then map_ok].
  eexists _, startDate, endDate. split; [reflexivity|].
  do 6 (split; [done|]).
  unfold getAllProperties. rewrite !properties_alarms.
  destruct (ev_recurrenceRule event); split; reflexivity.
Qed.

End WholeDay.

(** ** Encoding an event and decoding it back *)

Section RoundTrip.

Import ICAL.
Local Open Scope Z_scope.

Context (codec : Codec) (resolve : JVal -> string -> JsError + string).
Context (decode : string -> JVal).

Example standup_dates :
  JsDate.toISOString (ev_start standup) = "2024-01-01T09:00:00.000Z" /\
  JsDate.toISOString (ev_end standup) = "2024-01-01T09:30:00.000Z".
Proof. split; vm_compute; reflexivity. Qed.

Lemma standup_build prodId now :
  build_vcalendar prodId now standup "e1" = inr (standup_vcalendar prodId now).
Proof. reflexivity. Qed.

(** C3: the stand-up event, encoded by [buildICSData] and handed back to
    [parseEvents] as the calendar data of the one entry of a response, is
    decoded as one event, with nothing logged: the same uid, summary, start
    and end, and a recurrence rule with the same frequency and days, no
    count, no end and no other list, whose interval, absent in the event, is
    1; provided the codec reads the text it wrote back as the tree it
    wrote. *)
Theorem standup_roundtrip prodId now :
  buildICSData codec prodId now standup "e1"
    = inr (stringify codec (standup_vcalendar prodId now)) /\
  forall responseData obj eventData,
    lists_entries (decode responseData) [obj] ->
    entry_calendar_data CR obj
      = inr (Some (eventData, stringify codec (standup_vcalendar prodId now))) ->
    parse codec (stringify codec (standup_vcalendar prodId now))
      = inr (reread (standup_vcalendar prodId now)) ->
    exists ev,
      parseEvents codec resolve decode responseData None = inr ([ev], []) /\
      ev_uid ev = ev_uid standup /\
      ev_summary ev = ev_summary standup /\
      ev_start ev = ev_start standup /\
      ev_end ev = ev_end standup /\
      ev_wholeDay ev = false /\
      ev_recurrenceRule ev
        = Some (mkRule (Some "WEEKLY") (Some 1) None None (Some [JStr "MO"]) None None).
Proof.
  split; [reflexivity|].
  intros responseData obj eventData Hdoc Hentry Hparse.
  rewrite (parseEvents_entries _ _ _ _ _ _ Hdoc).
  unfold parseEvents_loop. cbn [parse_loop]. rewrite Hentry.
  unfold try_events. rewrite Hparse.
  eexists. split; [reflexivity|].
  repeat split.
Qed.

End RoundTrip.


(** ** A sample codec and sample parses *)

Section Samples.

Import ICAL.
Local Open Scope Z_scope.

Example standup_ics_text :
  standup_ics =
  "BEGIN:VCALENDAR;VERSION:2.0;METHOD:REQUEST;PRODID:-//ts-caldav.//CalDAV Client//EN;BEGIN:VEVENT;UID:e1;DTSTAMP:1970-01-01T00:00:00Z;DTSTART:2024-01-01T09:00:00Z;DTEND:2024-01-01T09:30:00Z;SUMMARY:Standup;DESCRIPTION:;LOCATION:;RRULE:FREQ=WEEKLY;BYDAY=MO;END:VEVENT;END:VCALENDAR".
Proof. vm_compute. reflexivity. Qed.

Lemma good_entry_data :
  entry_calendar_data CR good_entry
  = inr (Some (JObj [("getetag", JStr "v1"); ("calendar-data", JStr standup_ics)],
               stringify sample_codec (standup_vcalendar sample_prodId 0))).
Proof. vm_compute. reflexivity. Qed.

Lemma bad_entry_data :
  entry_calendar_data CR bad_entry
  = inr (Some (JObj [("getetag", JStr "v1");
                     ("calendar-data", JStr "BEGIN:VCALENDAR&#13;garbage")],
               "BEGIN:VCALENDAR" +:+ CR +:+ "garbage")).
Proof. vm_compute. reflexivity. Qed.

Lemma sample_codec_reads_back :
  parse sample_codec (stringify sample_codec (standup_vcalendar sample_prodId 0))
  = inr (reread (standup_vcalendar sample_prodId 0)).
Proof. vm_compute. reflexivity. Qed.

Lemma sample_codec_refuses :
  parse sample_codec ("BEGIN:VCALENDAR" +:+ CR +:+ "garbage")
  = inl (Error "invalid ical body").
Proof. vm_compute. reflexivity. Qed.

Lemma sample_one_entry : lists_entries (sample_decode "one") [good_entry].
Proof. split; [discriminate | reflexivity]. Qed.

Lemma standup_roundtrip_witness :
  exists ev,
    parseEvents sample_codec sample_resolve sample_decode "one" None = inr ([ev], []) /\
    ev_uid ev = Some "e1" /\
    ev_summary ev = "Standup" /\
    ev_start ev = 1704099600000 /\
    ev_end ev = 1704101400000 /\
    ev_wholeDay ev = false /\
    ev_recurrenceRule ev
      = Some (mkRule (Some "WEEKLY") (Some 1) None None (Some [JStr "MO"]) None None).
Proof.
  exact (proj2 (standup_roundtrip sample_codec sample_resolve sample_decode sample_prodId 0)
           "one" good_entry _ sample_one_entry good_entry_data sample_codec_reads_back).
Defined.

Lemma sample_parse_one :
  parseEvents sample_codec sample_resolve sample_decode "one" None
  = inr ([standup_decoded], []).
Proof. vm_compute. reflexivity. Qed.

(** The stand-up event does not come back with the recurrence fields it
    had: encoded, and decoded from the entry that carries its text, it has
    the interval 1, where the event had none. *)
Lemma standup_interval_not_original :
  buildICSData sample_codec sample_prodId 0 standup "e1" = inr standup_ics /\
  calendar_data good_entry = JStr standup_ics /\
  parseEvents sample_codec sample_resolve sample_decode "one" None
    = inr ([standup_decoded], []) /\
  interval <$> ev_recurrenceRule standup = Some None /\
  interval <$> ev_recurrenceRule standup_decoded = Some (Some 1) /\
  ev_recurrenceRule standup_decoded <> ev_recurrenceRule standup.
Proof. repeat split; try (vm_compute; reflexivity). discriminate. Qed.

Lemma conference_day_dates :
  Time_fromDateString (JsDate.iso_date (ev_start conference_day))
    = inr (mkTime 2024 3 1 0 0 0 true false) /\
  Time_fromDateString (JsDate.iso_date (ev_end conference_day))
    = inr (mkTime 2024 3 2 0 0 0 true false) /\
  iso_date_part (ev_start conference_day) = "2024-03-01" /\
  iso_date_part (ev_end conference_day) = "2024-03-02" /\
  formatDateOnly (ev_start conference_day) = "20240301" /\
  formatDateOnly (ev_end conference_day) = "20240302".
Proof. repeat split; vm_compute; reflexivity. Qed.

Lemma wholeDay_encoding_witness :
  exists vevent,
    buildICSData sample_codec "prod" 0 conference_day "e2"
      = inr (stringify sample_codec
               (mkComponent "vcalendar"
                  [mkProperty "version" [] (Text "2.0");
                   mkProperty "method" [] (Text "REQUEST");
                   mkProperty "prodid" [] (Text "prod")]
                  [vevent])) /\
    getAllProperties vevent "dtstart"
      = [mkProperty "dtstart" [] (DateTime (mkTime 2024 3 1 0 0 0 true false))] /\
    getAllProperties vevent "dtend"
      = [mkProperty "dtend" [] (DateTime (mkTime 2024 3 2 0 0 0 true false))].
Proof.
  destruct (wholeDay_encoding sample_codec "prod" 0 conference_day "e2" eq_refl)
    as (vevent & startDate & endDate & Hics & _ & _ & Hs & He & _ & _ & Hps & Hpe).
  rewrite (proj1 conference_day_dates) in Hs.
  rewrite (proj1 (proj2 conference_day_dates)) in He.
  injection Hs as <-. injection He as <-.
  exists vevent. split; [exact Hics|]. split; [exact Hps | exact Hpe].
Defined.

End Samples.

(** ** A sample calendar listing *)

Example parseCalendars_sample :
  parseCalendars (fun _ => sample_listing) sample_resolve "" None
  = inr [mkCalendar (JStr "Work") (JStr "/cal/work/") (JStr "ctag-1")
           ["VEVENT"; "VJOURNAL"]].
Proof. vm_compute. reflexivity. Qed.


(** ** Calendar dates and the compact date formats *)

Section CivilDates.

Local Open Scope Z_scope.

(** The day number of the civil date of a day number is that day number;
    the month is one of twelve, the day one of at most thirty-one. *)
Lemma civil_from_days_inv z :
  JsDate.days_from_civil (JsDate.civil_from_days z).1.1 (JsDate.civil_from_days z).1.2
                         (JsDate.civil_from_days z).2 = z /\
  1 <= (JsDate.civil_from_days z).1.2 <= 12 /\
  1 <= (JsDate.civil_from_days z).2 <= 31.
Proof.
  unfold JsDate.civil_from_days, JsDate.days_from_civil. cbv zeta. cbn [fst snd].
  set (z' := z + 719468).
  set (era := z' / 146097).
  set (doe := z' - era * 146097).
  assert (Hdoe : 0 <= doe <= 146096).
  { subst doe era. Z.div_mod_to_equations. lia. }
  set (yoe := (doe - doe / 1460 + doe / 36524 - doe / 146096) / 365).
  assert (Hyoe : 0 <= yoe <= 399).
  { subst yoe. Z.div_mod_to_equations. lia. }
  set (doy := doe - (365 * yoe + yoe / 4 - yoe / 100)).
  assert (Hdoy : 0 <= doy <= 365).
  { subst doy yoe. Z.div_mod_to_equations. lia. }
  set (mp := (5 * doy + 2) / 153).
  assert (Hmp : 0 <= mp <= 11).
  { subst mp. Z.div_mod_to_equations. lia. }
  set (d := doy - (153 * mp + 2) / 5 + 1).
  assert (Hd : 1 <= d <= 31).
  { subst d mp. Z.div_mod_to_equations. lia. }
  assert (Hera : (yoe + era * 400) / 400 = era).
  { rewrite Z.div_add by lia. rewrite Z.div_small by lia. lia. }
  assert (Hsum : forall mp', mp' = mp ->
            era * 146097 + (yoe * 365 + yoe / 4 - yoe / 100
                            + ((153 * mp' + 2) / 5 + d - 1)) - 719468 = z).
  { intros mp' ->. unfold d, doy, doe, z'. lia. }
  destruct (Z.ltb_spec mp 10) as [Hlt|Hge].
  - assert ((mp + 3 <=? 2) = false) as -> by lia.
    assert ((mp + 3 >? 2) = true) as -> by lia.
    rewrite Hera. replace (yoe + era * 400 - era * 400) with yoe by lia.
    split; [apply Hsum; lia | lia].
  - assert ((mp - 9 <=? 2) = true) as -> by lia.
    assert ((mp - 9 >? 2) = false) as -> by lia.
    replace (yoe + era * 400 + 1 - 1) with (yoe + era * 400) by lia.
    rewrite Hera. replace (yoe + era * 400 - era * 400) with yoe by lia.
    split; [apply Hsum; lia | lia].
Qed.

(** The instant of the UTC fields of an instant is that instant without its
    milliseconds. *)
Lemma UTC_fields t :
  JsDate.UTC (JsDate.getUTCFullYear t) (JsDate.getUTCMonth t + 1) (JsDate.getUTCDate t)
             (JsDate.getUTCHours t) (JsDate.getUTCMinutes t) (JsDate.getUTCSeconds t)
  = whole_seconds t.
Proof.
  unfold JsDate.UTC, JsDate.getUTCFullYear, JsDate.getUTCMonth, JsDate.getUTCDate,
    JsDate.getUTCHours, JsDate.getUTCMinutes, JsDate.getUTCSeconds, whole_seconds.
  replace ((JsDate.civil_from_days (t / JsDate.msPerDay)).1.2 - 1 + 1)
    with (JsDate.civil_from_days (t / JsDate.msPerDay)).1.2 by lia.
  rewrite (proj1 (civil_from_days_inv (t / JsDate.msPerDay))).
  unfold JsDate.msPerDay. Z.div_mod_to_equations. lia.
Qed.

Lemma date_fields t :
  1 <= JsDate.getUTCMonth t + 1 <= 12 /\ 1 <= JsDate.getUTCDate t <= 31.
Proof.
  pose proof (civil_from_days_inv (t / JsDate.msPerDay)) as (_ & Hm & Hd).
  unfold JsDate.getUTCMonth, JsDate.getUTCDate. lia.
Qed.

Lemma time_fields t :
  0 <= JsDate.getUTCHours t <= 23 /\ 0 <= JsDate.getUTCMinutes t <= 59 /\
  0 <= JsDate.getUTCSeconds t <= 59.
Proof.
  unfold JsDate.getUTCHours, JsDate.getUTCMinutes, JsDate.getUTCSeconds, JsDate.msPerDay.
  repeat split; Z.div_mod_to_equations; lia.
Qed.

Lemma Time_fromJSDate_toJSDate codec t :
  ICAL.Time_toJSDate codec (ICAL.Time_fromJSDate_utc t) = whole_seconds t.
Proof. unfold ICAL.Time_toJSDate, ICAL.Time_fromJSDate_utc. simpl. apply UTC_fields. Qed.

End CivilDates.

Section CompactDates.

Import ICAL.

Lemma append_assoc (a b c : string) : (a +:+ b) +:+ c = a +:+ b +:+ c.
Proof. induction a as [|x a IH]; simpl; [done | by rewrite IH]. Qed.

Lemma append_length (a b : string) :
  String.length (a +:+ b) = (String.length a + String.length b)%nat.
Proof. induction a as [|x a IH]; simpl; [done | by rewrite IH]. Qed.

Lemma remove_chars_app class s1 s2 :
  remove_chars class (s1 +:+ s2) = remove_chars class s1 +:+ remove_chars class s2.
Proof.
  induction s1 as [|c s1 IH]; simpl; [done|].
  destruct (class c); simpl; by rewrite IH.
Qed.

Lemma remove_chars_none class s :
  all_chars (fun c => negb (class c)) s = true -> remove_chars class s = s.
Proof.
  induction s as [|c s IH]; simpl; [done|].
  rewrite andb_true_iff. intros [Hc Hs]. apply negb_true_iff in Hc.
  by rewrite Hc, IH.
Qed.

Lemma is_digit_other c (other : ascii) :
  is_digit other = false -> is_digit c = true -> negb (Ascii.eqb c other) = true.
Proof.
  intros Ho Hc. apply negb_true_iff. destruct (Ascii.eqb_spec c other); [|done].
  congruence.
Qed.

Lemma remove_chars_digits class w n :
  (forall c, is_digit c = true -> class c = false) ->
  remove_chars class (JsDate.digits w n) = JsDate.digits w n.
Proof.
  intros Hclass. apply remove_chars_none.
  apply (all_chars_impl is_digit); [|apply digits_all_digits].
  intros c Hc. by rewrite (Hclass c Hc).
Qed.

Lemma digit_not_dash_or_colon c : is_digit c = true -> dash_or_colon c = false.
Proof.
  intros Hc. unfold dash_or_colon.
  destruct (Ascii.eqb_spec c "-") as [->|]; [done|].
  destruct (Ascii.eqb_spec c ":") as [->|]; done.
Qed.

Lemma digit_not_dash c : is_digit c = true -> Ascii.eqb c "-" = false.
Proof. intros Hc. destruct (Ascii.eqb_spec c "-") as [->|]; done. Qed.

(** Replacing every dash by nothing removes the dashes. *)
Lemma replaceAll_dash_fuel n s :
  (String.length s <= n)%nat ->
  replaceAll_fuel n "-" "" s = remove_chars (fun c => Ascii.eqb c "-") s.
Proof.
  revert s. induction n as [|n IH]; intros s Hn.
  - destruct s; [done | simpl in Hn; lia].
  - destruct s as [|c s]; [done|]. cbn [replaceAll_fuel startsWith remove_chars].
    rewrite andb_true_r, (Ascii.eqb_sym "-" c).
    destruct (Ascii.eqb c "-"); cbn [String.length substring_from String.append].
    + apply IH. simpl in Hn. lia.
    + f_equal. apply IH. simpl in Hn. lia.
Qed.

Lemma replaceAll_dash s :
  replaceAll "-" "" s = remove_chars (fun c => Ascii.eqb c "-") s.
Proof. unfold replaceAll. by apply replaceAll_dash_fuel. Qed.

(** The year of an ISO text without its dashes, whatever else is removed
    with them that is neither a digit nor a plus sign. *)
Lemma remove_chars_iso_year class y :
  (forall c, is_digit c = true -> class c = false) ->
  class "-"%char = true -> class "+"%char = false ->
  remove_chars class (JsDate.iso_year y) = compact_year y.
Proof.
  intros Hd Hdash Hplus. unfold JsDate.iso_year, compact_year.
  destruct (_ && _); [by apply remove_chars_digits|].
  rewrite remove_chars_app, (remove_chars_digits _ _ _ Hd).
  destruct (y <? 0)%Z; simpl; by rewrite ?Hdash, ?Hplus.
Qed.

Lemma remove_chars_iso_date class t :
  (forall c, is_digit c = true -> class c = false) ->
  class "-"%char = true -> class "+"%char = false ->
  remove_chars class (JsDate.iso_date t) = compact_date t.
Proof.
  intros Hd Hdash Hplus. unfold JsDate.iso_date, compact_date.
  rewrite !remove_chars_app, (remove_chars_iso_year _ _ Hd Hdash Hplus),
    !(remove_chars_digits _ _ _ Hd).
  simpl. by rewrite Hdash.
Qed.

Lemma compact_year_chars y :
  all_chars (fun c => negb (Ascii.eqb c ".")) (compact_year y) = true.
Proof.
  unfold compact_year.
  assert (Hdig : forall w n,
            all_chars (fun c => negb (Ascii.eqb c ".")) (JsDate.digits w n) = true).
  { intros w n. apply (all_chars_impl is_digit); [|apply digits_all_digits].
    intros c. by apply is_digit_other. }
  destruct (_ && _); [apply Hdig|].
  rewrite all_chars_app, Hdig. by destruct (y <? 0)%Z.
Qed.

Lemma compact_year_length y :
  (0 <= y <= 9999)%Z ->
  compact_year y = JsDate.digits 4 y.
Proof.
  intros Hy. unfold compact_year.
  assert (((0 <=? y) && (y <=? 9999))%Z = true) as -> by lia. done.
Qed.

Lemma digits_length w n : String.length (JsDate.digits w n) = w.
Proof.
  revert n. induction w as [|w IH]; intros n; cbn [JsDate.digits]; [done|].
  rewrite append_length, IH. simpl. lia.
Qed.

Lemma formatDateOnly_unfold date : formatDateOnly date = compact_date date.
Proof.
  unfold formatDateOnly. fold (iso_date_part date).
  rewrite iso_date_part_iso_date, replaceAll_dash.
  apply remove_chars_iso_date; [apply digit_not_dash | done..].
Qed.

(** [formatDateOnly] writes the UTC calendar date of the instant as year,
    month (01 to 12) and day (01 to 31) without separators: eight digits for
    the years 0 to 9999. Beyond 9999 the year has six digits after a plus
    sign; before 0 it has six digits and its minus sign is lost with the
    dashes. *)
Theorem formatDateOnly_compact date :
  formatDateOnly date
    = compact_year (JsDate.getUTCFullYear date)
        +:+ JsDate.digits 2 (JsDate.getUTCMonth date + 1)
        +:+ JsDate.digits 2 (JsDate.getUTCDate date) /\
  (1 <= JsDate.getUTCMonth date + 1 <= 12)%Z /\
  (1 <= JsDate.getUTCDate date <= 31)%Z /\
  ((0 <= JsDate.getUTCFullYear date <= 9999)%Z ->
     String.length (formatDateOnly date) = 8%nat /\
     all_chars is_digit (formatDateOnly date) = true) /\
  ((JsDate.getUTCFullYear date < 0)%Z ->
     formatDateOnly date
       = JsDate.digits 6 (- JsDate.getUTCFullYear date)
           +:+ JsDate.digits 2 (JsDate.getUTCMonth date + 1)
           +:+ JsDate.digits 2 (JsDate.getUTCDate date)).
Proof.
  rewrite formatDateOnly_unfold. unfold compact_date.
  split; [done|]. split; [apply date_fields|]. split; [apply date_fields|]. split.
  - intros Hy. rewrite (compact_year_length _ Hy).
    rewrite !append_length, !digits_length, !all_chars_app, !digits_all_digits.
    done.
  - intros Hy. unfold compact_year.
    assert (((0 <=? JsDate.getUTCFullYear date)
             && (JsDate.getUTCFullYear date <=? 9999))%Z = false) as -> by lia.
    assert ((JsDate.getUTCFullYear date <? 0)%Z = true) as -> by lia.
    by rewrite Z.abs_neq by lia.
Qed.

Lemma formatDate_utc_unfold localTZA date :
  formatDate localTZA date true = compact_date date +:+ "T" +:+ compact_time date +:+ "Z".
Proof.
  unfold formatDate, JsDate.toISOString, JsDate.iso_time.
  rewrite !remove_chars_app,
    (remove_chars_iso_date _ _ digit_not_dash_or_colon eq_refl eq_refl),
    !(remove_chars_digits _ _ _ digit_not_dash_or_colon).
  cbn [remove_chars dash_or_colon Ascii.eqb Bool.eqb orb String.append].
  unfold compact_time.
  set (hh := JsDate.digits 2 (JsDate.getUTCHours date)).
  set (mm := JsDate.digits 2 (JsDate.getUTCMinutes date)).
  set (ss := JsDate.digits 2 (JsDate.getUTCSeconds date)).
  set (ms := JsDate.digits 3 (JsDate.getUTCMilliseconds date)).
  match goal with
  | |- split_head _ ?arg +:+ _ = _ =>
      assert (arg = (compact_date date +:+ "T" +:+ hh +:+ mm +:+ ss)
                      +:+ String "." (ms +:+ "Z")) as ->
  end.
  { rewrite ?append_assoc. cbn [String.append]. by rewrite ?append_assoc. }
  rewrite split_head_app.
  - rewrite ?append_assoc. cbn [String.append]. by rewrite ?append_assoc.
  - assert (Hdig : forall w n,
              all_chars (fun c => negb (Ascii.eqb c ".")) (JsDate.digits w n) = true).
    { intros w n. apply (all_chars_impl is_digit); [|apply digits_all_digits].
      intros c. by apply is_digit_other. }
    unfold compact_date, hh, mm, ss.
    rewrite !all_chars_app, compact_year_chars, !Hdig. done.
Qed.

(** [formatDate] in UTC writes the compact date of [formatDateOnly], the
    letter T, the time of day as hours (00 to 23), minutes and seconds (00 to
    59) without separators, and the letter Z; the milliseconds are left
    out. *)
Theorem formatDate_utc_compact localTZA date :
  formatDate localTZA date true
    = formatDateOnly date +:+ "T"
        +:+ JsDate.digits 2 (JsDate.getUTCHours date)
        +:+ JsDate.digits 2 (JsDate.getUTCMinutes date)
        +:+ JsDate.digits 2 (JsDate.getUTCSeconds date) +:+ "Z" /\
  (0 <= JsDate.getUTCHours date <= 23)%Z /\
  (0 <= JsDate.getUTCMinutes date <= 59)%Z /\
  (0 <= JsDate.getUTCSeconds date <= 59)%Z /\
  formatDate localTZA date true = formatDate localTZA (whole_seconds date) true.
Proof.
  rewrite !formatDate_utc_unfold, formatDateOnly_unfold.
  pose proof append_assoc as Hassoc.
  split; [unfold compact_time; by rewrite !Hassoc|].
  split; [apply time_fields|]. split; [apply time_fields|]. split; [apply time_fields|].
  assert (Hday : (whole_seconds date / JsDate.msPerDay = date / JsDate.msPerDay)%Z).
  { unfold whole_seconds, JsDate.msPerDay. Z.div_mod_to_equations. lia. }
  assert (Hmod : (whole_seconds date mod JsDate.msPerDay / 1000
                  = date mod JsDate.msPerDay / 1000)%Z).
  { unfold whole_seconds, JsDate.msPerDay. Z.div_mod_to_equations. lia. }
  unfold compact_date, compact_time, JsDate.getUTCFullYear, JsDate.getUTCMonth,
    JsDate.getUTCDate, JsDate.getUTCHours, JsDate.getUTCMinutes, JsDate.getUTCSeconds.
  rewrite Hday.
  assert (forall t, (t mod JsDate.msPerDay / 3600000
                     = t mod JsDate.msPerDay / 1000 / 3600)%Z) as Hh.
  { intros t. rewrite Z.div_div by lia. done. }
  assert (forall t, (t mod JsDate.msPerDay / 60000
                     = t mod JsDate.msPerDay / 1000 / 60)%Z) as Hm.
  { intros t. rewrite Z.div_div by lia. done. }
  by rewrite !Hh, !Hm, Hmod.
Qed.

End CompactDates.

Section LocalDates.

Local Open Scope Z_scope.

Lemma pretty_N_char_digit (k : N) :
  (k < 10)%N -> pretty_N_char k = JsDate.digit (Z.of_N k).
Proof.
  intros Hk.
  assert (k = 0 \/ k = 1 \/ k = 2 \/ k = 3 \/ k = 4 \/ k = 5 \/ k = 6 \/ k = 7 \/
          k = 8 \/ k = 9)%N as H by lia.
  repeat (destruct H as [->|H]; [reflexivity|]). by subst.
Qed.

(** The decimal text of a number with [S w] digits is its last [S w]
    digits. *)
Lemma pretty_N_go_digits w (x : N) s :
  (10 ^ N.of_nat w <= x < 10 ^ N.of_nat (S w))%N ->
  pretty_N_go x s = JsDate.digits (S w) (Z.of_N x) +:+ s.
Proof.
  revert x s. induction w as [|w IH]; intros x s Hx.
  - change (10 ^ N.of_nat 0)%N with 1%N in Hx. change (10 ^ N.of_nat 1)%N with 10%N in Hx.
    rewrite pretty_N_go_step by lia.
    rewrite (N.div_small x 10) by lia. rewrite pretty_N_go_0.
    cbn [JsDate.digits String.append].
    rewrite pretty_N_char_digit by (apply N.mod_lt; lia).
    by rewrite N2Z.inj_mod.
  - rewrite pretty_N_go_step by lia.
    rewrite !Nat2N.inj_succ, !N.pow_succ_r' in Hx.
    rewrite IH.
    + cbn [JsDate.digits]. rewrite !append_assoc. cbn [String.append].
      rewrite pretty_N_char_digit by (apply N.mod_lt; lia).
      by rewrite N2Z.inj_mod, N2Z.inj_div.
    + rewrite Nat2N.inj_succ, N.pow_succ_r'. split.
      * apply N.div_le_lower_bound; lia.
      * apply N.Div0.div_lt_upper_bound. lia.
Qed.

Lemma pretty_Z_digits w (z : Z) :
  10 ^ Z.of_nat w <= z < 10 ^ Z.of_nat (S w) ->
  pretty z = JsDate.digits (S w) z.
Proof.
  intros Hz.
  assert (0 < 10 ^ Z.of_nat w) by (apply Z.pow_pos_nonneg; lia).
  destruct z as [|p|p]; try lia.
  change (pretty (Z.pos p)) with (pretty (N.pos p)).
  unfold pretty, pretty_N. rewrite decide_False by done.
  rewrite (pretty_N_go_digits w).
  - change (Z.of_N (N.pos p)) with (Z.pos p).
    generalize (JsDate.digits (S w) (Z.pos p)). intros s.
    induction s as [|c s IHs]; simpl; [done | by rewrite IHs].
  - rewrite N2Z.inj_le, N2Z.inj_lt, !N2Z.inj_pow, !nat_N_Z.
    change (Z.of_N (N.pos p)) with (Z.pos p). change (Z.of_N 10) with 10. lia.
Qed.

Lemma pad_digits n : 0 <= n <= 99 -> pad n = JsDate.digits 2 n.
Proof.
  intros Hn. unfold pad. destruct (Z_lt_ge_dec n 10) as [Hlt|Hge].
  - assert (exists k : nat, n = Z.of_nat k /\ (k < 10)%nat) as (k & -> & Hk)
      by (exists (Z.to_nat n); lia).
    do 10 (destruct k as [|k]; [reflexivity|]). lia.
  - rewrite (pretty_Z_digits 1) by (simpl; lia). by rewrite digits_2.
Qed.

(** In local time [formatDate] writes, for a local year of four digits, what
    it writes in UTC for the instant moved by the offset of local time, less
    the letter Z; the year is not padded, so an earlier year comes out
    shorter than in UTC. *)
Theorem formatDate_local_compact localTZA date :
  let local := date + localTZA date in
  (1000 <= JsDate.getUTCFullYear local <= 9999 ->
     formatDate localTZA date false +:+ "Z" = formatDate localTZA local true) /\
  (0 <= JsDate.getUTCFullYear local <= 999 ->
     (String.length (formatDate localTZA date false) + 1
      < String.length (formatDate localTZA local true))%nat).
Proof.
  intros local.
  pose proof (date_fields local) as [Hm Hd].
  pose proof (time_fields local) as (Hh & Hmi & Hs).
  assert (Hlocal : formatDate localTZA date false
                   = pretty (JsDate.getUTCFullYear local)
                       +:+ JsDate.digits 2 (JsDate.getUTCMonth local + 1)
                       +:+ JsDate.digits 2 (JsDate.getUTCDate local)
                       +:+ "T" +:+ compact_time local).
  { unfold formatDate, compact_time. fold local.
    by rewrite !pad_digits by lia. }
  rewrite Hlocal, formatDate_utc_unfold. unfold compact_date. split.
  - intros Hy. rewrite (pretty_Z_digits 3) by (simpl; lia).
    rewrite compact_year_length by lia.
    rewrite ?append_assoc. cbn [String.append]. by rewrite ?append_assoc.
  - intros Hy. rewrite compact_year_length by lia.
    rewrite !append_length, !digits_length.
    assert (String.length (pretty (JsDate.getUTCFullYear local)) <= 3)%nat; [|simpl; lia].
    destruct (Z_lt_ge_dec (JsDate.getUTCFullYear local) 10);
      [|destruct (Z_lt_ge_dec (JsDate.getUTCFullYear local) 100)].
    + assert (JsDate.getUTCFullYear local = 0 \/ 10 ^ Z.of_nat 0 <= JsDate.getUTCFullYear local
                                                < 10 ^ Z.of_nat 1) as [->|Hr]
        by (simpl; lia); [simpl; lia|].
      rewrite (pretty_Z_digits 0 _ Hr), digits_length. lia.
    + rewrite (pretty_Z_digits 1) by (simpl; lia). rewrite digits_length. lia.
    + rewrite (pretty_Z_digits 2) by (simpl; lia). rewrite digits_length. lia.
Qed.

End LocalDates.


(** ** The dates of a whole-day event *)

Section WholeDayDates.

Import ICAL.
Local Open Scope Z_scope.

Lemma digit_value k :
  0 <= k <= 9 -> Z.of_nat (nat_of_ascii (JsDate.digit k)) - 48 = k.
Proof.
  intros Hk.
  assert (k = 0 \/ k = 1 \/ k = 2 \/ k = 3 \/ k = 4 \/ k = 5 \/ k = 6 \/ k = 7 \/
          k = 8 \/ k = 9) as H by lia.
  repeat (destruct H as [->|H]; [reflexivity|]). by subst.
Qed.

(** Reading the digits of [digits w n], then going on. *)
Lemma leading_digits_digits w n rest acc seen :
  leading_digits (JsDate.digits w n +:+ rest) acc seen
  = leading_digits rest (acc * 10 ^ Z.of_nat w + n mod 10 ^ Z.of_nat w)
                   (seen || negb (Nat.eqb w 0)).
Proof.
  revert n rest. induction w as [|w IH]; intros n rest.
  - cbn [JsDate.digits String.append Nat.eqb negb]. rewrite orb_false_r.
    f_equal. change (10 ^ Z.of_nat 0) with 1. rewrite Z.mod_1_r. lia.
  - cbn [JsDate.digits]. rewrite append_assoc. cbn [String.append].
    rewrite IH. cbn [leading_digits]. rewrite is_digit_digit.
    rewrite digit_value by (pose proof (Z.mod_pos_bound n 10); lia).
    cbn [Nat.eqb negb]. rewrite orb_true_r. f_equal.
    rewrite Nat2Z.inj_succ, Z.pow_succ_r by lia.
    assert (0 < 10 ^ Z.of_nat w) by (apply Z.pow_pos_nonneg; lia).
    rewrite (Z.rem_mul_r n 10 (10 ^ Z.of_nat w)) by lia. ring.
Qed.

Lemma parseInt_digits w n :
  parseInt (JsDate.digits (S w) n) = Some (n mod 10 ^ Z.of_nat (S w)).
Proof.
  assert (Hfirst : exists k rest, JsDate.digits (S w) n = String (JsDate.digit (k mod 10)) rest).
  { clear. revert n. induction w as [|w IH]; intros n.
    - exists n, "". reflexivity.
    - destruct (IH (n / 10)) as (k & rest & Hk). exists k. eexists.
      change (JsDate.digits (S (S w)) n)
        with (JsDate.digits (S w) (n / 10) +:+ String (JsDate.digit (n mod 10)) "").
      rewrite Hk. reflexivity. }
  destruct Hfirst as (k & rest & Hk).
  assert (Hparse : parseInt (JsDate.digits (S w) n)
                   = let '(v, seen) := leading_digits (JsDate.digits (S w) n) 0 false in
                     if seen then Some (1 * v) else None).
  { rewrite Hk. unfold parseInt.
    destruct (digit_mod_cases k) as [H|[H|[H|[H|[H|[H|[H|[H|[H|H]]]]]]]]];
      rewrite H; reflexivity. }
  rewrite Hparse.
  pose proof (leading_digits_digits (S w) n "" 0 false) as Hl.
  assert (forall s, s +:+ "" = s) as Hnil.
  { intros s. induction s as [|c s IHs]; simpl; [done | by rewrite IHs]. }
  rewrite Hnil in Hl. rewrite Hl. cbn [leading_digits Nat.eqb negb orb].
  f_equal. lia.
Qed.

Lemma small_mod n w : 0 <= n < 10 ^ Z.of_nat w -> n mod 10 ^ Z.of_nat w = n.
Proof. intros. by apply Z.mod_small. Qed.

(** [ICAL.Time.fromDateString] reads, off the date part of the ISO text of
    an instant whose year has four digits, the UTC calendar date of the
    instant. *)
Lemma fromDateString_utc_date t :
  0 <= JsDate.getUTCFullYear t <= 9999 ->
  Time_fromDateString (JsDate.iso_date t) = inr (utc_date t).
Proof.
  intros Hy. pose proof (date_fields t) as [Hm Hd].
  unfold JsDate.iso_date, utc_date, JsDate.iso_year.
  assert (((0 <=? JsDate.getUTCFullYear t) && (JsDate.getUTCFullYear t <=? 9999)) = true)
    as -> by lia.
  revert Hy Hm Hd.
  generalize (JsDate.getUTCFullYear t) (JsDate.getUTCMonth t + 1) (JsDate.getUTCDate t).
  intros y m d Hy Hm Hd. unfold Time_fromDateString, strictParseInt, substr.
  assert (String.substring 0 4 (JsDate.digits 4 y +:+ "-" +:+ JsDate.digits 2 m
                                  +:+ "-" +:+ JsDate.digits 2 d) = JsDate.digits 4 y) as ->.
  { rewrite digits_4, !digits_2. reflexivity. }
  assert (String.substring 5 2 (JsDate.digits 4 y +:+ "-" +:+ JsDate.digits 2 m
                                  +:+ "-" +:+ JsDate.digits 2 d) = JsDate.digits 2 m) as ->.
  { rewrite digits_4, !digits_2. reflexivity. }
  assert (String.substring 8 2 (JsDate.digits 4 y +:+ "-" +:+ JsDate.digits 2 m
                                  +:+ "-" +:+ JsDate.digits 2 d) = JsDate.digits 2 d) as ->.
  { rewrite digits_4, !digits_2. reflexivity. }
  rewrite !parseInt_digits.
  rewrite !small_mod by (simpl; lia). reflexivity.
Qed.

(** For a whole-day event whose start and end fall in years of four digits,
    the encoder writes as DTSTART and DTEND the UTC calendar dates of the
    start and of the end: the time of day and the time zone of the two
    instants play no part. *)
Theorem wholeDay_utc_dates prodId now event uid :
  ev_wholeDay event = true ->
  0 <= JsDate.getUTCFullYear (ev_start event) <= 9999 ->
  0 <= JsDate.getUTCFullYear (ev_end event) <= 9999 ->
  exists vevent,
    build_vcalendar prodId now event uid
      = inr (mkComponent "vcalendar"
               [mkProperty "version" [] (Text "2.0");
                mkProperty "method" [] (Text "REQUEST");
                mkProperty "prodid" [] (Text prodId)]
               [vevent]) /\
    getAllProperties vevent "dtstart"
      = [mkProperty "dtstart" [] (DateTime (utc_date (ev_start event)))] /\
    getAllProperties vevent "dtend"
      = [mkProperty "dtend" [] (DateTime (utc_date (ev_end event)))].
Proof.
  intros Hwd Hs He.
  unfold build_vcalendar, build_vevent, set_times.
  rewrite Hwd, !iso_date_part_iso_date, !fromDateString_utc_date by done.
  cbn [and_then map_ok].
  eexists. split; [reflexivity|].
  unfold getAllProperties. rewrite !properties_alarms.
  split; destruct (ev_recurrenceRule event); reflexivity.
Qed.

End WholeDayDates.


(** ** Splitting and joining *)

Section SplitJoin.

Import ICAL.

Lemma rev_append_rev_append a cur acc :
  rev_append (rev_append a cur) acc = rev_append cur (a +:+ acc).
Proof.
  revert cur. induction a as [|c a IH]; intros cur; simpl; [done|]. by rewrite IH.
Qed.

Lemma append_nil_r (s : string) : s +:+ "" = s.
Proof. induction s as [|c s IH]; simpl; [done | by rewrite IH]. Qed.

Lemma rev_rev_append a : rev (rev_append a "") = a.
Proof. unfold rev. rewrite rev_append_rev_append. simpl. apply append_nil_r. Qed.

Lemma split_on_free sep a rest cur :
  free_of (fun c => Ascii.eqb c sep) a ->
  split_on sep (a +:+ rest) cur = split_on sep rest (rev_append a cur).
Proof.
  unfold free_of. revert cur. induction a as [|c a IH]; intros cur; simpl; [done|].
  rewrite andb_true_iff. intros [Hc Ha]. apply negb_true_iff in Hc. rewrite Hc.
  by apply IH.
Qed.

(** A text without separator is one part; a part, a separator and a text are
    the part and the parts of the text. *)
Lemma split_free sep a :
  free_of (fun c => Ascii.eqb c sep) a -> split sep a = [a].
Proof.
  intros Ha. unfold split. rewrite <- (append_nil_r a) at 1.
  rewrite (split_on_free _ _ _ _ Ha). simpl. by rewrite rev_rev_append.
Qed.

Lemma split_cons sep a b :
  free_of (fun c => Ascii.eqb c sep) a ->
  split sep (a +:+ String sep b) = a :: split sep b.
Proof.
  intros Ha. unfold split. rewrite (split_on_free _ _ _ _ Ha). simpl.
  by rewrite Ascii.eqb_refl, rev_rev_append.
Qed.

Lemma split_join sep parts :
  parts <> [] ->
  Forall (free_of (fun c => Ascii.eqb c sep)) parts ->
  split sep (join (String sep "") parts) = parts.
Proof.
  intros Hne Hall. induction Hall as [|p parts Hp Hall IH]; [done|].
  destruct parts as [|p' parts].
  - simpl. by apply split_free.
  - cbn [join]. cbn [String.append]. rewrite (split_cons _ _ _ Hp). f_equal.
    by apply IH.
Qed.

Lemma free_of_app class a b : free_of class a -> free_of class b -> free_of class (a +:+ b).
Proof. unfold free_of. intros Ha Hb. by rewrite all_chars_app, Ha, Hb. Qed.

Lemma free_of_weaken (class class' : ascii -> bool) s :
  (forall c, class' c = true -> class c = true) -> free_of class s -> free_of class' s.
Proof.
  intros Hc. unfold free_of. apply all_chars_impl. intros c Hn.
  apply negb_true_iff in Hn. apply negb_true_iff.
  destruct (class' c) eqn:E; [|done]. apply Hc in E. congruence.
Qed.

Lemma free_of_join class sep parts :
  (forall c, class c = true -> Ascii.eqb c sep = false) ->
  Forall (free_of class) parts ->
  free_of class (join (String sep "") parts).
Proof.
  intros Hsep Hall. induction Hall as [|p parts Hp Hall IH]; [done|].
  destruct parts as [|p' parts]; [done|].
  cbn [join]. apply free_of_app; [done|]. cbn [String.append].
  unfold free_of. cbn [all_chars]. fold (free_of class (join (String sep "") (p' :: parts))).
  rewrite IH, andb_true_r. apply negb_true_iff.
  destruct (class sep) eqn:E; [|done]. apply Hsep in E. by rewrite Ascii.eqb_refl in E.
Qed.

End SplitJoin.

(** ** Numbers and their decimal text *)

Section DecimalText.

Import ICAL.
Local Open Scope Z_scope.

Lemma decimal_width (z : Z) :
  0 < z -> exists w, 10 ^ Z.of_nat w <= z < 10 ^ Z.of_nat (S w).
Proof.
  intros Hz. assert (Hnat : exists n, Z.to_nat z = n) by eauto.
  destruct Hnat as [n Hn]. revert z Hz Hn.
  induction (lt_wf n) as [n _ IH]. intros z Hz Hn.
  destruct (Z_lt_ge_dec z 10) as [Hlt|Hge].
  - exists 0%nat. simpl. lia.
  - destruct (IH (Z.to_nat (z / 10))) with (z := z / 10) as [w Hw].
    + subst n. apply Z2Nat.inj_lt; [apply Z.div_pos; lia | lia |].
      apply Z.div_lt; lia.
    + apply Z.div_str_pos. lia.
    + done.
    + exists (S w). rewrite !Nat2Z.inj_succ, !Z.pow_succ_r in * by lia.
      Z.div_mod_to_equations. lia.
Qed.

(** The decimal text of a number is read back as the number. *)
Lemma parseInt_pretty (z : Z) : parseInt (pretty z) = Some z.
Proof.
  destruct z as [|p|p].
  - reflexivity.
  - destruct (decimal_width (Z.pos p)) as [w Hw]; [done|].
    rewrite (pretty_Z_digits w _ Hw), parseInt_digits. f_equal.
    apply Z.mod_small. lia.
  - destruct (decimal_width (Z.pos p)) as [w Hw]; [done|].
    change (pretty (Z.neg p)) with ("-" +:+ pretty (Z.pos p)).
    rewrite (pretty_Z_digits w _ Hw).
    unfold parseInt. cbn [String.append trimStart is_space].
    change (is_space "-") with false. cbv iota.
    pose proof (leading_digits_digits (S w) (Z.pos p) "" 0 false) as Hl.
    rewrite append_nil_r in Hl. rewrite Hl. cbn [leading_digits Nat.eqb negb orb].
    f_equal. rewrite Z.mod_small by lia. lia.
Qed.

Lemma pretty_free (z : Z) : free_of rule_separator (pretty z).
Proof.
  assert (Hdig : forall w n, free_of rule_separator (JsDate.digits w n)).
  { intros w n. unfold free_of. apply (all_chars_impl is_digit); [|apply digits_all_digits].
    intros c Hc. apply negb_true_iff. unfold rule_separator.
    destruct (Ascii.eqb_spec c ";") as [->|]; [done|].
    destruct (Ascii.eqb_spec c "=") as [->|]; [done|].
    destruct (Ascii.eqb_spec c ",") as [->|]; done. }
  destruct z as [|p|p].
  - done.
  - destruct (decimal_width (Z.pos p)) as [w Hw]; [done|].
    rewrite (pretty_Z_digits w _ Hw). apply Hdig.
  - destruct (decimal_width (Z.pos p)) as [w Hw]; [done|].
    change (pretty (Z.neg p)) with ("-" +:+ pretty (Z.pos p)).
    rewrite (pretty_Z_digits w _ Hw). apply free_of_app; [done | apply Hdig].
Qed.

End DecimalText.

(** ** Recurrence rules, written and read back *)

Section Rules.

Import ICAL.
Local Open Scope Z_scope.

Context (codec : Codec).

Lemma Recur_fold_app r l1 l2 :
  Recur_fold codec r (l1 ++ l2)
  = and_then (Recur_fold codec r l1) (fun r' => Recur_fold codec r' l2).
Proof.
  revert r. induction l1 as [|kv l1 IH]; intros r; simpl; [done|].
  destruct (Recur_set codec r kv); simpl; [done | apply IH].
Qed.

Lemma free_of_equals v :
  free_of rule_separator v -> free_of (fun c => Ascii.eqb c "=") v.
Proof.
  apply free_of_weaken. intros c Hc. unfold rule_separator. by rewrite Hc, orb_true_r.
Qed.

Lemma free_of_semicolon v :
  free_of rule_separator v -> free_of (fun c => Ascii.eqb c ";") v.
Proof. apply free_of_weaken. intros c Hc. unfold rule_separator. by rewrite Hc. Qed.

Lemma free_of_comma v :
  free_of rule_separator v -> free_of (fun c => Ascii.eqb c ",") v.
Proof.
  apply free_of_weaken. intros c Hc. unfold rule_separator. by rewrite Hc, !orb_true_r.
Qed.

(** One [KEY=value] of a rule text, split at its equals sign. *)
Lemma split_key key v :
  free_of (fun c => Ascii.eqb c "=") key ->
  free_of (fun c => Ascii.eqb c "=") v ->
  split "=" (key +:+ "=" +:+ v) = [key; v].
Proof.
  intros Hk Hv. cbn [String.append]. rewrite (split_cons _ _ _ Hk). f_equal.
  by apply split_free.
Qed.

Lemma part_values_text codes :
  part_values false codes = inr (map JStr codes).
Proof. induction codes as [|c codes IH]; simpl; [done | by rewrite IH]. Qed.

Lemma part_values_numbers ns :
  part_values true (map pretty ns) = inr (map JNum ns).
Proof.
  induction ns as [|n ns IH]; [done|]. cbn [map part_values].
  unfold strictParseInt. rewrite parseInt_pretty, IH. done.
Qed.

Lemma Recur_set_freq r f :
  free_of rule_separator f ->
  Recur_set codec r ("FREQ" +:+ "=" +:+ f)
  = inr (mkRecur (Some f) (r_interval r) (r_count r) (r_until r) (r_parts r)).
Proof.
  intros Hf. unfold Recur_set. rewrite split_key; [done | done | by apply free_of_equals].
Qed.

Lemma Recur_set_interval r n :
  Recur_set codec r ("INTERVAL" +:+ "=" +:+ pretty n)
  = inr (mkRecur (r_freq r) (Z.max 1 n) (r_count r) (r_until r) (r_parts r)).
Proof.
  unfold Recur_set.
  rewrite split_key; [|done | apply free_of_equals, pretty_free].
  change (toUpperCase "INTERVAL") with "INTERVAL". cbn [String.eqb Ascii.eqb Bool.eqb].
  unfold strictParseInt. by rewrite parseInt_pretty.
Qed.

Lemma Recur_set_count r n :
  Recur_set codec r ("COUNT" +:+ "=" +:+ pretty n)
  = inr (mkRecur (r_freq r) (r_interval r) (Some n) (r_until r) (r_parts r)).
Proof.
  unfold Recur_set.
  rewrite split_key; [|done | apply free_of_equals, pretty_free].
  change (toUpperCase "COUNT") with "COUNT". cbn [String.eqb Ascii.eqb Bool.eqb].
  unfold strictParseInt. by rewrite parseInt_pretty.
Qed.

Lemma Recur_set_byday r codes :
  codes <> [] ->
  Forall (free_of rule_separator) codes ->
  Recur_set codec r ("BYDAY" +:+ "=" +:+ join "," codes)
  = inr (mkRecur (r_freq r) (r_interval r) (r_count r) (r_until r)
           (r_parts r ++ [("BYDAY", map JStr codes)])).
Proof.
  intros Hne Hall. unfold Recur_set.
  rewrite split_key; [|done|].
  2:{ apply free_of_join; [intros c ->%Ascii.eqb_eq; done|].
      eapply Forall_impl; [exact Hall|]. intros code. apply free_of_equals. }
  change (toUpperCase "BYDAY") with "BYDAY". cbn [String.eqb Ascii.eqb Bool.eqb existsb by_parts orb negb].
  rewrite split_join; [|done|].
  2:{ eapply Forall_impl; [exact Hall|]. intros code. apply free_of_comma. }
  by rewrite part_values_text.
Qed.

Lemma Recur_set_numbers r key ns :
  key = "BYMONTHDAY" \/ key = "BYMONTH" ->
  ns <> [] ->
  Recur_set codec r (key +:+ "=" +:+ join "," (map pretty ns))
  = inr (mkRecur (r_freq r) (r_interval r) (r_count r) (r_until r)
           (r_parts r ++ [(key, map JNum ns)])).
Proof.
  intros Hkey Hne. unfold Recur_set.
  assert (Hfree : Forall (free_of rule_separator) (map pretty ns)).
  { apply Forall_forall. intros s (n & -> & _)%list_elem_of_fmap. apply pretty_free. }
  assert (Hjoin : free_of (fun c => Ascii.eqb c "=") (join "," (map pretty ns))).
  { apply free_of_join; [intros c ->%Ascii.eqb_eq; done|].
    eapply Forall_impl; [exact Hfree|]. intros code. apply free_of_equals. }
  assert (Hsplit : split "," (join "," (map pretty ns)) = map pretty ns).
  { apply split_join; [by destruct ns|].
    eapply Forall_impl; [exact Hfree|]. intros code. apply free_of_comma. }
  destruct Hkey as [-> | ->].
  - rewrite split_key by done.
    change (toUpperCase "BYMONTHDAY") with "BYMONTHDAY".
    cbn [String.eqb Ascii.eqb Bool.eqb existsb by_parts orb negb].
    by rewrite Hsplit, part_values_numbers.
  - rewrite split_key by done.
    change (toUpperCase "BYMONTH") with "BYMONTH".
    cbn [String.eqb Ascii.eqb Bool.eqb existsb by_parts orb negb].
    by rewrite Hsplit, part_values_numbers.
Qed.

Lemma text_list l :
  Forall (fun v => exists code, v = JStr code /\ free_of rule_separator code) l ->
  exists codes, l = map JStr codes /\ Forall (free_of rule_separator) codes.
Proof.
  induction 1 as [|v l (code & -> & Hcode) _ (codes & -> & Hcodes)].
  - by exists [].
  - exists (code :: codes). split; [done | by constructor].
Qed.

Lemma number_list l :
  Forall (fun v => exists n, v = JNum n) l -> exists ns, l = map JNum ns.
Proof.
  induction 1 as [|v l (n & ->) _ (ns & ->)].
  - by exists [].
  - by exists (n :: ns).
Qed.

Lemma join_values_text codes : join_values (map JStr codes) = join "," codes.
Proof. unfold join_values. by rewrite map_map, map_id. Qed.

Lemma join_values_numbers ns : join_values (map JNum ns) = join "," (map pretty ns).
Proof. unfold join_values. by rewrite map_map. Qed.

Lemma join_free codes :
  Forall (free_of rule_separator) codes ->
  free_of (fun c => Ascii.eqb c ";") (join "," codes).
Proof.
  intros Hall. apply free_of_join; [intros c ->%Ascii.eqb_eq; done|].
  eapply Forall_impl; [exact Hall|]. intros code. apply free_of_semicolon.
Qed.

Lemma frequency_facts f :
  f ∈ ["DAILY"; "WEEKLY"; "MONTHLY"; "YEARLY"] ->
  String.eqb f "" = false /\ free_of rule_separator f /\
  existsb (String.eqb f) ["DAILY"; "WEEKLY"; "MONTHLY"; "YEARLY"] = true.
Proof.
  intros Hf. repeat (apply elem_of_cons in Hf as [->|Hf]; [done|]).
  by apply elem_of_nil in Hf.
Qed.

(** The entries of a rule object, as text. *)
Lemma props_toICAL_split props :
  props <> [] ->
  Forall (fun kv => free_of (fun c => Ascii.eqb c ";")
                      (toUpperCase kv.1 +:+ "=" +:+ js_toString kv.2)) props ->
  split ";" (props_toICAL props)
  = map (fun kv => toUpperCase kv.1 +:+ "=" +:+ js_toString kv.2) props.
Proof.
  intros Hne Hall. unfold props_toICAL. apply split_join.
  - by destruct props.
  - apply Forall_forall. intros s (kv & -> & Hin)%list_elem_of_fmap.
    rewrite Forall_forall in Hall. by apply Hall.
Qed.

(** A plain rule the encoder wrote, as the decoder reads it. *)
Lemma rule_read_back r :
  separable_rule r ->
  map_ok (parseRecurrence codec)
         (Recur_fromString codec (props_toICAL (rruleProps r)))
  = inr (decoded_rule r).
Proof.
  intros ((f & Hfreq & Hf) & Huntil & Hday & Hmonthday & Hmonth).
  destruct (frequency_facts f Hf) as (Hne & Hfree & Hknown).
  assert (Hdays : byday r = None \/
                  exists codes, byday r = Some (map JStr codes) /\ codes <> [] /\
                                Forall (free_of rule_separator) codes).
  { destruct (byday r) as [l|]; [right | by left].
    destruct (Hday l eq_refl) as [Hl (codes & -> & Hcodes)%text_list].
    exists codes. split; [done|]. split; [|done]. by destruct codes. }
  assert (Hmonthdays : bymonthday r = None \/
                       exists ns, bymonthday r = Some (map JNum ns) /\ ns <> []).
  { destruct (bymonthday r) as [l|]; [right | by left].
    destruct (Hmonthday l eq_refl) as [Hl (ns & ->)%number_list].
    exists ns. split; [done|]. by destruct ns. }
  assert (Hmonths : bymonth r = None \/
                    exists ns, bymonth r = Some (map JNum ns) /\ ns <> []).
  { destruct (bymonth r) as [l|]; [right | by left].
    destruct (Hmonth l eq_refl) as [Hl (ns & ->)%number_list].
    exists ns. split; [done|]. by destruct ns. }
  unfold Recur_fromString, decoded_rule.
  rewrite props_toICAL_split.
  2:{ unfold rruleProps. rewrite Hfreq. cbn [falsy default]. by rewrite Hne. }
  2:{ unfold rruleProps. rewrite Hfreq, Huntil. cbn [falsy default]. rewrite Hne.
      cbn [negb]. rewrite !Forall_app. repeat split.
      - constructor; [|done]. cbn [fst snd js_toString].
        change (toUpperCase "FREQ") with "FREQ".
        apply free_of_app; [done|]. apply free_of_app; [done|].
        by apply free_of_semicolon.
      - destruct (interval r) as [n|]; [|done]. destruct (n =? 0); [done|].
        constructor; [|done]. cbn [fst snd js_toString].
        apply free_of_app; [done|]. apply free_of_app; [done|].
        apply free_of_semicolon, pretty_free.
      - destruct (count r) as [n|]; [|done]. destruct (n =? 0); [done|].
        constructor; [|done]. cbn [fst snd js_toString].
        apply free_of_app; [done|]. apply free_of_app; [done|].
        apply free_of_semicolon, pretty_free.
      - done.
      - destruct Hdays as [-> | (codes & -> & _ & Hcodes)]; [done|].
        constructor; [|done]. cbn [fst snd js_toString]. rewrite join_values_text.
        apply free_of_app; [done|]. apply free_of_app; [done|]. by apply join_free.
      - destruct Hmonthdays as [-> | (ns & -> & _)]; [done|].
        constructor; [|done]. cbn [fst snd js_toString]. rewrite join_values_numbers.
        apply free_of_app; [done|]. apply free_of_app; [done|]. apply join_free.
        apply Forall_forall. intros s (n & -> & _)%list_elem_of_fmap. apply pretty_free.
      - destruct Hmonths as [-> | (ns & -> & _)]; [done|].
        constructor; [|done]. cbn [fst snd js_toString]. rewrite join_values_numbers.
        apply free_of_app; [done|]. apply free_of_app; [done|]. apply join_free.
        apply Forall_forall. intros s (n & -> & _)%list_elem_of_fmap. apply pretty_free. }
  unfold rruleProps. rewrite Hfreq, Huntil. cbn [falsy default]. rewrite Hne. cbn [negb].
  rewrite !map_app, !Recur_fold_app.
  cbn [map Recur_fold fst snd js_toString].
  change (toUpperCase "FREQ") with "FREQ".
  rewrite (Recur_set_freq _ _ Hfree). cbn [and_then].
  destruct (interval r) as [n|]; [destruct (Z.eqb_spec n 0) as [->|_]|];
    (destruct (count r) as [m|]; [destruct (m =? 0) eqn:Hm|]);
    destruct Hdays as [-> | (codes & -> & Hsome & Hcodes)];
    destruct Hmonthdays as [-> | (days & -> & Hdays)];
    destruct Hmonths as [-> | (months & -> & Hmonths)];
    cbn [map app Recur_fold fst snd js_toString and_then];
    rewrite ?join_values_text, ?join_values_numbers;
    change (toUpperCase "INTERVAL") with "INTERVAL";
    change (toUpperCase "COUNT") with "COUNT";
    change (toUpperCase "BYDAY") with "BYDAY";
    change (toUpperCase "BYMONTHDAY") with "BYMONTHDAY";
    change (toUpperCase "BYMONTH") with "BYMONTH";
    rewrite ?Recur_set_interval, ?Recur_set_count;
    rewrite ?Recur_set_byday by done;
    rewrite ?(Recur_set_numbers _ "BYMONTHDAY") by (done || by left);
    rewrite ?(Recur_set_numbers _ "BYMONTH") by (done || by right);
    unfold parseRecurrence;
    cbn [map_ok r_freq r_interval r_count r_until r_parts Recur_new default app];
    rewrite Hknown, ?Hm; reflexivity.
Qed.

(** What is read back of such a rule is such a rule again, and reading it
    once more changes nothing. *)
Lemma decoded_rule_separable r :
  separable_rule r ->
  separable_rule (decoded_rule r) /\ decoded_rule (decoded_rule r) = decoded_rule r.
Proof.
  intros (Hfreq & Huntil & Hday & Hmonthday & Hmonth). split.
  - unfold separable_rule, decoded_rule.
    cbn [freq interval count until byday bymonthday bymonth].
    repeat (split; [assumption || reflexivity|]). assumption.
  - unfold decoded_rule. cbn [freq interval count until byday bymonthday bymonth default].
    unfold id. rewrite (Z.max_r 1 (Z.max 1 _)) by lia.
    destruct (count r) as [n|]; [|done]. by destruct (n =? 0) eqn:Hn; [|rewrite Hn].
Qed.

Lemma day_code_free code : code ∈ day_codes -> free_of rule_separator code.
Proof.
  unfold day_codes. intros Hin.
  repeat (apply elem_of_cons in Hin as [->|Hin]; [done|]).
  by apply elem_of_nil in Hin.
Qed.

Lemma plain_rule_separable r : plain_rule r -> separable_rule r.
Proof.
  intros (Hfreq & _ & _ & Huntil & Hday & Hmonthday & Hmonth).
  split; [done|]. split; [done|]. split; [|split].
  - intros l Hl. destruct (Hday l Hl) as [Hne Hall]. split; [done|].
    eapply Forall_impl; [exact Hall|]. intros v (code & -> & Hcode).
    exists code. split; [done | by apply day_code_free].
  - intros l Hl. destruct (Hmonthday l Hl) as [Hne Hall]. split; [done|].
    eapply Forall_impl; [exact Hall|]. intros v (n & -> & _). by exists n.
  - intros l Hl. destruct (Hmonth l Hl) as [Hne Hall]. split; [done|].
    eapply Forall_impl; [exact Hall|]. intros v (n & -> & _). by exists n.
Qed.

Lemma decoded_rule_plain r : plain_rule r -> plain_rule (decoded_rule r).
Proof.
  intros (Hfreq & Hinterval & Hcount & Huntil & Hday & Hmonthday & Hmonth).
  unfold plain_rule, decoded_rule.
  cbn [freq interval count until byday bymonthday bymonth].
  split; [done|]. split; [|split; [|done]].
  - intros n [= <-]. unfold safe_integer in *.
    change (2 ^ 53) with 9007199254740992 in *.
    destruct (interval r) as [m|]; cbn [default]; unfold id; [|lia].
    specialize (Hinterval m eq_refl). lia.
  - intros n Hn. destruct (count r) as [m|]; [|done].
    destruct (m =? 0); [done|]. injection Hn as <-. by apply Hcount.
Qed.

(** The round trip of a recurrence rule through the encoder's rule object
    and the decoder: a plain rule (a frequency among DAILY, WEEKLY, MONTHLY
    and YEARLY; an interval and a count that are safe integers; no end date;
    lists that are not empty, of day codes among SU, MO, TU, WE, TH, FR and
    SA, of days of the month from 1 to 31, of months from 1 to 12) written
    by [buildICSData] as the entries of a rule object, turned into text and
    read back by [ICAL.Recur.fromString] and [parseRecurrence], comes back
    with its frequency and its lists, its interval made explicit (1 when it
    was absent or below 1) and a count of 0 read as no count; what comes
    back is a plain rule, and a second round trip changes nothing more. *)
Theorem rule_roundtrip r :
  plain_rule r ->
  map_ok (parseRecurrence codec) (Recur_fromString codec (props_toICAL (rruleProps r)))
  = inr (decoded_rule r) /\
  plain_rule (decoded_rule r) /\
  map_ok (parseRecurrence codec)
         (Recur_fromString codec (props_toICAL (rruleProps (decoded_rule r))))
  = inr (decoded_rule r).
Proof.
  intros Hplain. pose proof (plain_rule_separable r Hplain) as Hsep.
  destruct (decoded_rule_separable r Hsep) as [Hsep' Hsame].
  split; [by apply rule_read_back|]. split; [by apply decoded_rule_plain|].
  rewrite (rule_read_back _ Hsep'). by rewrite Hsame.
Qed.

End Rules.


(** ** Encoding and decoding back, in general *)

Section RoundTrips.

Import ICAL.

Context (codec : Codec) (resolve : JVal -> string -> JsError + string).
Context (decode : string -> JVal).

Lemma properties_attendees attendees valarm :
  fold_left (fun valarm attendee => addPropertyWithValue valarm "attendee" (Text attendee))
            attendees valarm
  = mkComponent (comp_name valarm)
      (properties valarm ++ map (fun a => mkProperty "attendee" [] (Text a)) attendees)
      (subcomponents valarm).
Proof.
  revert valarm. induction attendees as [|a attendees IH]; intros valarm; simpl.
  - rewrite app_nil_r. by destruct valarm.
  - rewrite IH. simpl. by rewrite <- app_assoc.
Qed.

Lemma attendees_read_back attendees :
  flat_map (fun p => match prop_value p with Text s => [s] | _ => [] end)
    (List.filter (fun p => String.eqb (prop_name p) "attendee")
       (map reread_property (map (fun a => mkProperty "attendee" [] (Text a)) attendees)))
  = attendees.
Proof. induction attendees as [|a attendees IH]; simpl; [done | by rewrite IH]. Qed.

Lemma truthy_text_Some s : String.eqb s "" = false -> truthy_text (Some s) = Some s.
Proof. intros H. unfold truthy_text. simpl. by rewrite H. Qed.

Lemma truthy_text_falsy o : falsy o = true -> truthy_text o = None.
Proof. intros H. unfold truthy_text. by rewrite H. Qed.

Lemma truthy_text_truthy o :
  falsy o = false -> truthy_text o = Some (default "" o) /\ String.eqb (default "" o) "" = false.
Proof. intros H. unfold truthy_text. rewrite H. by destruct o. Qed.

Lemma find_attendees name attendees :
  String.eqb "attendee" name = false ->
  List.find (fun p => String.eqb (prop_name p) name)
    (map reread_property (map (fun a => mkProperty "attendee" [] (Text a)) attendees))
  = None.
Proof.
  intros Hname. induction attendees as [|a attendees IH]; [done|].
  cbn [map List.find reread_property prop_name]. 
  change (toLowerCase "attendee") with "attendee". by rewrite Hname.
Qed.

Lemma simple_duration_nonempty trigger : simple_duration trigger -> trigger <> "".
Proof.
  intros (sign & n & [-> | ->] & _ & _ & [-> | [-> | [-> | [-> | ->]]]]); discriminate.
Qed.

(** An alarm written by the encoder and read back by the decoder. *)
Lemma alarm_of_valarm_of a :
  alarm_trigger a <> "" -> alarm_of (reread (valarm_of a)) = [alarm_read_back a].
Proof.
  unfold alarm_read_back.
  destruct a as [t d|t d s attendees|t]; cbn [alarm_trigger]; intros Ht%String.eqb_neq.
  - unfold valarm_of. cbn [alarm_trigger alarm_action].
    destruct (falsy d) eqn:Ed; cbn [negb].
    + rewrite (truthy_text_falsy _ Ed).
      unfold alarm_of, getFirstPropertyValue, getFirstProperty, value_text. simpl.
      by rewrite Ht.
    + destruct (truthy_text_truthy _ Ed) as [-> _].
      unfold alarm_of, getFirstPropertyValue, getFirstProperty, value_text. simpl.
      by rewrite Ht.
  - unfold valarm_of. cbn [alarm_trigger alarm_action].
    rewrite properties_attendees.
    destruct (falsy s) eqn:Es; destruct (falsy d) eqn:Ed; cbn [negb];
      rewrite ?(truthy_text_falsy _ Es), ?(truthy_text_falsy _ Ed);
      try (destruct (truthy_text_truthy _ Es) as [-> _]);
      try (destruct (truthy_text_truthy _ Ed) as [-> _]);
      unfold alarm_of, getFirstPropertyValue, getFirstProperty, getAllProperties, value_text;
      simpl; rewrite ?find_attendees by reflexivity; simpl;
      rewrite ?attendees_read_back; by rewrite Ht.
  - unfold valarm_of, alarm_of, getFirstPropertyValue, getFirstProperty, value_text. simpl.
    by rewrite Ht.
Qed.

(** An alarm whose trigger is a simple duration, written by the encoder as
    a [valarm] and read back by the decoder, comes back as one alarm: the
    alarm as it was, an empty description or summary being read as an
    absent one. *)
Theorem alarm_roundtrip a :
  simple_duration (alarm_trigger a) ->
  alarm_of (reread (valarm_of a)) = [alarm_read_back a] /\
  (match a with
   | DisplayAlarm _ d => d <> Some ""
   | EmailAlarm _ d s _ => d <> Some "" /\ s <> Some ""
   | AudioAlarm _ => True
   end ->
   alarm_of (reread (valarm_of a)) = [a]).
Proof.
  intros Ht%simple_duration_nonempty. rewrite (alarm_of_valarm_of _ Ht).
  split; [done|]. unfold alarm_read_back.
  assert (Htext : forall o : option string, o <> Some "" -> truthy_text o = o).
  { intros [s|] Ho; [|done]. apply truthy_text_Some, String.eqb_neq. congruence. }
  destruct a as [t d|t d s attendees|t]; [| |done].
  - intros Hd. by rewrite (Htext _ Hd).
  - intros [Hd Hs]. by rewrite (Htext _ Hd), (Htext _ Hs).
Qed.

Lemma fold_alarms alarms c :
  fold_left (fun c alarm => addSubcomponent c (valarm_of alarm)) alarms c
  = mkComponent (comp_name c) (properties c) (subcomponents c ++ map valarm_of alarms).
Proof.
  revert c. induction alarms as [|a alarms IH]; intros c; simpl.
  - rewrite app_nil_r. by destruct c.
  - rewrite IH. simpl. by rewrite <- app_assoc.
Qed.

Lemma comp_name_valarm a : comp_name (reread (valarm_of a)) = "valarm".
Proof.
  destruct a as [t d|t d s attendees|t]; unfold valarm_of; cbn [alarm_trigger alarm_action].
  - by destruct (negb (falsy d)).
  - rewrite properties_attendees. by destruct (negb (falsy s)), (negb (falsy d)).
  - done.
Qed.

(** The alarms the decoder reads off a component whose sub-components are
    the alarms the encoder wrote. *)
Lemma alarms_read_back name props alarms :
  simple_triggers alarms ->
  alarms_of (reread (mkComponent name props (map valarm_of alarms)))
  = map alarm_read_back alarms.
Proof.
  unfold alarms_of, getAllSubcomponents. cbn [reread subcomponents].
  induction 1 as [|a alarms Ha _ IH]; [done|].
  cbn [map List.filter]. rewrite comp_name_valarm. cbn [String.eqb Ascii.eqb Bool.eqb].
  cbn [flat_map]. rewrite alarm_of_valarm_of by (by apply simple_duration_nonempty).
  by rewrite IH.
Qed.

Lemma build_vevent_timed now e uid :
  ev_wholeDay e = false ->
  build_vevent now e uid
  = inr (mkComponent "vevent"
           ([mkProperty "uid" [] (Text uid);
             mkProperty "dtstamp" [] (DateTime (Time_fromJSDate_utc now));
             timed "dtstart" (ev_startTzid e) (ev_start e);
             timed "dtend" (ev_endTzid e) (ev_end e);
             mkProperty "summary" [] (Text (ev_summary e));
             mkProperty "description" []
               (Text (if falsy (ev_description e) then "" else default "" (ev_description e)));
             mkProperty "location" []
               (Text (if falsy (ev_location e) then "" else default "" (ev_location e)))]
            ++ match ev_recurrenceRule e with
               | Some r => [mkProperty "rrule" [] (RecurProps (rruleProps r))]
               | None => []
               end)
           (map valarm_of (ev_alarms e))).
Proof.
  intros Hwd. unfold build_vevent, set_times, timed. rewrite Hwd.
  destruct (falsy (ev_startTzid e)), (falsy (ev_endTzid e)), (ev_recurrenceRule e);
    cbn [negb and_then]; by rewrite fold_alarms.
Qed.

Lemma reread_property_text name params s :
  reread_property (mkProperty name params (Text s))
  = mkProperty (toLowerCase name) params (Text s).
Proof. reflexivity. Qed.

Lemma reread_property_time name params t :
  reread_property (mkProperty name params (DateTime t))
  = mkProperty (toLowerCase name) params (DateTime t).
Proof. reflexivity. Qed.

Ltac lower_names :=
  repeat match goal with
         | |- context [toLowerCase ?s] =>
             let x := eval vm_compute in (toLowerCase s) in
             change (toLowerCase s) with x
         end.

Ltac read_properties :=
  cbn [List.find List.filter prop_name prop_value prop_params String.eqb Ascii.eqb
       Bool.eqb fmap option_fmap option_map getParameter fst snd].

Lemma tzid_read_back tzid :
  getParameter (if falsy tzid then [] else [("tzid", default "" tzid)]) "tzid"
  = truthy_text tzid.
Proof. unfold truthy_text. destruct (falsy tzid) eqn:E; [done|]. by destruct tzid. Qed.

Lemma text_read_back text :
  truthy_text (Some (if falsy text then "" else default "" text)) = truthy_text text.
Proof.
  unfold truthy_text. destruct (falsy text) eqn:E; [done|].
  destruct text as [s|]; [|done]. simpl in *. by rewrite E.
Qed.

Lemma comp_name_reread c : comp_name (reread c) = toLowerCase (comp_name c).
Proof. by destruct c. Qed.

(** The event the decoder reads off the component the encoder built. *)
Lemma event_of_built now e uid eventData obj vevent :
  ev_wholeDay e = false ->
  (forall r, ev_recurrenceRule e = Some r -> plain_rule r) ->
  simple_triggers (ev_alarms e) ->
  build_vevent now e uid = inr vevent ->
  event_of codec resolve eventData obj None (reread vevent)
  = inr (decoded_event uid eventData obj e).
Proof.
  intros Hwd Hrule Halarms. rewrite (build_vevent_timed _ _ _ Hwd). intros [= <-].
  unfold event_of. rewrite (alarms_read_back _ _ _ Halarms).
  unfold getFirstPropertyValue, getFirstProperty, timed, decoded_event.
  destruct (ev_recurrenceRule e) as [r|].
  - pose proof (rule_read_back codec r (plain_rule_separable r (Hrule r eq_refl))) as Hread.
    cbn [reread properties map app].
    rewrite !reread_property_text, !reread_property_time. lower_names. read_properties.
    unfold reread_property. cbn [prop_value prop_name prop_params]. lower_names.
    read_properties.
    unfold value_toJSDate, resolve_href, value_text, entry_etag.
    cbn [and_then falsy fmap option_fmap option_map Value_toString isDate
         Time_fromJSDate_utc Value_truthy].
    destruct (Recur_fromString codec (props_toICAL (rruleProps r))) as [err|recur];
      [discriminate Hread|].
    assert (Hrecur : parseRecurrence codec recur = decoded_rule r)
      by (cbn [map_ok] in Hread; congruence).
    cbn [map_ok and_then]. rewrite Hrecur.
    rewrite !Time_fromJSDate_toJSDate, !tzid_read_back, !text_read_back.
    do 2 f_equal. unfold truthy_text. cbn [falsy].
    by destruct (String.eqb (ev_summary e) "").
  - cbn [reread properties map app].
    rewrite !reread_property_text, !reread_property_time. lower_names. read_properties.
    unfold value_toJSDate, resolve_href, value_text, entry_etag.
    cbn [and_then falsy fmap option_fmap option_map Value_toString isDate
         Time_fromJSDate_utc].
    rewrite !Time_fromJSDate_toJSDate, !tzid_read_back, !text_read_back.
    do 2 f_equal. unfold truthy_text. cbn [falsy].
    by destruct (String.eqb (ev_summary e) "").
Qed.


Lemma component_eta c : mkComponent (comp_name c) (properties c) (subcomponents c) = c.
Proof. by destruct c. Qed.

Lemma add_date_props c name date :
  add_date c name date
  = mkComponent (comp_name c) (properties c ++ date_prop name date) (subcomponents c).
Proof.
  unfold add_date, date_prop. destruct date; [done|].
  by rewrite app_nil_r, component_eta.
Qed.

Lemma add_text_props c name text :
  add_text c name text
  = mkComponent (comp_name c) (properties c ++ text_prop name text) (subcomponents c).
Proof.
  unfold add_text, text_prop. destruct (falsy text); [|done].
  by rewrite app_nil_r, component_eta.
Qed.

(** The component [buildTodoICSData] builds for a todo, property by
    property. *)
Lemma build_vtodo_props now t uid :
  build_vtodo now t uid
  = mkComponent "vtodo"
      ([mkProperty "uid" [] (Text uid);
        mkProperty "dtstamp" [] (DateTime (Time_fromJSDate_utc now))]
         ++ date_prop "dtstart" (tdd_start t)
         ++ date_prop "due" (tdd_due t)
         ++ date_prop "completed" (tdd_completed t)
         ++ [mkProperty "summary" [] (Text (tdd_summary t))]
         ++ text_prop "description" (tdd_description t)
         ++ text_prop "location" (tdd_location t)
         ++ text_prop "status" (tdd_status t)
         ++ sort_prop (tdd_sortOrder t))
      (map valarm_of (tdd_alarms t)).
Proof.
  unfold build_vtodo. rewrite fold_alarms.
  assert (Hsort : forall c,
            match tdd_sortOrder t with
            | Some n => addPropertyWithValue c "X-APPLE-SORT-ORDER" (Numeric n)
            | None => c
            end
            = mkComponent (comp_name c) (properties c ++ sort_prop (tdd_sortOrder t))
                          (subcomponents c)).
  { intros c. unfold sort_prop. destruct (tdd_sortOrder t); [done|].
    by rewrite app_nil_r, component_eta. }
  rewrite Hsort, !add_text_props, !add_date_props.
  cbn [comp_name properties subcomponents addPropertyWithValue Component_new].
  f_equal. rewrite <- !app_assoc. reflexivity.
Qed.

Lemma find_app {A} (p : A -> bool) (l1 l2 : list A) :
  List.find p (l1 ++ l2)
  = match List.find p l1 with
    | Some x => Some x
    | None => List.find p l2
    end.
Proof. induction l1 as [|x l1 IH]; simpl; [done|]. by destruct (p x). Qed.

Lemma find_date_prop name n date :
  List.find (fun p => String.eqb (prop_name p) name) (map reread_property (date_prop n date))
  = if String.eqb (toLowerCase n) name
    then (fun d => mkProperty (toLowerCase n) [] (DateTime (Time_fromJSDate_utc d))) <$> date
    else None.
Proof.
  unfold date_prop. destruct date as [d|]; cbn [map List.find reread_property prop_name].
  - by destruct (String.eqb (toLowerCase n) name).
  - by destruct (String.eqb (toLowerCase n) name).
Qed.

Lemma find_text_prop name n text :
  List.find (fun p => String.eqb (prop_name p) name) (map reread_property (text_prop n text))
  = if String.eqb (toLowerCase n) name
    then (fun s => mkProperty (toLowerCase n) [] (Text s)) <$> truthy_text text
    else None.
Proof.
  unfold text_prop, truthy_text. destruct (falsy text) eqn:E.
  - by destruct (String.eqb (toLowerCase n) name).
  - cbn [map List.find reread_property prop_name].
    destruct (String.eqb (toLowerCase n) name); [|done]. by destruct text.
Qed.

Lemma find_sort_prop name sortOrder :
  List.find (fun p => String.eqb (prop_name p) name) (map reread_property (sort_prop sortOrder))
  = if String.eqb "x-apple-sort-order" name
    then (fun n => mkProperty "x-apple-sort-order" [] (Text (pretty n))) <$> sortOrder
    else None.
Proof.
  unfold sort_prop. destruct sortOrder as [n|]; cbn [map List.find reread_property prop_name].
  - change (toLowerCase "X-APPLE-SORT-ORDER") with "x-apple-sort-order".
    by destruct (String.eqb "x-apple-sort-order" name).
  - by destruct (String.eqb "x-apple-sort-order" name).
Qed.

(** The todo the decoder reads off the component the encoder built. *)
Lemma todo_of_built now t uid todoData obj :
  simple_triggers (tdd_alarms t) ->
  todo_of codec resolve todoData obj None (reread (build_vtodo now t uid))
  = inr (decoded_todo uid todoData obj t).
Proof.
  intros Halarms.
  rewrite build_vtodo_props. unfold todo_of. rewrite (alarms_read_back _ _ _ Halarms).
  unfold getFirstPropertyValue, getFirstProperty.
  cbn [reread properties].
  rewrite !map_app, !find_app, !find_date_prop, !find_text_prop, !find_sort_prop.
  cbn [map]. rewrite !reread_property_text, !reread_property_time. lower_names.
  read_properties.
  unfold decoded_todo, entry_etag, resolve_href. cbn [falsy and_then Value_truthy].
  generalize (truthy_text (tdd_status t)) (truthy_text (tdd_description t))
    (truthy_text (tdd_location t)).
  intros st de lo.
  destruct (tdd_start t), (tdd_due t), (tdd_completed t);
    cbn [fmap option_fmap option_map prop_value value_toJSDate map_ok and_then];
    rewrite ?Time_fromJSDate_toJSDate;
    destruct st, de, lo, (tdd_sortOrder t), (String.eqb (tdd_summary t) "");
    reflexivity.
Qed.


End RoundTrips.


(** ** What the batch parsers throw on *)

Section ParserEscapes.

Import ICAL.

Context (codec : Codec) (resolve : JVal -> string -> JsError + string).
Context (decode : string -> JVal).

Lemma calendar_data_truthy obj :
  truthy (calendar_data obj) = true ->
  truthy (prop_opt (prop_opt obj "propstat") "prop") = true.
Proof.
  unfold calendar_data.
  destruct (prop_opt (prop_opt obj "propstat") "prop"); simpl; try done.
Qed.

Lemma entry_calendar_data_defined by_ obj :
  obj <> JUndef ->
  entry_calendar_data by_ obj
  = if negb (truthy (prop_opt (prop_opt obj "propstat") "prop")) then inr None
    else if negb (truthy (calendar_data obj)) then inr None
         else map_ok (fun cleaned => Some (prop_opt (prop_opt obj "propstat") "prop", cleaned))
                     (clean_calendar_data by_ (calendar_data obj)).
Proof. intros Hobj. by destruct obj. Qed.

(** An entry throws before its [try] block exactly when it is unreadable;
    what it throws is a type error. *)
Lemma entry_calendar_data_throws by_ obj :
  ((exists e, entry_calendar_data by_ obj = inl e) <-> unreadable_entry obj) /\
  (forall e, entry_calendar_data by_ obj = inl e -> exists m, e = TypeError m).
Proof.
  unfold unreadable_entry.
  assert (obj = JUndef \/ obj <> JUndef) as [->|Hobj]
    by (destruct obj; (by left) || (by right)).
  { split; [split; [by left | intros _; by eexists] | intros e [= <-]; by eexists]. }
  rewrite (entry_calendar_data_defined _ _ Hobj).
  destruct (truthy (prop_opt (prop_opt obj "propstat") "prop")) eqn:Ep; cbn [negb].
  2:{ split; [|done]. split; [by intros [e He]|].
      intros [H|[Ht _]]; [done|]. apply calendar_data_truthy in Ht. congruence. }
  destruct (truthy (calendar_data obj)) eqn:Et; cbn [negb].
  2:{ split; [|done]. split; [by intros [e He]|]. by intros [H|[Ht _]]. }
  destruct (calendar_data obj) as [|b|n|s|items|fields] eqn:Ec;
    cbn [clean_calendar_data map_ok].
  4:{ split; [|done]. split; [by intros [e He]|].
      intros [H|[_ Hs]]; [done|]. by destruct (Hs s). }
  all: split; [split; [intros _; right; split; [done | by intros s] | intros _; by eexists]
              | intros e [= <-]; by eexists].
Qed.

Lemma parse_loop_throws {A} by_
    (try_block : JVal -> JVal -> string -> list A * option JsError) entries items logged :
  ((exists e, parse_loop by_ try_block entries items logged = inl e)
   <-> exists obj, obj ∈ entries /\ unreadable_entry obj) /\
  (forall e, parse_loop by_ try_block entries items logged = inl e -> exists m, e = TypeError m).
Proof.
  revert items logged. induction entries as [|obj rest IH]; intros items logged.
  { split; [|done]. split; [by intros [e He]|]. intros (obj & Hin & _).
    by apply elem_of_nil in Hin. }
  cbn [parse_loop].
  destruct (entry_calendar_data_throws by_ obj) as [Hiff Htype].
  destruct (entry_calendar_data by_ obj) as [e|[[itemData cleaned]|]] eqn:E.
  - split; [|intros e' [= <-]; by apply Htype]. split; [|by eauto].
    intros _. exists obj. split; [by left|]. apply Hiff. eauto.
  - destruct (try_block itemData obj cleaned) as [pushed caught].
    destruct (IH (items ++ pushed)
                 (logged ++ match caught with Some e => [e] | None => [] end))
      as [IHiff IHtype].
    split; [|exact IHtype]. rewrite IHiff. split.
    + intros (o & Hin & Hu). exists o. split; [by right | done].
    + intros (o & Hin & Hu). apply elem_of_cons in Hin as [->|Hin]; [|by eauto].
      apply Hiff in Hu as [e He]. congruence.
  - destruct (IH items logged) as [IHiff IHtype].
    split; [|exact IHtype]. rewrite IHiff. split.
    + intros (o & Hin & Hu). exists o. split; [by right | done].
    + intros (o & Hin & Hu). apply elem_of_cons in Hin as [->|Hin]; [|by eauto].
      apply Hiff in Hu as [e He]. congruence.
Qed.

(** [parseEvents] and [parseTodos] throw on a multistatus document exactly
    when one of its response entries is [undefined] or holds calendar data
    that is truthy and is no text (a number, an object); what they throw is a
    type error, and no item of any entry is returned. Whatever the codec
    makes of the calendar data of an entry never makes them throw. *)
Theorem parsers_throw_exactly text baseUrl entries :
  decode text = multistatus_of entries ->
  ((exists e, parseEvents codec resolve decode text baseUrl = inl e)
   <-> exists obj, obj ∈ entries /\ unreadable_entry obj) /\
  ((exists e, parseTodos codec resolve decode text baseUrl = inl e)
   <-> exists obj, obj ∈ entries /\ unreadable_entry obj) /\
  (forall e, parseEvents codec resolve decode text baseUrl = inl e ->
             exists m, e = TypeError m) /\
  (forall e, parseTodos codec resolve decode text baseUrl = inl e ->
             exists m, e = TypeError m).
Proof.
  intros Hdoc.
  rewrite (parseEvents_multistatus _ _ _ _ _ _ Hdoc),
    (parseTodos_multistatus _ _ _ _ _ _ Hdoc).
  unfold parseEvents_loop, parseTodos_loop.
  split; [apply parse_loop_throws|]. split; [apply parse_loop_throws|].
  split; apply parse_loop_throws.
Qed.

End ParserEscapes.

(** ** Fault isolation among readable entries *)

Section Isolation.

Import ICAL.

Context (codec : Codec) (resolve : JVal -> string -> JsError + string).
Context (decode : string -> JVal).

Lemma parse_loop_readable {A} by_
    (try_block : JVal -> JVal -> string -> list A * option JsError) entries :
  Forall (fun obj => ~ unreadable_entry obj) entries ->
  parse_loop by_ try_block entries [] []
  = inr (flat_map (fun obj => (entry_items by_ try_block obj).1) entries,
         flat_map (fun obj => (entry_items by_ try_block obj).2) entries).
Proof.
  induction 1 as [|obj rest Hobj _ IH]; [done|].
  cbn [parse_loop flat_map]. unfold entry_items at 1 3.
  destruct (entry_calendar_data by_ obj) as [e|[[itemData cleaned]|]] eqn:E.
  - destruct Hobj. apply (entry_calendar_data_throws by_ obj). by exists e.
  - destruct (try_block itemData obj cleaned) as [pushed caught].
    rewrite parse_loop_acc, IH. cbn [prepend map_ok fst snd app]. done.
  - by rewrite IH.
Qed.

(** In a response whose entries are all readable (none is [undefined], and
    the calendar data of each is a text or falsy), every entry adds to the
    result what it gives on its own, whatever its siblings are: the parsers
    return, with the items of the entries in order and with the errors
    logged in order. An entry whose text the codec refuses adds no item and
    the one error the codec threw. *)
Theorem parse_fault_isolation text baseUrl entries :
  lists_entries (decode text) entries ->
  Forall (fun obj => ~ unreadable_entry obj) entries ->
  parseEvents codec resolve decode text baseUrl
    = inr (flat_map (fun obj => (entry_events codec resolve baseUrl obj).1) entries,
           flat_map (fun obj => (entry_events codec resolve baseUrl obj).2) entries) /\
  parseTodos codec resolve decode text baseUrl
    = inr (flat_map (fun obj => (entry_todos codec resolve baseUrl obj).1) entries,
           flat_map (fun obj => (entry_todos codec resolve baseUrl obj).2) entries) /\
  (forall obj s err,
     calendar_data obj = JStr s -> s <> "" ->
     parse codec (replaceAll "&#13;" CR s) = inl err ->
     entry_events codec resolve baseUrl obj = ([], [err])) /\
  (forall obj s err,
     calendar_data obj = JStr s -> s <> "" ->
     parse codec (replaceAll "&#13;" CRLF s) = inl err ->
     entry_todos codec resolve baseUrl obj = ([], [err])).
Proof.
  intros Hdoc Hentries.
  rewrite (parseEvents_entries _ _ _ _ _ _ Hdoc), (parseTodos_entries _ _ _ _ _ _ Hdoc).
  unfold parseEvents_loop, parseTodos_loop, entry_events, entry_todos.
  split; [by apply parse_loop_readable|]. split; [by apply parse_loop_readable|].
  assert (Hdata : forall by_ obj s,
            calendar_data obj = JStr s -> s <> "" ->
            entry_calendar_data by_ obj
            = inr (Some (prop_opt (prop_opt obj "propstat") "prop",
                         replaceAll "&#13;" by_ s))).
  { intros by_ obj s Hs Hne.
    assert (Ht : truthy (calendar_data obj) = true).
    { rewrite Hs. cbn [truthy]. by apply negb_true_iff, String.eqb_neq. }
    assert (Hobj : obj <> JUndef) by (intros ->; discriminate Hs).
    rewrite (entry_calendar_data_defined _ _ Hobj), (calendar_data_truthy _ Ht), Ht, Hs.
    reflexivity. }
  split; intros obj s err Hs Hne Hparse; unfold entry_items;
    rewrite (Hdata _ _ _ Hs Hne); [unfold try_events | unfold try_todos];
    by rewrite Hparse.
Qed.

End Isolation.

(** ** More on the partition of references *)

Section DiffRefsDuality.

(** New and deleted are each other's mirror: the hrefs new from one side are
    the hrefs deleted from the other, in the same order; an href reported as
    updated is listed on both sides; no href is reported in two of the three
    lists. This holds for all lists, repeated hrefs or not. *)
Theorem diffRefs_mirror remote local :
  newItems (diffRefs remote local) = deletedItems (diffRefs local remote) /\
  deletedItems (diffRefs remote local) = newItems (diffRefs local remote) /\
  (forall h, h ∈ updatedItems (diffRefs remote local) ->
             h ∈ hrefs remote /\ h ∈ hrefs local) /\
  (forall h, ~ (h ∈ newItems (diffRefs remote local)
                /\ h ∈ updatedItems (diffRefs remote local))) /\
  (forall h, ~ (h ∈ newItems (diffRefs remote local)
                /\ h ∈ deletedItems (diffRefs remote local))) /\
  (forall h, ~ (h ∈ updatedItems (diffRefs remote local)
                /\ h ∈ deletedItems (diffRefs remote local))).
Proof.
  assert (Hupd : forall h, h ∈ updatedItems (diffRefs remote local) ->
                           h ∈ hrefs remote /\ h ∈ hrefs local).
  { intros h (e & e' & Hr & Hl & _)%diffRefs_updated_map. split.
    - apply list_elem_of_fmap. by exists (mkRef h e).
    - apply Map_new_lookup_elem, entries_elem in Hl.
      apply list_elem_of_fmap. by exists (mkRef h e'). }
  split; [by rewrite !diffRefs_unfold|]. split; [by rewrite !diffRefs_unfold|].
  split; [exact Hupd|]. split; [|split].
  - intros h [Hn Hu]. apply diffRefs_new in Hn as [_ Hn]. by apply Hupd in Hu as [_ Hu].
  - intros h [Hn Hd]. apply diffRefs_new in Hn as [Hn _].
    by apply diffRefs_deleted in Hd as [_ Hd].
  - intros h [Hu Hd]. apply diffRefs_deleted in Hd as [_ Hd].
    by apply Hupd in Hu as [Hu _].
Qed.

End DiffRefsDuality.

(** ** More on conditional writes *)

Section MoreMutations.

Context (env : Env) {T : Type}.
Implicit Types (item data : Item T) (buildFn : Item T -> string -> JsError + string).
Implicit Types (kind : ItemType) (trace : list Request).

(** [isWeak] holds of the etags that begin with the two characters W/, and
    of no other: its test for W/ followed by a quote adds nothing. *)
Theorem isWeak_iff (etag : option string) :
  (isWeak etag = true <-> exists rest, etag = Some ("W/" +:+ rest)) /\
  (forall s, isWeak (Some s) = startsWith s "W/").
Proof.
  assert (Hs : forall s, isWeak (Some s) = startsWith s "W/").
  { intros s. unfold isWeak.
    destruct (startsWith s "W/") eqn:E; [by rewrite orb_true_r|].
    rewrite orb_false_r. destruct (startsWith s ("W/" +:+ dquote)) eqn:E'; [|done].
    apply startsWith_iff in E' as [r ->]. by rewrite <- E. }
  split; [|exact Hs]. destruct etag as [s|].
  - rewrite Hs, startsWith_iff. split; intros [r Hr]; exists r; congruence.
  - split; [done | by intros [r Hr]].
Qed.

Lemma mismatch_message_capitalize kind :
  capitalize (itemType_name kind) +:+ " with the specified uid does not match."
  = mismatch_message kind.
Proof. by destruct kind. Qed.

Lemma updateItem_unfold url item buildFn kind trace uid href ics :
  item_uid item = Some uid -> uid <> "" ->
  item_href item = Some href -> href <> "" ->
  buildFn item uid = inr ics ->
  updateItem url item buildFn kind env trace =
  try_catch
    (response ← request ok_2xx (updateItem_request href (item_etag item) ics);
     newCtag ← getCtag (without_trailing_slash url);
     mret (mkMutationResult uid href (header "etag" (headers response)) newCtag))
    (fun error =>
       throw (mutation_error (mismatch_message kind) "update" kind error))
    env trace.
Proof.
  intros Hu Hune Hh Hhne Hb. unfold updateItem.
  rewrite (falsy_Some_false _ _ Hu Hune), (falsy_Some_false _ _ Hh Hhne); simpl.
  rewrite Hu, Hh; simpl.
  unfold mbind at 1, Client_bind at 1, lift at 1. rewrite Hb.
  unfold try_catch, without_trailing_slash, mutation_error.
  match goal with
  | |- match ?run with _ => _ end = _ => destruct run as [[e|r] t]; [|done]
  end.
  rewrite mismatch_message_capitalize. by destruct (is_precondition_failed e).
Qed.

(** An update without a uid or without an href, absent or empty, throws
    before any request; otherwise it issues its write to the href of the
    item. A 412 makes it fail with the mismatch message of the item kind,
    every other reply outside 200..299 with another error; after a reply in
    200..299 it returns as soon as the token query succeeds: the uid and the
    href of the item as they were given, the etag of the reply (empty if the
    reply has none) and the token fetched from the calendar URL less its
    trailing slash. *)
Theorem updateItem_semantics url item buildFn kind trace :
  (falsy (item_uid item) = true \/ falsy (item_href item) = true ->
     updateItem url item buildFn kind env trace
       = (inl (Error ("Both 'uid' and 'href' are required to update a "
                        +:+ itemType_name kind +:+ ".")), trace)) /\
  (forall uid href ics,
     item_uid item = Some uid -> uid <> "" ->
     item_href item = Some href -> href <> "" ->
     buildFn item uid = inr ics ->
     (forall r, server env trace (updateItem_request href (item_etag item) ics) = Replied r ->
        status r = 412%Z ->
        updateItem url item buildFn kind env trace
          = (inl (Error (mismatch_message kind)),
             trace ++ [updateItem_request href (item_etag item) ics])) /\
     (forall r, server env trace (updateItem_request href (item_etag item) ics) = Replied r ->
        ok_2xx (status r) = false ->
        exists e, updateItem url item buildFn kind env trace
          = (inl e, trace ++ [updateItem_request href (item_etag item) ics])) /\
     (forall r newCtag trace2,
        server env trace (updateItem_request href (item_etag item) ics) = Replied r ->
        ok_2xx (status r) = true ->
        getCtag (without_trailing_slash url) env
          (trace ++ [updateItem_request href (item_etag item) ics]) = (inr newCtag, trace2) ->
        updateItem url item buildFn kind env trace
          = (inr (mkMutationResult uid href (header "etag" (headers r)) newCtag), trace2))).
Proof.
  split.
  - intros Hmissing. unfold updateItem.
    assert (falsy (item_uid item) || falsy (item_href item) = true) as ->; [|done].
    destruct Hmissing as [-> | ->]; [done | apply orb_true_r].
  - intros uid href ics Hu Hune Hh Hhne Hb.
    rewrite (updateItem_unfold _ _ _ _ _ _ _ _ Hu Hune Hh Hhne Hb).
    unfold try_catch, mbind, Client_bind, request, mutation_error.
    split; [|split].
    + intros r -> Hs. unfold ok_2xx. by rewrite Hs.
    + intros r -> ->. unfold throw. eauto.
    + intros r c t2 -> -> Hc. by rewrite Hc.
Qed.

(** A write that the server accepted does not make the mutation return: if
    the token query that follows fails, a create and an update throw all the
    same, with the message of a refused precondition when the token query was
    answered 412, so that the error does not tell whether the item was
    written. *)
Theorem accepted_write_may_throw url item buildFn kind trace :
  (forall ics r e trace2,
     url <> "" ->
     buildFn item (effective_uid env item) = inr ics ->
     server env trace (create_write env url item ics) = Replied r ->
     status r = 201%Z \/ status r = 204%Z ->
     getCtag (without_trailing_slash url) env
       (trace ++ [create_write env url item ics]) = (inl e, trace2) ->
     createItem url item buildFn kind env trace
       = (inl (mutation_error (collision_message kind) "create" kind e),
          trace ++ [create_write env url item ics;
                    getCtag_request (without_trailing_slash url)])) /\
  (forall uid href ics r e trace2,
     item_uid item = Some uid -> uid <> "" ->
     item_href item = Some href -> href <> "" ->
     buildFn item uid = inr ics ->
     server env trace (updateItem_request href (item_etag item) ics) = Replied r ->
     ok_2xx (status r) = true ->
     getCtag (without_trailing_slash url) env
       (trace ++ [updateItem_request href (item_etag item) ics]) = (inl e, trace2) ->
     updateItem url item buildFn kind env trace
       = (inl (mutation_error (mismatch_message kind) "update" kind e),
          trace ++ [updateItem_request href (item_etag item) ics;
                    getCtag_request (without_trailing_slash url)])).
Proof.
  split.
  - intros ics r e trace2 Hne Hb Hr Hs Hc.
    rewrite (createItem_unfold _ _ _ _ _ _ _ Hne Hb).
    unfold try_catch, mbind, Client_bind, request. rewrite Hr.
    assert (created (status r) = true) as ->.
    { unfold created. destruct Hs as [-> | ->]; done. }
    rewrite Hc. apply getCtag_trace in Hc as ->.
    unfold mutation_error, throw. rewrite <- app_assoc.
    rewrite collision_message_capitalize. by destruct (is_precondition_failed e).
  - intros uid href ics r e trace2 Hu Hune Hh Hhne Hb Hr Hs Hc.
    rewrite (updateItem_unfold _ _ _ _ _ _ _ _ Hu Hune Hh Hhne Hb).
    unfold try_catch, mbind, Client_bind, request. rewrite Hr, Hs, Hc.
    apply getCtag_trace in Hc as ->. unfold throw. by rewrite <- app_assoc.
Qed.

End MoreMutations.

(** ** The token query *)

Section TokenQuery.

Context (env : Env).

(** [getCtag] sends one PROPFIND of depth 0 to the calendar URL and accepts
    a 207 only: every other status, 200 included, is thrown. It returns the
    token of the response of the reply; a reply that lists several
    responses makes it throw a type error, the token being looked for in
    the list as a whole. *)
Theorem getCtag_semantics calendarUrl trace :
  (getCtag calendarUrl env trace).2 = trace ++ [getCtag_request calendarUrl] /\
  (forall r, server env trace (getCtag_request calendarUrl) = Replied r ->
     status r <> 207%Z ->
     (getCtag calendarUrl env trace).1
       = inl (AxiosError (Some (status r)) (status_message (status r)))) /\
  (forall r fields token,
     server env trace (getCtag_request calendarUrl) = Replied r ->
     status r = 207%Z ->
     xml_parse env (data r)
       = JObj [("multistatus", JObj [("response", JObj fields)])] ->
     prop_path (JObj fields) ["propstat"; "prop"; "getctag"] = inr token ->
     (getCtag calendarUrl env trace).1 = inr token) /\
  (forall r entries,
     server env trace (getCtag_request calendarUrl) = Replied r ->
     status r = 207%Z ->
     xml_parse env (data r) = multistatus_of entries ->
     exists m, (getCtag calendarUrl env trace).1 = inl (TypeError m)).
Proof.
  unfold getCtag, mbind, Client_bind, request, decode, lift.
  destruct (server env trace (getCtag_request calendarUrl)) as [r|m].
  2:{ split; [done|]. split; [done|]. split; by intros. }
  destruct (Z.eqb_spec 207 (status r)) as [Hs|Hs].
  - split; [done|]. split; [intros r' [= <-]; congruence|]. split.
    + intros r' fields token [= <-] _ -> Hpath. cbn [fst].
      change (prop_path (JObj [("multistatus", JObj [("response", JObj fields)])])
                ["multistatus"; "response"; "propstat"; "prop"; "getctag"])
        with (prop_path (JObj fields) ["propstat"; "prop"; "getctag"]).
      by rewrite Hpath.
    + intros r' entries [= <-] _ ->. unfold multistatus_of.
      cbn [fst prop_path prop prop_opt field String.eqb Ascii.eqb Bool.eqb]. eauto.
  - split; [done|]. split; [by intros r' [= <-] _|].
    split; intros; simplify_eq.
Qed.

End TokenQuery.

(** ** The uid of a created item *)

Section CreatedUid.

Import ICAL.

Context (codec : Codec) (prodId : string) (now : Z) (env : Env).

(** The encoder of events returns for every event, with the uid as the one
    UID of the event component. *)
Lemma build_vevent_uid e uid :
  exists vevent,
    build_vevent now e uid = inr vevent /\
    comp_name vevent = "vevent" /\
    getAllProperties vevent "uid" = [mkProperty "uid" [] (Text uid)].
Proof.
  unfold build_vevent, set_times. destruct (ev_wholeDay e).
  - destruct (fromDateString_iso_date (ev_start e)) as (startDate & Hs & _).
    destruct (fromDateString_iso_date (ev_end e)) as (endDate & He & _).
    rewrite !iso_date_part_iso_date, Hs, He. cbn [and_then].
    eexists. split; [reflexivity|]. rewrite fold_alarms.
    unfold getAllProperties. by destruct (ev_recurrenceRule e).
  - cbn [and_then]. eexists. split; [reflexivity|]. rewrite fold_alarms.
    unfold getAllProperties.
    by destruct (ev_recurrenceRule e), (falsy (ev_startTzid e)), (falsy (ev_endTzid e)).
Qed.

Lemma filter_app_props (name : string) (l1 l2 : list Property) :
  List.filter (fun p => String.eqb (prop_name p) name) (l1 ++ l2)
  = List.filter (fun p => String.eqb (prop_name p) name) l1
      ++ List.filter (fun p => String.eqb (prop_name p) name) l2.
Proof. apply List.filter_app. Qed.

Lemma build_vtodo_uid t uid :
  comp_name (build_vtodo now t uid) = "vtodo" /\
  getAllProperties (build_vtodo now t uid) "uid" = [mkProperty "uid" [] (Text uid)].
Proof.
  rewrite build_vtodo_props. split; [done|].
  unfold getAllProperties. cbn [properties]. rewrite !filter_app_props.
  unfold date_prop, text_prop, sort_prop.
  by destruct (tdd_start t), (tdd_due t), (tdd_completed t), (falsy (tdd_description t)),
    (falsy (tdd_location t)), (falsy (tdd_status t)), (tdd_sortOrder t).
Qed.

Lemma createItem_first_request {T} calendarUrl (data : Item T) buildFn kind trace ics :
  calendarUrl <> "" ->
  buildFn data (effective_uid env data) = inr ics ->
  exists rest,
    (createItem calendarUrl data buildFn kind env trace).2
    = trace ++ create_write env calendarUrl data ics :: rest.
Proof.
  intros Hne Hb. rewrite (createItem_unfold _ _ _ _ _ _ _ Hne Hb).
  unfold try_catch, mbind, Client_bind, request.
  destruct (server env trace _) as [r|m].
  - destruct (created (status r)).
    + destruct (getCtag _ env _) as [[e|c] t] eqn:E; apply getCtag_trace in E as ->.
      * exists [getCtag_request (without_trailing_slash calendarUrl)].
        rewrite <- app_assoc. by destruct (is_precondition_failed e).
      * exists [getCtag_request (without_trailing_slash calendarUrl)].
        by rewrite <- app_assoc.
    + exists []. by destruct (is_precondition_failed _).
  - exists []. done.
Qed.

(** [createEvent] and [createTodo] with a calendar URL, for an item whose
    alarms have simple durations as triggers (and, for an event, whose rule,
    if any, is a plain rule), get as far as their write, and the calendar
    object they write carries as its one UID the uid that names the
    resource: the item's own uid, or the generated one. *)
Theorem created_object_carries_uid calendarUrl trace :
  calendarUrl <> "" ->
  (forall eventData : Item Event,
     simple_triggers (ev_alarms (item_content eventData)) ->
     (forall r, ev_recurrenceRule (item_content eventData) = Some r -> plain_rule r) ->
     exists vevent rest,
       (createEvent codec prodId now calendarUrl eventData env trace).2
         = trace ++ createItem_request
                      (without_trailing_slash calendarUrl +:+ "/"
                         +:+ effective_uid env eventData +:+ ".ics")
                      (stringify codec
                         (mkComponent "vcalendar"
                            [mkProperty "version" [] (Text "2.0");
                             mkProperty "method" [] (Text "REQUEST");
                             mkProperty "prodid" [] (Text prodId)]
                            [vevent])) :: rest /\
       comp_name vevent = "vevent" /\
       getAllProperties vevent "uid"
         = [mkProperty "uid" [] (Text (effective_uid env eventData))]) /\
  (forall todoData : Item TodoData,
     simple_triggers (tdd_alarms (item_content todoData)) ->
     exists vtodo rest,
       (createTodo codec prodId now calendarUrl todoData env trace).2
         = trace ++ createItem_request
                      (without_trailing_slash calendarUrl +:+ "/"
                         +:+ effective_uid env todoData +:+ ".ics")
                      (stringify codec
                         (mkComponent "vcalendar"
                            [mkProperty "version" [] (Text "2.0");
                             mkProperty "prodid" [] (Text prodId)]
                            [vtodo])) :: rest /\
       comp_name vtodo = "vtodo" /\
       getAllProperties vtodo "uid"
         = [mkProperty "uid" [] (Text (effective_uid env todoData))]).
Proof.
  intros Hne. split.
  - intros eventData _ _.
    destruct (build_vevent_uid (item_content eventData) (effective_uid env eventData))
      as (vevent & Hv & Hname & Huid).
    destruct (createItem_first_request calendarUrl eventData
                (encode_event codec prodId now) event trace
                (stringify codec
                   (mkComponent "vcalendar"
                      [mkProperty "version" [] (Text "2.0");
                       mkProperty "method" [] (Text "REQUEST");
                       mkProperty "prodid" [] (Text prodId)]
                      [vevent])) Hne) as [rest Hrest].
    { unfold encode_event, buildICSData, build_vcalendar. by rewrite Hv. }
    exists vevent, rest. split; [exact Hrest | done].
  - intros todoData _.
    destruct (build_vtodo_uid (item_content todoData) (effective_uid env todoData))
      as [Hname Huid].
    destruct (createItem_first_request calendarUrl todoData
                (encode_todo codec prodId now) todo trace _ Hne eq_refl) as [rest Hrest].
    eexists _, rest. split; [exact Hrest | done].
Qed.

End CreatedUid.


(** ** The queries of the client object *)

Section Queries.

Context (w : World).
Implicit Types (self : Self) (sent : list Query) (q : Query).

Ltac run_session :=
  unfold mbind, mret, Session_bind, Session_ret, Session_try, Session_throw,
    Session_lift, world, this, send.

(** [getItemsByHref] sends nothing when no href ends in [.ics] (so on no
    href at all) and returns no item; otherwise it sends one REPORT to the
    calendar URL for the hrefs that end in [.ics], in their order, the
    others being left out without notice, and returns what the parser makes
    of the reply; a reply outside 200..299 and no reply are thrown as the
    transport reports them. *)
Theorem getItemsByHref_semantics {A} calendarUrl hrefs
    (parseFn : World -> string -> JsError + (list A * list JsError)) self sent :
  let filtered := List.filter (fun href => endsWith href ".ics") hrefs in
  let q := getItemsByHref_query calendarUrl filtered in
  (filtered = [] ->
     getItemsByHref calendarUrl hrefs parseFn w self sent = (inr ([], []), (self, sent))) /\
  (filtered <> [] ->
     (getItemsByHref calendarUrl hrefs parseFn w self sent).2 = (self, sent ++ [q]) /\
     (forall r, answers w sent q = Replied r -> ok_2xx (status r) = true ->
        (getItemsByHref calendarUrl hrefs parseFn w self sent).1 = parseFn w (data r)) /\
     (forall r, answers w sent q = Replied r -> ok_2xx (status r) = false ->
        (getItemsByHref calendarUrl hrefs parseFn w self sent).1
          = inl (AxiosError (Some (status r)) (status_message (status r)))) /\
     (forall m, answers w sent q = Failed m ->
        (getItemsByHref calendarUrl hrefs parseFn w self sent).1
          = inl (AxiosError None m))) /\
  q_method q = REPORT /\ q_url q = calendarUrl /\
  q_body q = CalendarMultiget filtered.
Proof.
  intros filtered q. split; [|split; [|done]].
  - intros Hnone. unfold getItemsByHref. fold filtered. rewrite Hnone.
    by destruct hrefs.
  - intros Hsome.
    assert (getItemsByHref calendarUrl hrefs parseFn w self sent
            = (response ← send ok_2xx q; w' ← world; Session_lift (parseFn w' (data response)))
                w self sent) as ->.
    { unfold getItemsByHref. fold filtered. fold q.
      destruct hrefs as [|h hrefs]; [done|]. by destruct filtered. }
    run_session.
    destruct (answers w sent q) as [r|m]; [destruct (ok_2xx (status r)) eqn:Es|].
    + split; [by destruct (parseFn w (data r))|].
      split; [by intros r' [= <-] _; destruct (parseFn w (data r))|].
      split; [intros r' [= <-]; congruence | done].
    + split; [done|]. split; [intros r' [= <-]; congruence|].
      split; [by intros r' [= <-] | done].
    + split; [done|]. split; [done|]. split; [done|]. by intros m' [= <-].
Qed.

(** [getETag] sends one PROPFIND to the href. It returns the etag of the
    reply without one leading weak marker: the etag read off the response
    of the reply, or off the first response when the reply lists several.
    Whatever goes wrong (no reply, a reply outside 200..299, no etag in the
    reply, an etag that is no text) is thrown as one error that names the
    href and quotes the cause. *)
Theorem getETag_semantics href self sent :
  (getETag href w self sent).2 = (self, sent ++ [getETag_query href]) /\
  (forall e, (getETag href w self sent).1 = inl e ->
     exists cause,
       e = Error ("Failed to retrieve ETag for " +:+ href +:+ ": "
                    +:+ error_toString cause)) /\
  (forall r s,
     answers w sent (getETag_query href) = Replied r ->
     ok_2xx (status r) = true ->
     reply_etag (xml w (data r)) = JStr s -> s <> "" ->
     (getETag href w self sent).1 = inr (strip_weak_prefix s)) /\
  (forall r,
     answers w sent (getETag_query href) = Replied r ->
     ok_2xx (status r) = true ->
     truthy (reply_etag (xml w (data r))) = false ->
     (getETag href w self sent).1
       = inl (Error ("Failed to retrieve ETag for " +:+ href
                       +:+ ": Error: ETag not found in PROPFIND response."))) /\
  (forall fields rest s,
     prop_opt (prop_opt (prop_opt (JObj fields) "propstat") "prop") "getetag" = JStr s ->
     s <> "" ->
     reply_etag (JObj [("multistatus", JObj [("response", JObj fields)])]) = JStr s /\
     reply_etag (multistatus_of (JObj fields :: rest)) = JStr s).
Proof.
  assert (Hrun : getETag href w self sent
            = match answers w sent (getETag_query href) with
              | Replied r =>
                  if ok_2xx (status r) then
                    if negb (truthy (reply_etag (xml w (data r)))) then
                      (inl (Error ("Failed to retrieve ETag for " +:+ href +:+ ": "
                                     +:+ error_toString
                                           (Error "ETag not found in PROPFIND response."))),
                       (self, sent ++ [getETag_query href]))
                    else
                      match reply_etag (xml w (data r)) with
                      | JStr s => (inr (strip_weak_prefix s), (self, sent ++ [getETag_query href]))
                      | _ =>
                          (inl (Error ("Failed to retrieve ETag for " +:+ href +:+ ": "
                                         +:+ error_toString
                                               (TypeError "etag.replace is not a function"))),
                           (self, sent ++ [getETag_query href]))
                      end
                  else
                    (inl (Error ("Failed to retrieve ETag for " +:+ href +:+ ": "
                                   +:+ error_toString
                                         (AxiosError (Some (status r))
                                            (status_message (status r))))),
                     (self, sent ++ [getETag_query href]))
              | Failed m =>
                  (inl (Error ("Failed to retrieve ETag for " +:+ href +:+ ": "
                                 +:+ error_toString (AxiosError None m))),
                   (self, sent ++ [getETag_query href]))
              end).
  { unfold getETag. run_session.
    destruct (answers w sent (getETag_query href)) as [r|m]; [|done].
    destruct (ok_2xx (status r)); [|done].
    destruct (negb (truthy (reply_etag (xml w (data r))))); [done|].
    by destruct (reply_etag (xml w (data r))). }
  rewrite Hrun. split; [|split; [|split; [|split]]].
  - destruct (answers w sent (getETag_query href)) as [r|m]; [|done].
    destruct (ok_2xx (status r)); [|done].
    destruct (negb (truthy (reply_etag (xml w (data r))))); [done|].
    by destruct (reply_etag (xml w (data r))).
  - intros e.
    destruct (answers w sent (getETag_query href)) as [r|m];
      [|intros [= <-]; by exists (AxiosError None m)].
    destruct (ok_2xx (status r));
      [|intros [= <-]; by exists (AxiosError (Some (status r)) (status_message (status r)))].
    destruct (negb (truthy (reply_etag (xml w (data r)))));
      [intros [= <-]; by exists (Error "ETag not found in PROPFIND response.")|].
    destruct (reply_etag (xml w (data r))); cbn [fst]; intros He;
      (discriminate He
       || (injection He as <-; by exists (TypeError "etag.replace is not a function"))).
  - intros r s -> -> -> Hs. cbn [truthy]. apply String.eqb_neq in Hs. by rewrite Hs.
  - intros r -> -> ->. done.
  - intros fields rest s Hpath Hs. apply String.eqb_neq in Hs.
    unfold reply_etag, multistatus_of.
    change (prop_opt (prop_opt (JObj [("multistatus", JObj [("response", JObj fields)])])
                        "multistatus") "response") with (JObj fields).
    change (prop_opt (prop_opt (JObj [("multistatus",
                                       JObj [("response", JArr (JObj fields :: rest))])])
                        "multistatus") "response") with (JArr (JObj fields :: rest)).
    cbn [index0]. rewrite Hpath. cbn [truthy]. rewrite Hs. done.
Qed.

Lemma getComponents_run {A} calendarUrl component
    (parseFn : World -> string -> JsError + A) options self sent :
  getComponents calendarUrl component parseFn options w self sent
  = (match answers w sent (getComponents_query w calendarUrl component options) with
     | Replied r =>
         if ok_2xx (status r) then
           match parseFn w (data r) with
           | inr items => inr items
           | inl e =>
               inl (Error ("Failed to retrieve " +:+ toLowerCase component
                             +:+ "s from the CalDAV server." +:+ error_toString e))
           end
         else
           inl (Error ("Failed to retrieve " +:+ toLowerCase component
                         +:+ "s from the CalDAV server."
                         +:+ error_toString
                               (AxiosError (Some (status r)) (status_message (status r)))))
     | Failed m =>
         inl (Error ("Failed to retrieve " +:+ toLowerCase component
                       +:+ "s from the CalDAV server."
                       +:+ error_toString (AxiosError None m)))
     end,
     (self, sent ++ [getComponents_query w calendarUrl component options])).
Proof.
  unfold getComponents. run_session.
  destruct (answers w sent _) as [r|m]; [|done].
  destruct (ok_2xx (status r)); [|done]. by destruct (parseFn w (data r)).
Qed.

(** [getEvents] and [getTodos] send one REPORT to the calendar URL. Events
    are asked for between a start and an end, with recurring events
    expanded over that range, unless [all] is given as true: the start is
    now and the end three weeks from now where the options leave them out.
    Todos are asked for without a range, whatever start and end are given,
    when the options leave [all] out or give it as true; when they give it
    as false or as [undefined] the todos are asked for within the range;
    their range never asks for expansion. A reply in 200..299 gives what
    the parser makes of its body; every failure, of the transport or of the
    parser, is thrown as one error that names the component kind and quotes
    the cause. *)
Theorem getEvents_getTodos_semantics calendarUrl options self sent :
  let start := default (clock w) (range_start options) in
  let end_ := default (clock w + 1814400000)%Z (range_end options) in
  let range := (formatDate (localTZA w) start true, formatDate (localTZA w) end_ true) in
  let qe :=
    mkQuery REPORT calendarUrl [("Depth", "1")]
      (match range_all options with
       | Some (Some true) => CalendarQuery "VEVENT" None None
       | _ => CalendarQuery "VEVENT" (Some range) (Some range)
       end) in
  let qt :=
    mkQuery REPORT calendarUrl [("Depth", "1")]
      (match range_all options with
       | None | Some (Some true) => CalendarQuery "VTODO" None None
       | Some None | Some (Some false) => CalendarQuery "VTODO" (Some range) None
       end) in
  (getEvents calendarUrl options w self sent).2 = (self, sent ++ [qe]) /\
  (getTodos calendarUrl options w self sent).2 = (self, sent ++ [qt]) /\
  (forall r events,
     answers w sent qe = Replied r -> ok_2xx (status r) = true ->
     parse_events w (data r) = inr events ->
     (getEvents calendarUrl options w self sent).1 = inr events) /\
  (forall r todos,
     answers w sent qt = Replied r -> ok_2xx (status r) = true ->
     parse_todos w (data r) = inr todos ->
     (getTodos calendarUrl options w self sent).1 = inr todos) /\
  (forall e, (getEvents calendarUrl options w self sent).1 = inl e ->
     exists cause,
       e = Error ("Failed to retrieve vevents from the CalDAV server."
                    +:+ error_toString cause)) /\
  (forall e, (getTodos calendarUrl options w self sent).1 = inl e ->
     exists cause,
       e = Error ("Failed to retrieve vtodos from the CalDAV server."
                    +:+ error_toString cause)).
Proof.
  intros start end_ range qe qt.
  assert (Hqe : getComponents_query w calendarUrl "VEVENT" options = qe).
  { unfold getComponents_query, all_given, qe, range, start, end_, three_weeks.
    by destruct (range_all options) as [[[]|]|]. }
  assert (Hqt : getComponents_query w calendarUrl "VTODO"
                  (mkRangeOptions (range_start options) (range_end options)
                     (Some match range_all options with
                           | Some given => given
                           | None => Some true
                           end)) = qt).
  { unfold getComponents_query, all_given, qt, range, start, end_, three_weeks.
    cbn [range_start range_end range_all].
    by destruct (range_all options) as [[[]|]|]. }
  unfold getEvents, getTodos. rewrite !getComponents_run, Hqe, Hqt. cbn [fst snd].
  split; [done|]. split; [done|]. split; [|split; [|split]].
  - by intros r events -> -> ->.
  - by intros r todos -> -> ->.
  - intros e. destruct (answers w sent qe) as [r|m];
      [|intros [= <-]; by exists (AxiosError None m)].
    destruct (ok_2xx (status r));
      [|intros [= <-]; by exists (AxiosError (Some (status r)) (status_message (status r)))].
    destruct (parse_events w (data r)) as [cause|events]; [|done].
    intros [= <-]. by exists cause.
  - intros e. destruct (answers w sent qt) as [r|m];
      [|intros [= <-]; by exists (AxiosError None m)].
    destruct (ok_2xx (status r));
      [|intros [= <-]; by exists (AxiosError (Some (status r)) (status_message (status r)))].
    destruct (parse_todos w (data r)) as [cause|todos]; [|done].
    intros [= <-]. by exists cause.
Qed.

Lemma resolve_calendars_ok basePath calendars :
  Forall (fun c => exists u, url c = JStr u) calendars ->
  exists result,
    resolve_calendars (inr basePath) calendars = inr result /\
    Forall2 (fun c c' =>
               exists u, url c = JStr u /\
                 c' = mkCalendar (displayName c) (JStr (resolveUrl basePath u))
                                 (ctag c) (supportedComponents c))
            calendars result.
Proof.
  induction 1 as [|c calendars [u Hu] _ (result & Hres & Hall)].
  - exists []. by split.
  - cbn [resolve_calendars and_then]. rewrite Hu. cbn [resolveUrl_value and_then].
    rewrite Hres. cbn [and_then]. eexists. split; [reflexivity|].
    constructor; [|done]. by exists u.
Qed.

Lemma resolve_calendars_throws basePath calendars :
  Exists (fun c => forall u, url c <> JStr u) calendars ->
  exists m, resolve_calendars (inr basePath) calendars = inl (TypeError m).
Proof.
  induction 1 as [c calendars Hc | c calendars _ [m IH]].
  - cbn [resolve_calendars and_then].
    destruct (url c) as [| | |u| |] eqn:Eu; cbn [resolveUrl_value and_then]; eauto.
    by destruct (Hc u).
  - cbn [resolve_calendars and_then].
    destruct (url c) as [| | |u| |]; cbn [resolveUrl_value and_then]; eauto.
    rewrite IH. cbn [and_then]. eauto.
Qed.

(** [getCalendars] throws, without sending anything, while the calendar
    home is unknown or empty. Otherwise it sends one PROPFIND of depth 1 to
    the calendar home, and returns the calendars that [parseCalendars] lists
    in the reply, each with its URL normalised by [resolveUrl]; one listed
    calendar whose URL is no text (an entry without href) makes the whole
    listing throw a type error. *)
Theorem getCalendars_semantics self sent :
  (falsy (self_calendarHome self) = true ->
     getCalendars w self sent = (inl (Error "Calendar home not found."), (self, sent))) /\
  (forall home,
     self_calendarHome self = Some home -> home <> "" ->
     (getCalendars w self sent).2 = (self, sent ++ [getCalendars_query home]) /\
     (forall r calendars basePath,
        answers w sent (getCalendars_query home) = Replied r ->
        ok_2xx (status r) = true ->
        parseCalendars (xml_attributes w) (url_resolve w) (data r) None = inr calendars ->
        url_pathname w (self_baseUrl self) = inr basePath ->
        (Forall (fun c => exists u, url c = JStr u) calendars ->
         exists result,
           (getCalendars w self sent).1 = inr result /\
           Forall2 (fun c c' =>
                      exists u, url c = JStr u /\
                        c' = mkCalendar (displayName c) (JStr (resolveUrl basePath u))
                                        (ctag c) (supportedComponents c))
                   calendars result) /\
        (Exists (fun c => forall u, url c <> JStr u) calendars ->
         exists m, (getCalendars w self sent).1 = inl (TypeError m)))).
Proof.
  split.
  - intros Hnone. unfold getCalendars. run_session. by rewrite Hnone.
  - intros home Hhome Hne.
    assert (Hrun : getCalendars w self sent
              = (response ← send ok_2xx (getCalendars_query home);
                 w' ← world;
                 calendars ←
                   Session_lift
                     (parseCalendars (xml_attributes w') (url_resolve w') (data response) None);
                 Session_lift
                   (resolve_calendars (url_pathname w' (self_baseUrl self)) calendars))
                  w self sent).
    { unfold getCalendars. unfold mbind at 1, Session_bind at 1, this at 1.
      rewrite Hhome. cbn [falsy default]. apply String.eqb_neq in Hne. by rewrite Hne. }
    rewrite Hrun. run_session.
    destruct (answers w sent (getCalendars_query home)) as [r|m].
    2:{ split; [done|]. by intros r calendars basePath [=]. }
    destruct (ok_2xx (status r)) eqn:Es.
    2:{ split; [done|]. intros r' calendars basePath [= <-]. congruence. }
    split.
    { destruct (parseCalendars _ _ _ _); [done|]. by destruct (resolve_calendars _ _). }
    intros r' calendars basePath [= <-] _ -> ->. split.
    + intros (result & -> & Hall)%(resolve_calendars_ok basePath). by exists result.
    + intros [m ->]%(resolve_calendars_throws basePath). by exists m.
Qed.

Lemma Self_resolveUrl_run basePath self sent (p : string) :
  url_pathname w (self_baseUrl self) = inr basePath ->
  Self_resolveUrl (JStr p) w self sent = (inr (resolveUrl basePath p), (self, sent)).
Proof. intros Hbase. unfold Self_resolveUrl. by rewrite Hbase. Qed.

Lemma principal_url (p : string) :
  (if falsy (Some p) then "" else default "" (Some p)) = p.
Proof. cbn [falsy default]. destruct (String.eqb_spec p ""); by subst. Qed.

Lemma fetchCalendarHome_run self sent basePath principal :
  self_userPrincipal self = Some principal ->
  url_pathname w (self_baseUrl self) = inr basePath ->
  fetchCalendarHome w self sent
  = match answers w sent (fetchCalendarHome_query principal) with
    | Replied r =>
        if ok_2xx (status r) then
          match prop_path (xml w (data r)) home_path with
          | inl e => (inl e, (self, sent ++ [fetchCalendarHome_query principal]))
          | inr v =>
              match resolveUrl_value basePath v with
              | inl e => (inl e, (self, sent ++ [fetchCalendarHome_query principal]))
              | inr u =>
                  (inr u,
                   (mkSelf (self_baseUrl self) (self_prodId self) (Some u)
                           (self_userPrincipal self) (self_requestTimeout self),
                    sent ++ [fetchCalendarHome_query principal]))
              end
          end
        else (inl (AxiosError (Some (status r)) (status_message (status r))),
              (self, sent ++ [fetchCalendarHome_query principal]))
    | Failed m =>
        (inl (AxiosError None m), (self, sent ++ [fetchCalendarHome_query principal]))
    end.
Proof.
  intros Hp Hbase. unfold fetchCalendarHome.
  unfold mbind at 1, Session_bind at 1, this at 1.
  rewrite Hp, principal_url.
  unfold mbind at 1, Session_bind at 1, send.
  destruct (answers w sent (fetchCalendarHome_query principal)) as [r|m]; [|done].
  destruct (ok_2xx (status r)); [|done].
  unfold mbind at 1, Session_bind at 1, world at 1.
  unfold mbind at 1, Session_bind at 1, Session_lift at 1.
  fold home_path.
  destruct (prop_path (xml w (data r)) home_path) as [e|v]; [done|].
  unfold mbind at 1, Session_bind at 1, Self_resolveUrl at 1.
  rewrite Hbase. cbn [and_then].
  destruct (resolveUrl_value basePath v); [done|].
  run_session. unfold set_calendarHome. by rewrite Hp.
Qed.

(** [CalDAVClient.create] makes a client from the options (the product
    identifier and the timeout defaulted when absent, empty or zero) and
    sends two PROPFINDs: the first to the discovery path, for the principal;
    the second to the principal's href as [resolveUrl] normalises it, for the
    calendar home. It returns the client with the two normalised hrefs as
    its principal and its calendar home. A base URL that does not parse, and
    a first reply outside 200..299, are thrown as invalid credentials, with
    nothing more sent. *)
Theorem create_handshake options sent :
  (forall cause,
     url_pathname w (opt_baseUrl options) = inl cause ->
     create options w sent
       = (inl (Error ("Invalid credentials: Unable to authenticate with the server."
                        +:+ error_toString cause)), sent)) /\
  (forall basePath,
     url_pathname w (opt_baseUrl options) = inr basePath ->
     let q1 := validateCredentials_query (resolveUrl basePath (discovery_path options)) in
     (forall r,
        answers w sent q1 = Replied r -> ok_2xx (status r) = false ->
        create options w sent
          = (inl (Error ("Invalid credentials: Unable to authenticate with the server."
                           +:+ error_toString
                                 (AxiosError (Some (status r)) (status_message (status r))))),
             sent ++ [q1])) /\
     (forall r principal,
        answers w sent q1 = Replied r -> ok_2xx (status r) = true ->
        includes (data r) "current-user-principal" = true ->
        xml_invalid w (data r) = None ->
        prop_path (xml w (data r)) principal_path = inr (JStr principal) ->
        let q2 := fetchCalendarHome_query (resolveUrl basePath principal) in
        (create options w sent).2 = sent ++ [q1; q2] /\
        (forall r2 home,
           answers w (sent ++ [q1]) q2 = Replied r2 -> ok_2xx (status r2) = true ->
           prop_path (xml w (data r2)) home_path = inr (JStr home) ->
           (create options w sent).1
             = inr (mkSelf (opt_baseUrl options)
                      (self_prodId (CalDAVClient_new options))
                      (Some (resolveUrl basePath home))
                      (Some (resolveUrl basePath principal))
                      (self_requestTimeout (CalDAVClient_new options)))))).
Proof.
  split.
  - intros cause Hbase. unfold create, validateCredentials, Self_resolveUrl. run_session.
    cbn [self_baseUrl CalDAVClient_new]. by rewrite Hbase.
  - intros basePath Hbase q1.
    assert (Hfirst : forall k : string -> Session unit,
              (url ← Self_resolveUrl (JStr (discovery_path options)); k url)
                w (CalDAVClient_new options) sent
              = k (resolveUrl basePath (discovery_path options)) w
                  (CalDAVClient_new options) sent).
    { intros k. unfold mbind, Session_bind.
      by rewrite (Self_resolveUrl_run basePath). }
    split.
    + intros r Hr Hs. unfold create, validateCredentials. fold (discovery_path options).
      unfold mbind at 1, Session_bind at 1, Session_try.
      rewrite Hfirst. fold q1. run_session. by rewrite Hr, Hs.
    + intros r principal Hr Hs Hinc Hvalid Hpath q2.
      assert (Hcred : validateCredentials (discovery_path options) w
                        (CalDAVClient_new options) sent
                = (inr tt,
                   (mkSelf (opt_baseUrl options) (self_prodId (CalDAVClient_new options))
                           None (Some (resolveUrl basePath principal))
                           (self_requestTimeout (CalDAVClient_new options)),
                    sent ++ [q1]))).
      { unfold validateCredentials, Session_try. rewrite Hfirst. fold q1.
        unfold mbind at 1, Session_bind at 1, send. rewrite Hr, Hs, Hinc. cbn [negb].
        unfold mbind at 1, Session_bind at 1, world at 1.
        unfold xml_validated. rewrite Hvalid.
        unfold mbind at 1, Session_bind at 1, Session_lift at 1.
        unfold mbind at 1, Session_bind at 1, Session_lift at 1.
        fold principal_path. rewrite Hpath.
        unfold mbind, Session_bind.
        by rewrite (Self_resolveUrl_run basePath). }
      assert (Hcreate : create options w sent
                = match fetchCalendarHome w
                          (mkSelf (opt_baseUrl options)
                             (self_prodId (CalDAVClient_new options))
                             None (Some (resolveUrl basePath principal))
                             (self_requestTimeout (CalDAVClient_new options)))
                          (sent ++ [q1]) with
                  | (inl e, (_, sent')) => (inl e, sent')
                  | (inr _, (client', sent')) => (inr client', sent')
                  end).
      { unfold create. fold (discovery_path options).
        unfold mbind, Session_bind. by rewrite Hcred. }
      rewrite Hcreate.
      rewrite (fetchCalendarHome_run _ _ basePath (resolveUrl basePath principal))
        by done.
      fold q2.
      destruct (answers w (sent ++ [q1]) q2) as [r2|m] eqn:Hr2.
      2:{ split; [by rewrite <- app_assoc | by intros r2 home [=]]. }
      destruct (ok_2xx (status r2)) eqn:Hs2.
      2:{ split; [by rewrite <- app_assoc | intros r2' home [= <-]; congruence]. }
      destruct (prop_path (xml w (data r2)) home_path) as [e|v] eqn:Hhome.
      { split; [by rewrite <- app_assoc | intros r2' home [= <-] _ H; congruence]. }
      destruct (resolveUrl_value basePath v) as [e|u] eqn:Hu.
      { split; [by rewrite <- app_assoc|]. intros r2' home [= <-] _ H.
        rewrite Hhome in H. injection H as ->. done. }
      split; [by rewrite <- app_assoc|].
      intros r2' home [= <-] _ H. rewrite Hhome in H. injection H as ->.
      cbn [resolveUrl_value] in Hu. by injection Hu as <-.
Qed.

Lemma createFromCache_run options cache sent basePath :
  url_pathname w (opt_baseUrl options) = inr basePath ->
  createFromCache options cache w sent
  = match resolveUrl_value basePath (cached_path (cache_userPrincipal cache)) with
    | inl e => (inl e, sent)
    | inr principal =>
        match resolveUrl_value basePath (cached_path (cache_calendarHome cache)) with
        | inl e => (inl e, sent)
        | inr home =>
            (inr (mkSelf (opt_baseUrl options)
                    (if falsy (cache_prodId cache)
                     then self_prodId (CalDAVClient_new options)
                     else default "" (cache_prodId cache))
                    (Some home) (Some principal)
                    (self_requestTimeout (CalDAVClient_new options))), sent)
        end
    end.
Proof.
  intros Hbase. unfold createFromCache, Self_resolveUrl. run_session.
  cbn [self_baseUrl CalDAVClient_new]. rewrite Hbase. cbn [and_then].
  destruct (resolveUrl_value basePath (cached_path (cache_userPrincipal cache)));
    [done|].
  unfold set_userPrincipal. cbn [self_baseUrl CalDAVClient_new]. rewrite Hbase.
  cbn [and_then].
  destruct (resolveUrl_value basePath (cached_path (cache_calendarHome cache)));
    [done|].
  unfold set_calendarHome, set_prodId. by destruct (falsy (cache_prodId cache)).
Qed.

(** [exportCache] holds the principal, the calendar home and the product
    identifier of the client; [createFromCache] sends nothing and makes a
    client with the cached product identifier and with the cached principal
    and calendar home passed through [resolveUrl] once more: they are
    restored as they were when the base path is the root or neither begins
    with it. A cache without a principal or without a calendar home, as a
    client that never connected exports, makes [createFromCache] throw a
    type error. *)
Theorem cache_roundtrip options self sent basePath :
  url_pathname w (opt_baseUrl options) = inr basePath ->
  exportCache w self sent
    = (inr (mkCache (self_userPrincipal self) (self_calendarHome self)
                    (Some (self_prodId self))), (self, sent)) /\
  (forall principal home,
     self_userPrincipal self = Some principal ->
     self_calendarHome self = Some home ->
     self_prodId self <> "" ->
     createFromCache options
         (mkCache (self_userPrincipal self) (self_calendarHome self)
                  (Some (self_prodId self))) w sent
       = (inr (mkSelf (opt_baseUrl options) (self_prodId self)
                 (Some (resolveUrl basePath home))
                 (Some (resolveUrl basePath principal))
                 (self_requestTimeout (CalDAVClient_new options))), sent) /\
     (basePath = "/" \/
      (startsWith principal basePath = false /\ startsWith home basePath = false) ->
      resolveUrl basePath principal = principal /\ resolveUrl basePath home = home)) /\
  (forall cache,
     cache_userPrincipal cache = None \/ cache_calendarHome cache = None ->
     exists m, createFromCache options cache w sent = (inl (TypeError m), sent)).
Proof.
  intros Hbase. split; [done|]. split.
  - intros principal home Hp Hh Hprod. split.
    + rewrite (createFromCache_run _ _ _ basePath Hbase), Hp, Hh.
      cbn [cache_userPrincipal cache_calendarHome cache_prodId cached_path
           resolveUrl_value falsy default].
      apply String.eqb_neq in Hprod. by rewrite Hprod.
    + unfold resolveUrl. intros [-> | [-> ->]]; [|done].
      by rewrite !andb_false_r.
  - intros cache Hnone. rewrite (createFromCache_run _ _ _ basePath Hbase).
    destruct (cache_userPrincipal cache) as [p|];
      cbn [cached_path resolveUrl_value]; [|eauto].
    destruct Hnone as [Hn|Hn]; [done|]. rewrite Hn. cbn [cached_path resolveUrl_value].
    eauto.
Qed.

End Queries.


(** ** Further samples *)

Section FurtherSamples.

Import ICAL.
Local Open Scope Z_scope.

Example formatDate_samples :
  formatDate (fun _ => 3600000) 1709283600500 true = "20240301T090000Z" /\
  formatDate (fun _ => 3600000) 1709283600500 false = "20240301T100000" /\
  formatDateOnly 1709283600500 = "20240301" /\
  formatDateOnly (-62198755200000) = "0000010101" /\
  JsDate.toISOString (-62198755200000) = "-000001-01-01T00:00:00.000Z".
Proof. repeat split; vm_compute; reflexivity. Qed.

Lemma conference_day_years :
  ev_wholeDay conference_day = true /\
  0 <= JsDate.getUTCFullYear (ev_start conference_day) <= 9999 /\
  0 <= JsDate.getUTCFullYear (ev_end conference_day) <= 9999.
Proof. split; [done|]. vm_compute. repeat split; discriminate. Qed.

Lemma wholeDay_utc_dates_witness :
  exists vevent,
    build_vcalendar sample_prodId 0 conference_day "c1"
      = inr (mkComponent "vcalendar"
               [mkProperty "version" [] (Text "2.0");
                mkProperty "method" [] (Text "REQUEST");
                mkProperty "prodid" [] (Text sample_prodId)]
               [vevent]) /\
    getAllProperties vevent "dtstart"
      = [mkProperty "dtstart" [] (DateTime (utc_date (ev_start conference_day)))] /\
    getAllProperties vevent "dtend"
      = [mkProperty "dtend" [] (DateTime (utc_date (ev_end conference_day)))].
Proof.
  exact (wholeDay_utc_dates sample_prodId 0 conference_day "c1"
           (proj1 conference_day_years)
           (proj1 (proj2 conference_day_years))
           (proj2 (proj2 conference_day_years))).
Defined.

Lemma fortnightly_plain : plain_rule fortnightly.
Proof.
  unfold plain_rule, fortnightly, safe_integer, day_codes.
  cbn [freq interval count until byday bymonthday bymonth].
  split; [exists "WEEKLY"; split; [done | set_solver]|].
  split; [intros n [= <-]; lia|]. split; [done|]. split; [done|].
  split; [|split].
  - intros l [= <-]. split; [done|].
    repeat constructor; eexists; (split; [reflexivity | set_solver]).
  - by intros l.
  - intros l [= <-]. split; [done|].
    repeat constructor; eexists; (split; [reflexivity | lia]).
Qed.

Lemma meeting_rule_plain r : ev_recurrenceRule meeting = Some r -> plain_rule r.
Proof. intros [= <-]. exact fortnightly_plain. Qed.

Lemma rule_roundtrip_witness :
  map_ok (parseRecurrence sample_codec)
         (Recur_fromString sample_codec (props_toICAL (rruleProps fortnightly)))
  = inr (decoded_rule fortnightly).
Proof. exact (proj1 (rule_roundtrip sample_codec fortnightly fortnightly_plain)). Defined.

(** The rule as text, and as it is read back. *)
Example fortnightly_text :
  props_toICAL (rruleProps fortnightly) = "FREQ=WEEKLY;INTERVAL=2;BYDAY=MO,TH;BYMONTH=3,9" /\
  decoded_rule fortnightly = fortnightly.
Proof. split; vm_compute; reflexivity. Qed.

Lemma meeting_build :
  build_vcalendar sample_prodId 0 meeting "m1" = inr meeting_vcalendar.
Proof. vm_compute. reflexivity. Qed.

Lemma meeting_entry_data :
  entry_calendar_data CR meeting_entry
  = inr (Some (JObj [("getetag", JStr "v1");
                     ("calendar-data", JStr (sample_stringify meeting_vcalendar))],
               stringify (echo_codec meeting_vcalendar) meeting_vcalendar)).
Proof. vm_compute. reflexivity. Qed.

Lemma meeting_read_back :
  parse (echo_codec meeting_vcalendar)
        (stringify (echo_codec meeting_vcalendar) meeting_vcalendar)
  = inr (reread meeting_vcalendar).
Proof. vm_compute. reflexivity. Qed.

Lemma minutes_before n :
  (0 < n)%Z -> safe_integer n -> simple_duration ("-PT" +:+ pretty n +:+ "M").
Proof.
  intros Hpos Hsafe. exists "-", n. split; [by right|]. split; [done|]. split; [done|].
  right; right; right; left. reflexivity.
Qed.

Lemma days_before n :
  (0 < n)%Z -> safe_integer n -> simple_duration ("-P" +:+ pretty n +:+ "D").
Proof.
  intros Hpos Hsafe. exists "-", n. split; [by right|]. split; [done|]. split; [done|].
  right; left. reflexivity.
Qed.

Lemma meeting_triggers : simple_triggers (ev_alarms meeting).
Proof.
  repeat constructor; cbn [alarm_trigger].
  - apply (minutes_before 15); [lia | unfold safe_integer; lia].
  - apply (minutes_before 5); [lia | unfold safe_integer; lia].
Qed.

Lemma errand_triggers : simple_triggers (tdd_alarms errand).
Proof.
  repeat constructor; cbn [alarm_trigger].
  apply (days_before 1); [lia | unfold safe_integer; lia].
Qed.

Lemma one_response_entries entry :
  truthy entry = true -> (forall items, entry <> JArr items) ->
  lists_entries (one_response entry) [entry].
Proof.
  intros Ht Harr. split; [discriminate|].
  unfold responses_of, one_response, toArray. cbn [prop_opt field String.eqb Ascii.eqb Bool.eqb].
  rewrite Ht. destruct entry; try done. by destruct (Harr items).
Qed.

Lemma alarm_roundtrip_witness :
  alarm_of (ICAL.reread (valarm_of (DisplayAlarm "-PT15M" (Some "Review in 15 minutes"))))
  = [DisplayAlarm "-PT15M" (Some "Review in 15 minutes")].
Proof.
  apply (alarm_roundtrip (DisplayAlarm "-PT15M" (Some "Review in 15 minutes"))).
  - apply (minutes_before 15); [lia | unfold safe_integer; lia].
  - discriminate.
Defined.


(** The meeting as it is read back: the milliseconds of the start and the
    empty location are gone. *)
Example meeting_decoded :
  decoded_event "m1" (JObj [("getetag", JStr "v1")]) meeting_entry meeting
  = mkEvent (Some "m1") "Review" 1709283600000 1709287200000 (Some "Quarterly figures")
            None (JStr "v1") (JStr "/cal/m1.ics") false (Some fortnightly)
            (Some "Europe/Berlin") None
            [DisplayAlarm "-PT15M" (Some "Review in 15 minutes"); AudioAlarm "-PT5M"].
Proof. vm_compute. reflexivity. Qed.

Lemma errand_entry_data :
  entry_calendar_data CRLF errand_entry
  = inr (Some (JObj [("getetag", JStr "v1");
                     ("calendar-data", JStr (sample_stringify errand_vcalendar))],
               buildTodoICSData (echo_codec errand_vcalendar) sample_prodId 0 errand "t1")).
Proof. vm_compute. reflexivity. Qed.

Lemma errand_read_back :
  parse (echo_codec errand_vcalendar)
        (buildTodoICSData (echo_codec errand_vcalendar) sample_prodId 0 errand "t1")
  = inr (reread (build_todo_vcalendar sample_prodId 0 errand "t1")).
Proof. vm_compute. reflexivity. Qed.


Example errand_decoded :
  decoded_todo "t1" (JObj [("getetag", JStr "v1")]) errand_entry errand
  = mkTodo (Some (Text "t1")) (Text "Renew passport") None (Some 1709283600000) None
           (Some (Text "NEEDS-ACTION")) None (Some (Text "Town hall"))
           (JStr "v1") (JStr "/cal/t1.ics")
           [EmailAlarm "-P1D" (Some "Tomorrow") None ["mailto:me@example.org"]]
           (Some (Text "3")).
Proof. vm_compute. reflexivity. Qed.

Lemma sample_entries_readable :
  Forall (fun obj => ~ unreadable_entry obj) [good_entry; bad_entry; good_entry].
Proof.
  repeat constructor; intros [H|[_ H]]; try discriminate H.
  - by apply (H standup_ics).
  - by apply (H "BEGIN:VCALENDAR&#13;garbage").
  - by apply (H standup_ics).
Qed.

Lemma sample_all_entries :
  lists_entries (sample_decode "all") [good_entry; bad_entry; good_entry].
Proof. split; [discriminate | reflexivity]. Qed.

Lemma parse_fault_isolation_witness :
  parseEvents sample_codec sample_resolve sample_decode "all" None
    = inr ([standup_decoded; standup_decoded], [Error "invalid ical body"]) /\
  entry_events sample_codec sample_resolve None bad_entry
    = ([], [Error "invalid ical body"]).
Proof.
  destruct (parse_fault_isolation sample_codec sample_resolve sample_decode "all" None
              _ sample_all_entries sample_entries_readable)
    as (Hevents & _ & Hbad & _).
  split.
  - rewrite Hevents. vm_compute. reflexivity.
  - apply (Hbad bad_entry "BEGIN:VCALENDAR&#13;garbage"); [reflexivity | discriminate |].
    vm_compute. reflexivity.
Defined.

(** C9: one entry whose calendar data is no text makes the batch parsers
    throw, and the events and todos of its siblings are lost. Between two
    entries that carry the stand-up event, an entry whose calendar data was
    written in digits (the decoder gives a number) makes [parseEvents] and
    [parseTodos] throw a type error; without it, the two events are
    returned. *)
Theorem numeric_calendar_data_aborts :
  calendar_data numeric_entry = JNum 20240301 /\
  parseEvents sample_codec sample_resolve
    (fun _ => multistatus_of [good_entry; numeric_entry; good_entry]) "" None
    = inl (TypeError "rawCalendarData.replace is not a function") /\
  parseTodos sample_codec sample_resolve
    (fun _ => multistatus_of [good_entry; numeric_entry; good_entry]) "" None
    = inl (TypeError "rawCalendarData.replace is not a function") /\
  parseEvents sample_codec sample_resolve
    (fun _ => multistatus_of [good_entry; good_entry]) "" None
    = inr ([standup_decoded; standup_decoded], []).
Proof. repeat split; vm_compute; reflexivity. Qed.

Lemma parsers_throw_exactly_witness :
  ((exists e, parseEvents sample_codec sample_resolve
                (fun _ => multistatus_of [good_entry; numeric_entry]) "" None = inl e)
   <-> exists obj, obj ∈ [good_entry; numeric_entry] /\ unreadable_entry obj) /\
  (exists obj, obj ∈ [good_entry; numeric_entry] /\ unreadable_entry obj).
Proof.
  split.
  - exact (proj1 (parsers_throw_exactly sample_codec sample_resolve
                    (fun _ => multistatus_of [good_entry; numeric_entry]) "" None
                    [good_entry; numeric_entry] eq_refl)).
  - exists numeric_entry. split; [by right; left|]. right. split; [done | by intros s].
Defined.

Lemma created_object_carries_uid_witness :
  exists vevent rest,
    (createEvent sample_codec sample_prodId 0 "/cal/" (mkItem None None None meeting)
       sample_env []).2
      = [] ++ createItem_request
                (without_trailing_slash "/cal/" +:+ "/"
                   +:+ effective_uid sample_env (mkItem None None None meeting) +:+ ".ics")
                (stringify sample_codec
                   (mkComponent "vcalendar"
                      [mkProperty "version" [] (Text "2.0");
                       mkProperty "method" [] (Text "REQUEST");
                       mkProperty "prodid" [] (Text sample_prodId)]
                      [vevent])) :: rest /\
    comp_name vevent = "vevent" /\
    getAllProperties vevent "uid"
      = [mkProperty "uid" [] (Text (effective_uid sample_env (mkItem None None None meeting)))].
Proof.
  refine (proj1 (created_object_carries_uid sample_codec sample_prodId 0 sample_env
                   "/cal/" [] _) (mkItem None None None meeting)
            meeting_triggers meeting_rule_plain).
  discriminate.
Defined.

Lemma cache_roundtrip_witness :
  createFromCache sample_options
      (mkCache (self_userPrincipal sample_self) (self_calendarHome sample_self)
               (Some (self_prodId sample_self))) sample_world []
    = (inr (mkSelf (opt_baseUrl sample_options) (self_prodId sample_self)
              (Some (resolveUrl "/dav" "/calendars/user/"))
              (Some (resolveUrl "/dav" "/principals/user/"))
              (self_requestTimeout (CalDAVClient_new sample_options))), []) /\
  resolveUrl "/dav" "/principals/user/" = "/principals/user/" /\
  resolveUrl "/dav" "/calendars/user/" = "/calendars/user/".
Proof.
  destruct (proj1 (proj2 (cache_roundtrip sample_world sample_options sample_self []
                            "/dav" eq_refl))
              "/principals/user/" "/calendars/user/" eq_refl eq_refl)
    as [Hrestore Hsame]; [discriminate|].
  split; [exact Hrestore|]. apply Hsame. right. by split.
Defined.

(** A client made against the sample server, and what it then asks for. *)
Example create_sample :
  create sample_options sample_world []
  = (inr sample_self,
     [validateCredentials_query "/"; fetchCalendarHome_query "/principals/user/"]).
Proof. vm_compute. reflexivity. Qed.

Example getCalendars_sample :
  getCalendars sample_world sample_self []
  = (inr [mkCalendar (JStr "Work") (JStr "/cal/work/") (JStr "ctag-1")
            ["VEVENT"; "VJOURNAL"]],
     (sample_self, [getCalendars_query "/calendars/user/"])).
Proof. vm_compute. reflexivity. Qed.

Example getEvents_sample :
  getEvents "/calendars/user/work/" no_options sample_world sample_self []
  = (inr ([standup_decoded], []),
     (sample_self,
      [mkQuery REPORT "/calendars/user/work/" [("Depth", "1")]
         (CalendarQuery "VEVENT"
            (Some ("20240101T000000Z", "20240122T000000Z"))
            (Some ("20240101T000000Z", "20240122T000000Z")))])) /\
  (getTodos "/calendars/user/work/"
     (mkRangeOptions (Some 1704067200000) (Some 1704153600000) None)
     sample_world sample_self []).2
  = (sample_self,
     [mkQuery REPORT "/calendars/user/work/" [("Depth", "1")]
        (CalendarQuery "VTODO" None None)]) /\
  (getTodos "/calendars/user/work/"
     (mkRangeOptions (Some 1704067200000) (Some 1704153600000) (Some None))
     sample_world sample_self []).2
  = (sample_self,
     [mkQuery REPORT "/calendars/user/work/" [("Depth", "1")]
        (CalendarQuery "VTODO" (Some ("20240101T000000Z", "20240102T000000Z")) None)]).
Proof. repeat split; vm_compute; reflexivity. Qed.

Example getETag_sample :
  getETag "/cal/e1.ics" sample_world sample_self []
  = (inr (dquote +:+ "v1" +:+ dquote), (sample_self, [getETag_query "/cal/e1.ics"])) /\
  getEventsByHref "/calendars/user/work/" ["/cal/e1.ics"; "/cal/"; "/cal/notes.txt"]
                  sample_world sample_self []
  = (inr ([standup_decoded], []),
     (sample_self,
      [getItemsByHref_query "/calendars/user/work/" ["/cal/e1.ics"]])).
Proof. split; vm_compute; reflexivity. Qed.

End FurtherSamples.
